(** * Middle-out codec: LZ77 parser + static rANS coder + container

    A shallow embedding of [bitstream.cpp], [rans.cpp] and
    [compressor.cpp], and the properties of the codec checked against it.

    Conventions of the embedding.
    - [std::vector<uint8_t>] is [list byte]; [push_back] appends at the end.
    - [uint8_t], [uint16_t], [uint32_t] and [uint64_t] values are [Z]
      with the wrap-around written out ([u8], [u16], [u32], [u64]).
    - [int] positions and lengths are [nat]; the theorems on the parser
      and on the artifact carry the bound under which no [int]
      overflows ([input_ok]).
    - a [while] loop whose termination is not structural takes fuel and
      returns [None] when the fuel runs out; that the fuel given is
      enough is proved for each of them.
    - files are byte lists; the header fields are read and written on a
      little-endian host. *)

From Stdlib Require Import ZArith List Bool Lia PeanoNat.
From Stdlib.Strings Require Import Byte.
Import ListNotations.

(** ** Machine integers and bytes *)

Definition u8 (x : Z) : Z := (x mod 256)%Z.
Definition u16 (x : Z) : Z := (x mod 65536)%Z.
Definition u32 (x : Z) : Z := (x mod 4294967296)%Z.
Definition u64 (x : Z) : Z := (x mod 18446744073709551616)%Z.

Definition byte_to_Z (b : byte) : Z := Z.of_N (Byte.to_N b).

Definition byte_of_Z (z : Z) : byte :=
  match Byte.of_N (Z.to_N (u8 z)) with
  | Some b => b
  | None => x00
  end.

Definition byte_to_nat (b : byte) : nat := Byte.to_nat b.

(** ** bitstream.cpp *)

Module BitWriter.

Record t := mk {
  buffer : list byte;
  current_byte : Z;
  bit_count : nat
}.

Definition init : t := mk [] 0 0.

Definition WriteBit (bit : bool) (w : t) : t :=
  let cb :=
    if bit
    then u8 (Z.lor (current_byte w) (Z.shiftl 1 (7 - Z.of_nat (bit_count w))))
    else current_byte w in
  let bc := S (bit_count w) in
  if Nat.eqb bc 8
  then mk (buffer w ++ [byte_of_Z cb]) 0 0
  else mk (buffer w) cb bc.

Definition Flush (w : t) : t :=
  if Nat.ltb 0 (bit_count w)
  then mk (buffer w ++ [byte_of_Z (current_byte w)]) 0 0
  else w.

Definition GetData (w : t) : list byte := buffer w.

(** [for (bool flag : is_match) flags_out.WriteBit(flag);] *)
Definition WriteAll (bits : list bool) (w : t) : t :=
  fold_left (fun w b => WriteBit b w) bits w.

(** The loop of [WriteBits], [i] rounds left: the next round writes bit
    [i - 1] of [value]. *)
Fixpoint WriteBits_loop (value : Z) (i : nat) (w : t) : t :=
  match i with
  | O => w
  | S i' =>
      WriteBits_loop value i'
        (WriteBit (negb (Z.eqb (Z.land (Z.shiftr value (Z.of_nat i')) 1) 0)) w)
  end.

(** [WriteBits(value, num_bits)]; [value] is a [uint64_t], so the shift
    is defined for [num_bits <= 64]. *)
Definition WriteBits (value : Z) (num_bits : nat) (w : t) : t :=
  WriteBits_loop value num_bits w.

End BitWriter.

Module BitReader.

Record t := mk {
  data : list byte;
  byte_index : nat;
  bit_index : nat
}.

Definition init (d : list byte) : t := mk d 0 0.

Definition ReadBit (r : t) : bool * t :=
  if Nat.leb (length (data r)) (byte_index r) then (false, r)
  else
    let bit :=
      negb (Z.eqb (Z.land (Z.shiftr (byte_to_Z (nth (byte_index r) (data r) x00))
                                    (7 - Z.of_nat (bit_index r))) 1) 0) in
    let bi := S (bit_index r) in
    if Nat.eqb bi 8
    then (bit, mk (data r) (S (byte_index r)) 0)
    else (bit, mk (data r) (byte_index r) bi).

(** [n] successive calls of [ReadBit], results in call order. *)
Fixpoint ReadMany (n : nat) (r : t) : list bool * t :=
  match n with
  | O => ([], r)
  | S n' =>
      let (b, r1) := ReadBit r in
      let (bs, r2) := ReadMany n' r1 in
      (b :: bs, r2)
  end.

(** The loop of [ReadBits], [n] rounds left:
    [value = (value << 1) | ReadBit();] on a [uint64_t]. *)
Fixpoint ReadBits_loop (n : nat) (value : Z) (r : t) : Z * t :=
  match n with
  | O => (value, r)
  | S n' =>
      let (b, r1) := ReadBit r in
      ReadBits_loop n' (Z.lor (u64 (Z.shiftl value 1)) (if b then 1 else 0)%Z) r1
  end.

Definition ReadBits (num_bits : nat) (r : t) : Z * t :=
  ReadBits_loop num_bits 0%Z r.

End BitReader.

(** ** rans.cpp *)

Definition PROB_BITS : Z := 12.
Definition PROB_SCALE : Z := Z.shiftl 1 PROB_BITS.
Definition RANS_L : Z := Z.shiftl 1 16.

(** [a[i] = v] on a fixed-size array; every index the code writes is in
    range (an out-of-range write leaves the list as it is). *)
Fixpoint upd {A : Type} (i : nat) (v : A) (l : list A) : list A :=
  match l, i with
  | [], _ => []
  | _ :: t, O => v :: t
  | h :: t, S i' => h :: upd i' v t
  end.

Record SymbolStats := mkStats {
  freqs : list Z;      (* uint32_t freqs[256] *)
  cum_freqs : list Z   (* uint32_t cum_freqs[257] *)
}.

(** Objects with static storage duration start zeroed. *)
Definition zero_stats : SymbolStats := mkStats (repeat 0%Z 256) (repeat 0%Z 257).

Section Count.
Local Open Scope Z_scope.

(** [for (uint8_t b : data) freqs[b]++;] *)
Fixpoint tally (data : list byte) (fs : list Z) : list Z :=
  match data with
  | [] => fs
  | b :: rest =>
      let i := byte_to_nat b in
      tally rest (upd i (u32 (nth i fs 0 + 1)) fs)
  end.

(** Body of the scaling loop for one entry; [total] is [uint64_t]. *)
Definition scale_one (total f : Z) : Z :=
  if 0 <? f then
    let scaled := u64 (f * PROB_SCALE) / total in
    let scaled := if scaled =? 0 then 1 else scaled in
    u32 scaled
  else f.

(** The scaling loop over [i = 0..255], accumulating [current_total]. *)
Fixpoint scale_all (total : Z) (fs : list Z) (current_total : Z) : list Z * Z :=
  match fs with
  | [] => ([], current_total)
  | f :: rest =>
      let f' := scale_one total f in
      let (rest', t) := scale_all total rest (u32 (current_total + f')) in
      (f' :: rest', t)
  end.

(** [while (current_total > PROB_SCALE) { ... i = (i + 1) % 256; }] *)
Fixpoint adjust_down (fuel : nat) (fs : list Z) (current_total : Z) (i : nat)
  : option (list Z) :=
  match fuel with
  | O => None
  | S fuel' =>
      if PROB_SCALE <? current_total then
        if 1 <? nth i fs 0
        then adjust_down fuel' (upd i (u32 (nth i fs 0 - 1)) fs)
                         (u32 (current_total - 1)) ((i + 1) mod 256)%nat
        else adjust_down fuel' fs current_total ((i + 1) mod 256)%nat
      else Some fs
  end.

(** [cum_freqs[0] = 0; cum_freqs[i+1] = cum_freqs[i] + freqs[i]] *)
Fixpoint prefix_sums (acc : Z) (fs : list Z) : list Z :=
  match fs with
  | [] => [acc]
  | f :: rest => acc :: prefix_sums (u32 (acc + f)) rest
  end.

Definition adjust_fuel (current_total : Z) : nat :=
  S (Z.to_nat (256 * (current_total - PROB_SCALE))).

(** [SymbolStats::Count]; [st] is the object before the call. *)
Definition Count (st : SymbolStats) (data : list byte) : option SymbolStats :=
  let fs := tally data (repeat 0 256) in
  let total := Z.of_nat (length data) in
  if total =? 0 then Some (mkStats fs (cum_freqs st))
  else
    let (fs1, current_total) := scale_all total fs 0 in
    let adjusted :=
      if current_total <? PROB_SCALE
      then Some (upd 0%nat (u32 (nth 0%nat fs1 0 + u32 (PROB_SCALE - current_total))) fs1)
      else if PROB_SCALE <? current_total
           then adjust_down (adjust_fuel current_total) fs1 current_total 0%nat
           else Some fs1 in
    match adjusted with
    | None => None
    | Some fs2 => Some (mkStats fs2 (prefix_sums 0 fs2))
    end.

End Count.

Record RansEncoderImpl := mkEnc {
  enc_state : Z;
  enc_buffer : list byte;
  enc_stats : SymbolStats
}.

Section Encoder.
Local Open Scope Z_scope.

(** The file-scope [enc_impl] as the program starts. *)
Definition enc_impl0 : RansEncoderImpl := mkEnc RANS_L [] zero_stats.

Definition Enc_Init (e : RansEncoderImpl) : RansEncoderImpl :=
  mkEnc RANS_L [] (enc_stats e).

Definition BuildModel (data : list byte) (e : RansEncoderImpl)
  : option RansEncoderImpl :=
  match Count (enc_stats e) data with
  | Some st => Some (mkEnc (enc_state e) (enc_buffer e) st)
  | None => None
  end.

(** [while (state >= x_max) { buffer.push_back(state & 0xFF); state >>= 8; }] *)
Fixpoint renorm_out (fuel : nat) (x_max state : Z) (buffer : list byte)
  : option (Z * list byte) :=
  match fuel with
  | O => None
  | S fuel' =>
      if x_max <=? state
      then renorm_out fuel' x_max (Z.shiftr state 8)
                      (buffer ++ [byte_of_Z (Z.land state 255)])
      else Some (state, buffer)
  end.

(** [RansEncoderImpl::Encode].  A 32-bit state is zero after four
    shifts, so five rounds of the loop decide whether it exits; [None]
    is the loop that never exits ([x_max == 0]) or the division by a
    zero frequency. *)
Definition Encode (symbol : byte) (e : RansEncoderImpl) : option RansEncoderImpl :=
  let freq := nth (byte_to_nat symbol) (freqs (enc_stats e)) 0 in
  let start := nth (byte_to_nat symbol) (cum_freqs (enc_stats e)) 0 in
  match renorm_out 5 (u32 (Z.shiftl 1 (31 - PROB_BITS) * freq))
                   (enc_state e) (enc_buffer e) with
  | None => None
  | Some (state, buffer) =>
      if freq =? 0 then None
      else Some (mkEnc (u32 (u32 (Z.shiftl (state / freq) PROB_BITS)
                             + state mod freq + start))
                       buffer (enc_stats e))
  end.

Definition Enc_Flush (e : RansEncoderImpl) : RansEncoderImpl :=
  let state := enc_state e in
  mkEnc state
        (enc_buffer e ++ [byte_of_Z (Z.land state 255);
                          byte_of_Z (Z.land (Z.shiftr state 8) 255);
                          byte_of_Z (Z.land (Z.shiftr state 16) 255);
                          byte_of_Z (Z.land (Z.shiftr state 24) 255)])
        (enc_stats e).

Definition GetOutput (e : RansEncoderImpl) : list byte := enc_buffer e.

Definition GetModelData (e : RansEncoderImpl) : list byte :=
  flat_map (fun i =>
              let f := nth i (freqs (enc_stats e)) 0 in
              [byte_of_Z (Z.land f 255); byte_of_Z (Z.land (Z.shiftr f 8) 255)])
           (seq 0 256).

(** Successive [Encode] calls, first element first. *)
Fixpoint EncodeAll (symbols : list byte) (e : RansEncoderImpl)
  : option RansEncoderImpl :=
  match symbols with
  | [] => Some e
  | s :: rest =>
      match Encode s e with
      | Some e' => EncodeAll rest e'
      | None => None
      end
  end.

End Encoder.

Record RansDecoderImpl := mkDec {
  dec_state : Z;
  dec_data : list byte;
  ptr : nat;
  dec_stats : SymbolStats
}.

Section Decoder.
Local Open Scope Z_scope.

(** The constructor; it leaves [stats] uninitialised, so the value the
    member holds is a parameter. *)
Definition Dec_new (uninit : SymbolStats) (d : list byte) : RansDecoderImpl :=
  let p := length d in
  if (4 <=? p)%nat then
    let p := (p - 4)%nat in
    let b k := byte_to_Z (nth (p + k) d x00) in
    mkDec (u32 (Z.lor (Z.lor (Z.lor (b 0%nat) (Z.shiftl (b 1%nat) 8))
                             (Z.shiftl (b 2%nat) 16))
                      (Z.shiftl (b 3%nat) 24)))
          d p uninit
  else mkDec RANS_L d p uninit.

(** [RansDecoderImpl::Init(model_data)] *)
Definition Dec_Init (model_data : list byte) (d : RansDecoderImpl)
  : RansDecoderImpl :=
  if (length model_data <? 512)%nat then d
  else
    let fs := map (fun i =>
                     Z.lor (byte_to_Z (nth (2 * i) model_data x00))
                           (Z.shiftl (byte_to_Z (nth (2 * i + 1) model_data x00)) 8))
                  (seq 0 256) in
    mkDec (dec_state d) (dec_data d) (ptr d) (mkStats fs (prefix_sums 0 fs)).

(** The symbol search: [n] rounds left, at index [i]; [symbol] stays
    [0] when no round breaks. *)
Fixpoint find_symbol (cum : list Z) (slot : Z) (i n : nat) : nat :=
  match n with
  | O => 0%nat
  | S n' =>
      if slot <? nth (i + 1) cum 0 then i
      else find_symbol cum slot (S i) n'
  end.

(** [while (state < RANS_L && ptr > 0) state = (state << 8) | data[--ptr];] *)
Fixpoint renorm_in (data : list byte) (p : nat) (state : Z) : Z * nat :=
  match p with
  | O => (state, O)
  | S p' =>
      if state <? RANS_L
      then renorm_in data p'
             (Z.lor (u32 (Z.shiftl state 8)) (byte_to_Z (nth p' data x00)))
      else (state, p)
  end.

Definition Decode (d : RansDecoderImpl) : byte * RansDecoderImpl :=
  let state := dec_state d in
  let slot := Z.land state (PROB_SCALE - 1) in
  let symbol := find_symbol (cum_freqs (dec_stats d)) slot 0 256 in
  let freq := nth symbol (freqs (dec_stats d)) 0 in
  let start := nth symbol (cum_freqs (dec_stats d)) 0 in
  let state := u32 (Z.shiftr state PROB_BITS * freq + slot - start) in
  let (state, p) := renorm_in (dec_data d) (ptr d) state in
  (byte_of_Z (Z.of_nat symbol), mkDec state (dec_data d) p (dec_stats d)).

(** [n] successive [Decode] calls, results in call order. *)
Fixpoint DecodeMany (n : nat) (d : RansDecoderImpl) : list byte * RansDecoderImpl :=
  match n with
  | O => ([], d)
  | S n' =>
      let (s, d1) := Decode d in
      let (ss, d2) := DecodeMany n' d1 in
      (s :: ss, d2)
  end.

End Decoder.

(** ** compressor.cpp *)

Module Match.
Record t := mk { distance : nat; length : nat }.
End Match.

Definition byte_eqb (a b : byte) : bool := Byte.eqb a b.

(** The window [Compress] passes to [FindLongestMatch]. *)
Definition WINDOW : nat := Z.to_nat 32768.

Section Parser.

Variable data : list byte.

(** The inner [while] of [FindLongestMatch]: [len] grows while the
    three conditions hold.  [i + len < pos] bounds the rounds, so the
    loop is run for [pos - i] rounds at most. *)
Fixpoint match_length (pos limit i len rounds : nat) : nat :=
  match rounds with
  | O => len
  | S rounds' =>
      if (pos + len <? limit) && (i + len <? pos)
         && byte_eqb (nth (i + len) data x00) (nth (pos + len) data x00)
      then match_length pos limit i (S len) rounds'
      else len
  end.

(** The [for (i = start_search; i < pos; ++i)] loop, [n] rounds left. *)
Fixpoint search (pos limit i n max_len best_dist : nat) : nat * nat :=
  match n with
  | O => (max_len, best_dist)
  | S n' =>
      let len := match_length pos limit i 0 (pos - i) in
      if max_len <? len
      then search pos limit (S i) n' len (pos - i)
      else search pos limit (S i) n' max_len best_dist
  end.

Definition FindLongestMatch (pos window_size : nat) : Match.t :=
  let limit := Nat.min (List.length data) (pos + 255) in
  let start_search := Nat.max 0 (pos - window_size) in
  let (max_len, best_dist) := search pos limit start_search (pos - start_search) 0 0 in
  if max_len <? 3 then Match.mk 0 0 else Match.mk best_dist max_len.

(** The three vectors the parsing loop fills. *)
Record Parsed := mkParsed {
  literals : list byte;
  matches : list Match.t;
  is_match : list bool
}.

(** [while (pos < data.size()) { ... }] *)
Fixpoint parse_loop (fuel pos : nat) (p : Parsed) : option Parsed :=
  match fuel with
  | O => None
  | S fuel' =>
      if pos <? List.length data then
        let m := FindLongestMatch pos WINDOW in
        if 3 <=? Match.length m
        then parse_loop fuel' (pos + Match.length m)
               (mkParsed (literals p) (matches p ++ [m]) (is_match p ++ [true]))
        else parse_loop fuel' (S pos)
               (mkParsed (literals p ++ [nth pos data x00]) (matches p)
                         (is_match p ++ [false]))
      else Some p
  end.

Definition parse : option Parsed :=
  parse_loop (S (List.length data)) 0 (mkParsed [] [] []).

End Parser.

(** The tokens a parse stands for, read off the three vectors the way
    the decoder does: one flag per token, the next literal or the next
    match according to the flag. *)
Inductive Token :=
| Literal (b : byte)
| Copy (m : Match.t).

Fixpoint tokens_of (flags : list bool) (lits : list byte) (ms : list Match.t)
  : list Token :=
  match flags with
  | [] => []
  | false :: flags' =>
      match lits with
      | b :: lits' => Literal b :: tokens_of flags' lits' ms
      | [] => []
      end
  | true :: flags' =>
      match ms with
      | m :: ms' => Copy m :: tokens_of flags' lits ms'
      | [] => []
      end
  end.

Definition tokens (p : Parsed) : list Token :=
  tokens_of (is_match p) (literals p) (matches p).

(** Input bytes a token accounts for. *)
Definition token_size (t : Token) : nat :=
  match t with
  | Literal _ => 1
  | Copy m => Match.length m
  end.

Definition consumed (ts : list Token) : nat :=
  fold_right (fun t n => token_size t + n) 0 ts.

Section Container.
Local Open Scope Z_scope.

Definition MAGIC : Z := 0x4D49444F.

(** [out.write((char* )&x, 4)] of a [uint32_t] on a little-endian host. *)
Definition le32 (x : Z) : list byte :=
  [byte_of_Z x; byte_of_Z (Z.shiftr x 8);
   byte_of_Z (Z.shiftr x 16); byte_of_Z (Z.shiftr x 24)].

(** [in.read((char* )&x, 4)] on four bytes. *)
Definition rd32 (b : list byte) : Z :=
  byte_to_Z (nth 0 b x00) + 256 * byte_to_Z (nth 1 b x00)
  + 65536 * byte_to_Z (nth 2 b x00) + 16777216 * byte_to_Z (nth 3 b x00).

Definition pack_match (m : Match.t) : list byte :=
  let d := Z.of_nat (Match.distance m) in
  let l := Z.of_nat (Match.length m) in
  [byte_of_Z (Z.land d 255); byte_of_Z (Z.land (Z.shiftr d 8) 255);
   byte_of_Z (Z.land l 255)].

(** [out.write(v.data(), n)] with [n] the 32-bit size field. *)
Definition write_region (v : list byte) (n : Z) : list byte :=
  firstn (Z.to_nat n) v.

(** The [k]-th 32-bit field of the header of [file]. *)
Definition header_field (k : nat) (file : list byte) : Z :=
  rd32 (firstn 4 (skipn (4 * k) file)).

(** [Compress] on the bytes of the input file; the result is the
    content of the output file, [None] when no artifact is written
    (empty input, or a step that does not return). *)
Definition Compress (data : list byte) : option (list byte) :=
  match data with
  | [] => None
  | _ =>
      match BuildModel data (Enc_Init enc_impl0) with
      | None => None
      | Some rans =>
          match parse data with
          | None => None
          | Some p =>
              let flags_out := BitWriter.WriteAll (is_match p) BitWriter.init in
              let packed_matches := flat_map pack_match (matches p) in
              match EncodeAll (rev (literals p)) rans with
              | None => None
              | Some rans =>
                  let flags_out := BitWriter.Flush flags_out in
                  let rans := Enc_Flush rans in
                  let rans_out := GetOutput rans in
                  let model_data := GetModelData rans in
                  let orig_size := u32 (Z.of_nat (length data)) in
                  let rans_size := u32 (Z.of_nat (length rans_out)) in
                  let flags_size := u32 (Z.of_nat (length (BitWriter.GetData flags_out))) in
                  let match_size := u32 (Z.of_nat (length packed_matches)) in
                  let model_size := u32 (Z.of_nat (length model_data)) in
                  Some (le32 MAGIC ++ le32 orig_size ++ le32 rans_size
                        ++ le32 flags_size ++ le32 match_size ++ le32 model_size
                        ++ write_region rans_out rans_size
                        ++ write_region (BitWriter.GetData flags_out) flags_size
                        ++ write_region packed_matches match_size
                        ++ write_region model_data model_size)
              end
          end
      end
  end.

(** What [Decompress] sends to [std::cerr]. *)
Inductive Report :=
| BadMagic
| MatchUnderflow
| InvalidDistance (dist have : nat).

(** State of the emit loop. *)
Record Emit := mkEmit {
  rans : RansDecoderImpl;
  flags_in : BitReader.t;
  output : list byte;
  match_ptr : nat
}.

Inductive Step :=
| Continue (s : Emit)
| Break (s : Emit) (r : Report)
| BadRead.      (* [output[start + i]] past the end of [output] *)

(** [for (i = 0; i < len; ++i) output.push_back(output[start + i]);] *)
Fixpoint copy_match (start i n : nat) (out : list byte) : option (list byte) :=
  match n with
  | O => Some out
  | S n' =>
      match nth_error out (start + i) with
      | Some b => copy_match start (S i) n' (out ++ [b])
      | None => None
      end
  end.

(** [uint16_t dist = match_data[match_ptr] | (match_data[match_ptr+1] << 8);] *)
Definition record_dist (match_data : list byte) (mp : nat) : Z :=
  u16 (Z.lor (byte_to_Z (nth mp match_data x00))
             (Z.shiftl (byte_to_Z (nth (mp + 1) match_data x00)) 8)).

(** [uint8_t len = match_data[match_ptr+2];] *)
Definition record_len (match_data : list byte) (mp : nat) : Z :=
  byte_to_Z (nth (mp + 2) match_data x00).

(** One round of the emit loop's body. *)
Definition emit_step (match_data : list byte) (s : Emit) : Step :=
  let (flag, fr) := BitReader.ReadBit (flags_in s) in
  if negb flag then
    let (lit, d) := Decode (rans s) in
    Continue (mkEmit d fr (output s ++ [lit]) (match_ptr s))
  else
    let mp := match_ptr s in
    if (length match_data <? mp + 3)%nat
    then Break (mkEmit (rans s) fr (output s) mp) MatchUnderflow
    else
      let dist := record_dist match_data mp in
      let len := record_len match_data mp in
      let mp := (mp + 3)%nat in
      if Z.of_nat (length (output s)) <? dist
      then Break (mkEmit (rans s) fr (output s) mp)
                 (InvalidDistance (Z.to_nat dist) (length (output s)))
      else
        let start := (length (output s) - Z.to_nat dist)%nat in
        match copy_match start 0 (Z.to_nat len) (output s) with
        | Some out => Continue (mkEmit (rans s) fr out mp)
        | None => BadRead
        end.

Inductive LoopEnd :=
| Stopped (s : Emit) (r : option Report)   (* the loop was left; [r] is the error, if any *)
| Undefined                                 (* a read outside an array *)
| OutOfFuel.

(** [while (output.size() < orig_size) { ... }] *)
Fixpoint emit_loop (fuel : nat) (orig_size : Z) (match_data : list byte) (s : Emit)
  : LoopEnd :=
  match fuel with
  | O => OutOfFuel
  | S fuel' =>
      if Z.of_nat (length (output s)) <? orig_size then
        match emit_step match_data s with
        | Continue s' => emit_loop fuel' orig_size match_data s'
        | Break s' r => Stopped s' (Some r)
        | BadRead => Undefined
        end
      else Stopped s None
  end.

(** [std::vector<uint8_t> v(n); in.read(v.data(), n);] on the rest of
    the file: the bytes that are there, zeros after them. *)
Definition read_region (n : nat) (rest : list byte) : list byte * list byte :=
  (firstn n rest ++ repeat x00 (n - length rest), skipn n rest).

Inductive Outcome :=
| Rejected (r : Report)                        (* returned before the output file is opened *)
| Wrote (file : list byte) (r : option Report) (* content of the output file, and the error reported *)
| NoBehaviour.                                 (* uninitialised header field, bad read, or no fuel *)

Definition emit_fuel (orig_size : Z) (match_data : list byte) : nat :=
  S (Z.to_nat orig_size + length match_data).

(** The state of the loop after [n] whole rounds, while it runs. *)
Fixpoint emit_run (n : nat) (orig_size : Z) (match_data : list byte) (s : Emit)
  : option Emit :=
  match n with
  | O => Some s
  | S n' =>
      if Z.of_nat (length (output s)) <? orig_size then
        match emit_step match_data s with
        | Continue s' => emit_run n' orig_size match_data s'
        | _ => None
        end
      else None
  end.

(** The part of [Decompress] between the magic check and the emit loop:
    the header fields, the four regions, the decoder and the bit
    reader.  The result is [orig_size], the match region and the state
    the loop starts in.  [uninit] is what the decoder's [stats] member
    holds before [SetModel]. *)
Definition open_container (uninit : SymbolStats) (file : list byte)
  : Z * list byte * Emit :=
  let orig_size := header_field 1 file in
  let rans_size := header_field 2 file in
  let flags_size := header_field 3 file in
  let match_size := header_field 4 file in
  let model_size := header_field 5 file in
  let rest := skipn 24 file in
  let (rans_data, rest) := read_region (Z.to_nat rans_size) rest in
  let (flags_data, rest) := read_region (Z.to_nat flags_size) rest in
  let (match_data, rest) := read_region (Z.to_nat match_size) rest in
  let (model_data, rest) := read_region (Z.to_nat model_size) rest in
  let rans := Dec_Init model_data (Dec_new uninit rans_data) in
  (orig_size, match_data, mkEmit rans (BitReader.init flags_data) [] 0).

(** [Decompress] on the bytes of the input file. *)
Definition Decompress (uninit : SymbolStats) (file : list byte) : Outcome :=
  if (length file <? 4)%nat then NoBehaviour
  else if negb (header_field 0 file =? MAGIC) then Rejected BadMagic
  else if (length file <? 24)%nat then NoBehaviour
  else
    let '(orig_size, match_data, s) := open_container uninit file in
    match emit_loop (emit_fuel orig_size match_data) orig_size match_data s with
    | Stopped s' r => Wrote (output s') r
    | Undefined => NoBehaviour
    | OutOfFuel => NoBehaviour
    end.

End Container.

(** ** Predicates used in the statements *)

Definition Zsum (l : list Z) : Z := fold_right Z.add 0%Z l.

Fixpoint Zlist_eqb (a b : list Z) : bool :=
  match a, b with
  | [], [] => true
  | x :: a', y :: b' => Z.eqb x y && Zlist_eqb a' b'
  | _, _ => false
  end.

(** A model as [Count] and [SetModel] leave it: 256 non-negative
    frequencies of sum [PROB_SCALE], and their prefix sums. *)
Definition model_okb (st : SymbolStats) : bool :=
  Nat.eqb (length (freqs st)) 256
  && forallb (fun f => Z.leb 0 f) (freqs st)
  && Z.eqb (Zsum (freqs st)) PROB_SCALE
  && Zlist_eqb (cum_freqs st) (prefix_sums 0 (freqs st)).

Definition model_ok (st : SymbolStats) : Prop := model_okb st = true.

(** The inputs whose positions fit the [int] the parser computes with
    ([pos + 255] is formed at every position). *)
Definition INT_MAX : Z := 2147483647.

Definition input_ok (data : list byte) : Prop :=
  (Z.of_nat (length data) + 255 <= INT_MAX)%Z.

(** ** Invariants of the loops *)

(** What holds of the writer after the bits [B]: [q] whole bytes are in
    the buffer, [r] bits are pending in [current_byte]. *)
Definition written (B : list bool) (w : BitWriter.t) (q r : nat) : Prop :=
  length B = 8 * q + r /\ r < 8
  /\ BitWriter.bit_count w = r
  /\ length (BitWriter.buffer w) = q
  /\ (forall k j, k < q -> j < 8 ->
        Z.testbit (byte_to_Z (nth k (BitWriter.buffer w) x00)) (Z.of_nat (7 - j))
        = nth (8 * k + j) B false)
  /\ (forall j, j < 8 ->
        Z.testbit (BitWriter.current_byte w) (Z.of_nat (7 - j)) = nth (8 * q + j) B false).

(** The invariant of the decrement loop. *)
Definition adj_inv (fs : list Z) (T : Z) : Prop :=
  length fs = 256
  /\ (forall j, 0 <= nth j fs 0%Z <= 4096)%Z
  /\ Zsum fs = T
  /\ (T < 4294967296)%Z.

(** What the search loop keeps in [(max_len, best_dist)]. *)
Definition candidate (pos limit lo : nat) (r : nat * nat) : Prop :=
  fst r = 0
  \/ (1 <= snd r /\ snd r <= pos - lo /\ fst r <= snd r /\ pos + fst r <= limit).

(** Flags, literals and matches line up: as many [false] flags as
    literals, as many [true] flags as matches. *)
Fixpoint aligned (flags : list bool) (nl nm : nat) : Prop :=
  match flags with
  | [] => nl = 0 /\ nm = 0
  | false :: flags' => match nl with S nl' => aligned flags' nl' nm | O => False end
  | true :: flags' => match nm with S nm' => aligned flags' nl nm' | O => False end
  end.

(** The bounds of a match token at input position [pos]. *)
Definition match_ok (pos : nat) (m : Match.t) : Prop :=
  1 <= Match.distance m /\ (Z.of_nat (Match.distance m) <= 32768)%Z
  /\ 3 <= Match.length m /\ Match.length m <= 255
  /\ Match.distance m <= pos
  /\ Match.length m <= Match.distance m.

(** Every match token of [ts] is within bounds at the position where
    it stands. *)
Definition tokens_ok (ts : list Token) : Prop :=
  forall pre m post, ts = pre ++ Copy m :: post -> match_ok (consumed pre) m.

(** The invariant of the parsing loop at position [pos]. *)
Definition parse_inv (data : list byte) (pos : nat) (p : Parsed) : Prop :=
  pos <= length data
  /\ aligned (is_match p) (length (literals p)) (length (matches p))
  /\ consumed (tokens p) = pos
  /\ tokens_ok (tokens p)
  /\ (forall b, In b (literals p) -> In b data)
  /\ length (literals p) + 3 * length (matches p) <= pos
  /\ length (is_match p) = length (literals p) + length (matches p).

(** Rounds left, at most: bytes still to emit plus match bytes unread. *)
Definition rounds_left (orig_size : Z) (match_data : list byte) (s : Emit) : nat :=
  Z.to_nat (orig_size - Z.of_nat (length (output s)))
  + (length match_data - match_ptr s).

(** ** Concrete inputs *)

(** 64 bytes of [0x58]. *)
Definition run_of_X : list byte := repeat "X"%byte 64.

Definition ABCDEF : list byte := ["A"; "B"; "C"; "D"; "E"; "F"]%byte.

(** Every byte value once, in increasing order. *)
Definition all_bytes : list byte := map (fun n => byte_of_Z (Z.of_nat n)) (seq 0 256).

(** 4097 bytes [0x00] and one byte of each other value: the scaled
    frequencies add up to 4111, so [Count] runs its decrement loop. *)
Definition skewed : list byte :=
  repeat x00 4097 ++ map (fun n => byte_of_Z (Z.of_nat n)) (seq 1 255).

(** The artifact of ["ABCABC"] with the distance of its one match record
    (3) overwritten by 5; the record is at offset 24 + 4 + 1. *)
Definition bad_distance_artifact : list byte :=
  match Compress ["A"; "B"; "C"; "A"; "B"; "C"]%byte with
  | Some art => firstn 29 art ++ ["005"%byte] ++ skipn 30 art
  | None => []
  end.

(** The same artifact with [orig_size] raised from 6 to 9 and a fifth
    flag set: a second match is announced, and there is no record
    for it. *)
Definition underflow_artifact : list byte :=
  match Compress ["A"; "B"; "C"; "A"; "B"; "C"]%byte with
  | Some art =>
      firstn 4 art ++ ["009"%byte] ++ skipn 5 (firstn 28 art)
      ++ ["024"%byte] ++ skipn 29 art
  | None => []
  end.

(** The emit loop on an artifact: where it starts, and where it is
    after [n] rounds. *)
Definition loop_start (file : list byte) : Emit :=
  snd (open_container zero_stats file).

Definition loop_after (n : nat) (file : list byte) : Emit :=
  let '(orig_size, match_data, s0) := open_container zero_stats file in
  match emit_run n orig_size match_data s0 with
  | Some s => s
  | None => s0
  end.

(** An encoder and a decoder in mid-stream, under the model of
    ["ABCDEF"]. *)
Definition demo_encoder : RansEncoderImpl :=
  match BuildModel ABCDEF (Enc_Init enc_impl0) with
  | Some e => e
  | None => enc_impl0
  end.

Definition demo_decoder : RansDecoderImpl :=
  match EncodeAll ABCDEF demo_encoder with
  | Some e =>
      Dec_Init (GetModelData (Enc_Flush e)) (Dec_new zero_stats (GetOutput (Enc_Flush e)))
  | None => Dec_new zero_stats []
  end.

(** ** Sequences of calls, for the statements on [WriteBits] and [ReadBits] *)

(** Successive [WriteBits(value, num_bits)] calls, first pair first. *)
Fixpoint WriteFields (fields : list (Z * nat)) (w : BitWriter.t) : BitWriter.t :=
  match fields with
  | [] => w
  | (value, num_bits) :: rest => WriteFields rest (BitWriter.WriteBits value num_bits w)
  end.

(** Successive [ReadBits(num_bits)] calls, results in call order. *)
Fixpoint ReadFields (widths : list nat) (r : BitReader.t) : list Z * BitReader.t :=
  match widths with
  | [] => ([], r)
  | n :: rest =>
      let (v, r1) := BitReader.ReadBits n r in
      let (vs, r2) := ReadFields rest r1 in
      (v :: vs, r2)
  end.

(** Bits [n - 1] down to [0] of [value], the order [WriteBits] writes
    them in. *)
Fixpoint bits_msb (value : Z) (n : nat) : list bool :=
  match n with
  | O => []
  | S n' => Z.testbit value (Z.of_nat n') :: bits_msb value n'
  end.

(** One round of [ReadBits]: [(value << 1) | bit] on a [uint64_t]. *)
Definition shift_in (value : Z) (b : bool) : Z :=
  Z.lor (u64 (Z.shiftl value 1)) (if b then 1 else 0)%Z.

(** The bits of a byte sequence, each byte most significant bit first. *)
Definition bits_of_bytes (bytes : list byte) : list bool :=
  flat_map (fun b => bits_msb (byte_to_Z b) 8) bytes.

(** ** Encoder and decoder side by side *)

(** The decoder [d] stands where the encoder [e] is: same state, same
    model, read pointer at the end of [e]'s buffer, and [e]'s buffer is
    the start of the decoder's data. *)
Definition positioned (d : RansDecoderImpl) (e : RansEncoderImpl) : Prop :=
  dec_state d = enc_state e
  /\ dec_stats d = enc_stats e
  /\ ptr d = length (enc_buffer e)
  /\ firstn (length (enc_buffer e)) (dec_data d) = enc_buffer e.

(** The renormalisation [Encode(symbol)] does from the state of [e] is
    one the decoder's refill undoes: the loop does not run, or it runs
    from a state below [2^24]. *)
Definition renorm_undone (symbol : byte) (e : RansEncoderImpl) : bool :=
  let freq := nth (byte_to_nat symbol) (freqs (enc_stats e)) 0%Z in
  (enc_state e <? u32 (Z.shiftl 1 (31 - PROB_BITS) * freq))%Z
  || (enc_state e <? 16777216)%Z.

(** [renorm_undone] at every [Encode] of a run of calls; a call that
    does not return makes it [false]. *)
Fixpoint in_sync (symbols : list byte) (e : RansEncoderImpl) : bool :=
  match symbols with
  | [] => true
  | s :: rest =>
      renorm_undone s e
      && match Encode s e with
         | Some e' => in_sync rest e'
         | None => false
         end
  end.

(** ** Parser and emit loop side by side *)

(** What a round of the emit loop of [Decompress] does to [output]
    with one token of the parse: a literal is pushed; a match is
    checked against the size of [output] and copied from [distance]
    bytes back.  [None] is the round that breaks or reads outside
    [output]. *)
Definition replay_token (out : list byte) (t : Token) : option (list byte) :=
  match t with
  | Literal b => Some (out ++ [b])
  | Copy m =>
      if length out <? Match.distance m then None
      else copy_match (length out - Match.distance m) 0 (Match.length m) out
  end.

Fixpoint replay (ts : list Token) (out : list byte) : option (list byte) :=
  match ts with
  | [] => Some out
  | t :: ts' =>
      match replay_token out t with
      | Some out' => replay ts' out'
      | None => None
      end
  end.

(** The renormalisations of the [Encode] calls [Compress] makes on
    [data] are all ones the decoder's refill undoes. *)
Definition literals_in_sync (data : list byte) : bool :=
  match BuildModel data (Enc_Init enc_impl0), parse data with
  | Some rans, Some p => in_sync (rev (literals p)) rans
  | _, _ => false
  end.

(** ** More concrete inputs *)

(** The artifact of ["ABCABC"] with the distance of its match record
    overwritten by 0, and by 1. *)
Definition zero_distance_artifact : list byte :=
  match Compress ["A"; "B"; "C"; "A"; "B"; "C"]%byte with
  | Some art => firstn 29 art ++ ["000"%byte] ++ skipn 30 art
  | None => []
  end.

Definition overlap_artifact : list byte :=
  match Compress ["A"; "B"; "C"; "A"; "B"; "C"]%byte with
  | Some art => firstn 29 art ++ ["001"%byte] ++ skipn 30 art
  | None => []
  end.

(** An encoder under the model of [skewed], and a run of symbols on
    which it renormalises twice, each time from a state below [2^24]. *)
Definition skewed_encoder : RansEncoderImpl :=
  match BuildModel skewed (Enc_Init enc_impl0) with
  | Some e => e
  | None => enc_impl0
  end.


(** The encoder after the first five symbols of ["ABCDEF"]: its state
    is above [2^24] and above the renormalisation bound of ["F"]. *)
Definition high_encoder : RansEncoderImpl :=
  match EncodeAll (firstn 5 ABCDEF) demo_encoder with
  | Some e => e
  | None => demo_encoder
  end.

(** The encoder after the six symbols of ["ABCDEF"]. *)
Definition late_encoder : RansEncoderImpl :=
  match EncodeAll ABCDEF demo_encoder with
  | Some e => e
  | None => demo_encoder
  end.

(* ================================================================== *)
(** * Properties *)

(** ** Bytes: conversions *)

Lemma byte_to_Z_range (b : byte) : (0 <= byte_to_Z b < 256)%Z.
Proof.
  unfold byte_to_Z. pose proof (Byte.to_N_bounded b). lia.
Qed.

Lemma byte_to_of_Z (z : Z) : byte_to_Z (byte_of_Z z) = u8 z.
Proof.
  unfold byte_of_Z, byte_to_Z.
  assert (Hr : (0 <= u8 z < 256)%Z) by (unfold u8; apply Z.mod_pos_bound; lia).
  destruct (Byte.of_N (Z.to_N (u8 z))) as [b|] eqn:E.
  - apply Byte.to_of_N in E. rewrite E. lia.
  - apply Byte.of_N_None_iff in E. lia.
Qed.

Lemma byte_of_to_Z (b : byte) : byte_of_Z (byte_to_Z b) = b.
Proof.
  unfold byte_of_Z, byte_to_Z, u8.
  pose proof (Byte.to_N_bounded b).
  rewrite Z.mod_small by lia.
  rewrite N2Z.id, Byte.of_to_N. reflexivity.
Qed.

Lemma u8_testbit (x : Z) (n : Z) :
  (0 <= n)%Z -> Z.testbit (u8 x) n = if (n <? 8)%Z then Z.testbit x n else false.
Proof.
  intros Hn. unfold u8. change 256%Z with (2 ^ 8)%Z.
  destruct (n <? 8)%Z eqn:E.
  - apply Z.mod_pow2_bits_low. lia.
  - apply Z.mod_pow2_bits_high. lia.
Qed.

Lemma land1_testbit (x s : Z) :
  negb (Z.eqb (Z.land (Z.shiftr x s) 1) 0) = Z.testbit x s.
Proof.
  rewrite Z.testbit_odd.
  change 1%Z with (Z.ones 1). rewrite Z.land_ones by lia.
  change (2 ^ 1)%Z with 2%Z. rewrite Zmod_odd.
  destruct (Z.odd (Z.shiftr x s)); reflexivity.
Qed.

Lemma byte_of_Z_testbit (z : Z) (n : nat) :
  n < 8 -> Z.testbit (byte_to_Z (byte_of_Z z)) (Z.of_nat n) = Z.testbit z (Z.of_nat n).
Proof.
  intros Hn. rewrite byte_to_of_Z, u8_testbit by lia.
  destruct (Z.of_nat n <? 8)%Z eqn:E; [reflexivity|]. apply Z.ltb_ge in E. lia.
Qed.

(** ** C7: BitWriter / BitReader *)

Section BitOrder.

Import BitWriter.

Lemma written_init : written [] init 0 0.
Proof.
  unfold written, init; simpl. repeat split; try lia.
  intros j _. rewrite Z.testbit_0_l. destruct j; reflexivity.
Qed.

Lemma pending_bit (B : list bool) (w : BitWriter.t) (q r : nat) (b : bool) :
  written B w q r ->
  forall j, j < 8 ->
    Z.testbit (if b then u8 (Z.lor (current_byte w)
                                   (Z.shiftl 1 (7 - Z.of_nat (bit_count w))))
               else current_byte w) (Z.of_nat (7 - j))
    = nth (8 * q + j) (B ++ [b]) false.
Proof.
  intros (HB & Hr & Hbc & _ & _ & Hcb) j Hj.
  assert (Hold : Z.testbit (current_byte w) (Z.of_nat (7 - j))
                 = nth (8 * q + j) B false) by (apply Hcb; exact Hj).
  assert (Hnew : nth (8 * q + j) (B ++ [b]) false
                 = if Nat.eqb j r then b else nth (8 * q + j) B false).
  { destruct (Nat.eqb j r) eqn:E.
    - apply Nat.eqb_eq in E. subst j.
      rewrite app_nth2 by lia. replace (8 * q + r - length B) with 0 by lia.
      reflexivity.
    - apply Nat.eqb_neq in E.
      destruct (Nat.lt_ge_cases (8 * q + j) (length B)) as [Hlt|Hge].
      + apply app_nth1. exact Hlt.
      + rewrite (nth_overflow B) by lia.
        apply nth_overflow. rewrite length_app. simpl. lia. }
  rewrite Hnew.
  destruct b.
  - rewrite u8_testbit by lia.
    replace (Z.of_nat (7 - j) <? 8)%Z with true by (symmetry; apply Z.ltb_lt; lia).
    rewrite Z.lor_spec, Z.shiftl_1_l, Hbc, Z.pow2_bits_eqb by lia.
    rewrite Hold.
    destruct (Nat.eqb j r) eqn:E.
    + apply Nat.eqb_eq in E. subst j.
      replace (7 - Z.of_nat r =? Z.of_nat (7 - r))%Z with true
        by (symmetry; apply Z.eqb_eq; lia).
      apply orb_true_r.
    + apply Nat.eqb_neq in E.
      replace (7 - Z.of_nat r =? Z.of_nat (7 - j))%Z with false
        by (symmetry; apply Z.eqb_neq; lia).
      apply orb_false_r.
  - rewrite Hold.
    destruct (Nat.eqb j r) eqn:E; [|reflexivity].
    apply Nat.eqb_eq in E. subst j.
    apply nth_overflow. lia.
Qed.

Lemma written_step (B : list bool) (w : BitWriter.t) (q r : nat) (b : bool) :
  written B w q r ->
  written (B ++ [b]) (WriteBit b w)
          (if Nat.eqb (S r) 8 then S q else q)
          (if Nat.eqb (S r) 8 then 0 else S r).
Proof.
  intros Hw. pose proof (pending_bit B w q r b Hw) as Hpend.
  destruct Hw as (HB & Hr & Hbc & Hlen & Hbuf & Hcb).
  unfold WriteBit. rewrite Hbc in *.
  assert (Hks : forall k j, k < q -> j < 8 ->
            nth (8 * k + j) (B ++ [b]) false = nth (8 * k + j) B false)
    by (intros k j Hk Hj; apply app_nth1; lia).
  assert (HB' : length (B ++ [b]) = S (8 * q + r))
    by (rewrite length_app; cbn [length]; lia).
  destruct (Nat.eqb (S r) 8) eqn:E.
  - apply Nat.eqb_eq in E. unfold written; cbn [buffer current_byte bit_count].
    split; [lia|]. split; [lia|]. split; [reflexivity|].
    split; [rewrite length_app; cbn [length]; lia|]. split.
    + intros k j Hk Hj.
      destruct (Nat.eq_dec k q) as [->|Hne].
      * rewrite app_nth2 by lia. rewrite Hlen, Nat.sub_diag. cbn [nth].
        rewrite byte_of_Z_testbit by lia. apply Hpend. exact Hj.
      * rewrite app_nth1 by lia. rewrite Hks by lia. apply Hbuf; lia.
    + intros j Hj. rewrite Z.testbit_0_l.
      symmetry. apply nth_overflow. lia.
  - apply Nat.eqb_neq in E. unfold written; cbn [buffer current_byte bit_count].
    split; [lia|]. split; [lia|]. split; [reflexivity|].
    split; [exact Hlen|]. split.
    + intros k j Hk Hj. rewrite Hks by lia. apply Hbuf; lia.
    + intros j Hj. apply Hpend. exact Hj.
Qed.

Lemma written_all (B : list bool) :
  exists q r, written B (WriteAll B init) q r.
Proof.
  unfold WriteAll.
  induction B as [|b B IH] using rev_ind.
  - exists 0, 0. apply written_init.
  - destruct IH as (q & r & Hw).
    rewrite fold_left_app. simpl.
    eexists. eexists. apply (written_step _ _ _ _ b Hw).
Qed.

(** After [Flush]: every byte of the buffer is described. *)
Lemma flushed (B : list bool) :
  let bytes := GetData (Flush (WriteAll B init)) in
  length B <= 8 * length bytes
  /\ 8 * length bytes < length B + 8
  /\ forall k j, k < length bytes -> j < 8 ->
       Z.testbit (byte_to_Z (nth k bytes x00)) (Z.of_nat (7 - j))
       = nth (8 * k + j) B false.
Proof.
  destruct (written_all B) as (q & r & HB & Hr & Hbc & Hlen & Hbuf & Hcb).
  unfold GetData, Flush. rewrite Hbc.
  destruct (Nat.ltb 0 r) eqn:E; cbn [buffer].
  - apply Nat.ltb_lt in E.
    assert (Hl : length (buffer (WriteAll B init)
                         ++ [byte_of_Z (current_byte (WriteAll B init))]) = S q)
      by (rewrite length_app; cbn [length]; lia).
    rewrite Hl.
    split; [lia|]. split; [lia|].
    intros k j Hk Hj.
    destruct (Nat.eq_dec k q) as [->|Hne].
    + rewrite app_nth2 by lia. rewrite Hlen, Nat.sub_diag. cbn [nth].
      rewrite byte_of_Z_testbit by lia. apply Hcb. exact Hj.
    + rewrite app_nth1 by lia. apply Hbuf; lia.
  - apply Nat.ltb_ge in E. rewrite Hlen.
    split; [lia|]. split; [lia|].
    intros k j Hk Hj. apply Hbuf; lia.
Qed.

End BitOrder.

Section BitRead.

Import BitReader.

Variable B : list bool.
Variable bytes : list byte.
Hypothesis Hbits : forall k j, k < length bytes -> j < 8 ->
    Z.testbit (byte_to_Z (nth k bytes x00)) (Z.of_nat (7 - j))
    = nth (8 * k + j) B false.

Lemma ReadBit_in_range (k j : nat) :
  k < length bytes -> j < 8 ->
  ReadBit (mk bytes k j)
  = (nth (8 * k + j) B false,
     if Nat.eqb (S j) 8 then mk bytes (S k) 0 else mk bytes k (S j)).
Proof.
  intros Hk Hj. unfold ReadBit. cbn [data byte_index bit_index].
  replace (Nat.leb (length bytes) k) with false
    by (symmetry; apply Nat.leb_gt; exact Hk).
  rewrite land1_testbit.
  replace (7 - Z.of_nat j)%Z with (Z.of_nat (7 - j)) by lia.
  rewrite Hbits by assumption.
  destruct (Nat.eqb (S j) 8); reflexivity.
Qed.

Lemma firstn_skipn_S (A : Type) (l : list A) (p n : nat) (d : A) :
  p < length l ->
  firstn (S n) (skipn p l) = nth p l d :: firstn n (skipn (S p) l).
Proof.
  revert p. induction l as [|a l IH]; intros p Hp; simpl in Hp; [lia|].
  destruct p as [|p].
  - reflexivity.
  - simpl skipn. simpl nth. apply IH. lia.
Qed.

Lemma ReadMany_in_range (n k j : nat) :
  j < 8 -> 8 * k + j + n <= length B -> length B <= 8 * length bytes ->
  fst (ReadMany n (mk bytes k j)) = firstn n (skipn (8 * k + j) B).
Proof.
  revert k j. induction n as [|n IH]; intros k j Hj Hn Hlen.
  - reflexivity.
  - cbn [ReadMany]. rewrite ReadBit_in_range by lia.
    rewrite (firstn_skipn_S _ _ _ n false) by lia.
    destruct (Nat.eqb (S j) 8) eqn:E.
    + apply Nat.eqb_eq in E.
      specialize (IH (S k) 0).
      destruct (ReadMany n (mk bytes (S k) 0)) as [bs r2]. cbn [fst] in *.
      rewrite IH by lia. do 3 f_equal. lia.
    + apply Nat.eqb_neq in E.
      specialize (IH k (S j)).
      destruct (ReadMany n (mk bytes k (S j))) as [bs r2]. cbn [fst] in *.
      rewrite IH by lia. do 3 f_equal. lia.
Qed.

End BitRead.

(** C7.  Bit order: the bits written with [WriteBit] and flushed are read
    back unchanged by [ReadBit]; the bytes produced are the bits packed
    MSB-first (bit [8k + j] of the sequence is bit [7 - j] of byte [k]),
    there are [ceil(|B| / 8)] of them, and the bits of the last byte that
    no bit of the sequence reaches are zero. *)
Theorem bit_order (B : list bool) :
  let bytes := BitWriter.GetData (BitWriter.Flush (BitWriter.WriteAll B BitWriter.init)) in
  fst (BitReader.ReadMany (length B) (BitReader.init bytes)) = B
  /\ length bytes = (length B + 7) / 8
  /\ forall k j, k < length bytes -> j < 8 ->
       Z.testbit (byte_to_Z (nth k bytes x00)) (Z.of_nat (7 - j))
       = nth (8 * k + j) B false.
Proof.
  intros bytes. destruct (flushed B) as (Hlo & Hhi & Hbits). fold bytes in Hlo, Hhi, Hbits.
  split; [|split].
  - unfold BitReader.init.
    rewrite (ReadMany_in_range B bytes Hbits (length B) 0 0) by lia.
    cbn [Nat.mul Nat.add skipn]. apply firstn_all.
  - apply Nat.div_unique with (r := length B + 7 - 8 * length bytes); lia.
  - exact Hbits.
Qed.

(** ** Arrays and sums *)

Lemma length_upd {A : Type} (i : nat) (v : A) (l : list A) :
  length (upd i v l) = length l.
Proof.
  revert i. induction l as [|a l IH]; intros [|i]; cbn [upd length]; auto.
Qed.

Lemma nth_upd_eq {A : Type} (i : nat) (v d : A) (l : list A) :
  i < length l -> nth i (upd i v l) d = v.
Proof.
  revert i. induction l as [|a l IH]; intros [|i] Hi; cbn [upd nth length] in *;
    try lia; auto. apply IH. lia.
Qed.

Lemma nth_upd_neq {A : Type} (i j : nat) (v d : A) (l : list A) :
  i <> j -> nth j (upd i v l) d = nth j l d.
Proof.
  revert i j. induction l as [|a l IH]; intros [|i] [|j] Hij; cbn [upd nth];
    try reflexivity; try lia. apply IH. lia.
Qed.

Lemma Zsum_upd (i : nat) (v : Z) (l : list Z) :
  i < length l -> Zsum (upd i v l) = (Zsum l - nth i l 0 + v)%Z.
Proof.
  revert i. induction l as [|a l IH]; intros [|i] Hi; cbn [upd nth length Zsum fold_right] in *;
    try lia.
  fold (Zsum l). fold (Zsum (upd i v l)). rewrite IH by lia. lia.
Qed.

Lemma Zsum_app (a b : list Z) : Zsum (a ++ b) = (Zsum a + Zsum b)%Z.
Proof.
  induction a as [|x a IH]; cbn [app Zsum fold_right]; [reflexivity|].
  fold (Zsum (a ++ b)). fold (Zsum a). lia.
Qed.

Lemma Zsum_nonneg (l : list Z) :
  (forall i, 0 <= nth i l 0)%Z -> (0 <= Zsum l)%Z.
Proof.
  induction l as [|a l IH]; intros H; cbn [Zsum fold_right]; [lia|].
  fold (Zsum l).
  pose proof (H 0) as H0. cbn [nth] in H0.
  assert (0 <= Zsum l)%Z by (apply IH; intros i; apply (H (S i))). lia.
Qed.

Lemma nth_le_Zsum (l : list Z) (i : nat) :
  (forall j, 0 <= nth j l 0)%Z -> (nth i l 0 <= Zsum l)%Z.
Proof.
  revert i. induction l as [|a l IH]; intros i H.
  - destruct i; cbn; lia.
  - cbn [Zsum fold_right]. fold (Zsum l).
    pose proof (H 0) as H0. cbn [nth] in H0.
    assert (Hl : forall j, (0 <= nth j l 0)%Z) by (intros j; apply (H (S j))).
    pose proof (Zsum_nonneg l Hl).
    destruct i as [|i]; cbn [nth]; [lia|].
    specialize (IH i Hl). lia.
Qed.

Lemma Zsum_firstn_le (l : list Z) (i : nat) :
  (forall j, 0 <= nth j l 0)%Z -> (0 <= Zsum (firstn i l) <= Zsum l)%Z.
Proof.
  revert i. induction l as [|a l IH]; intros i H.
  - destruct i; cbn; lia.
  - pose proof (H 0) as H0. cbn [nth] in H0.
    assert (Hl : forall j, (0 <= nth j l 0)%Z) by (intros j; apply (H (S j))).
    pose proof (Zsum_nonneg l Hl).
    destruct i as [|i]; cbn [firstn Zsum fold_right].
    + fold (Zsum l). lia.
    + fold (Zsum l). fold (Zsum (firstn i l)). specialize (IH i Hl). lia.
Qed.

Lemma Zsum_firstn_S (l : list Z) (i : nat) :
  i < length l -> Zsum (firstn (S i) l) = (Zsum (firstn i l) + nth i l 0)%Z.
Proof.
  revert i. induction l as [|a l IH]; intros i Hi; cbn [length] in Hi; [lia|].
  destruct i as [|i].
  - cbn. lia.
  - change (firstn (S (S i)) (a :: l)) with (a :: firstn (S i) l).
    change (firstn (S i) (a :: l)) with (a :: firstn i l).
    cbn [Zsum fold_right nth]. fold (Zsum (firstn (S i) l)). fold (Zsum (firstn i l)).
    rewrite IH by lia. lia.
Qed.

Lemma u32_small (x : Z) : (0 <= x < 4294967296)%Z -> u32 x = x.
Proof. intros H. unfold u32. apply Z.mod_small. exact H. Qed.

Lemma u32_range (x : Z) : (0 <= u32 x < 4294967296)%Z.
Proof. unfold u32. apply Z.mod_pos_bound. lia. Qed.

(** [cum_freqs[i]] is the sum of the first [i] frequencies, as long as
    the total fits 32 bits. *)
Lemma nth_prefix_sums (fs : list Z) (acc : Z) (i : nat) :
  (forall j, 0 <= nth j fs 0)%Z -> (0 <= acc)%Z ->
  (acc + Zsum fs < 4294967296)%Z ->
  i <= length fs ->
  nth i (prefix_sums acc fs) 0%Z = (acc + Zsum (firstn i fs))%Z.
Proof.
  revert acc i. induction fs as [|f fs IH]; intros acc i Hnn Hacc Hsum Hi.
  - cbn [length] in Hi. replace i with 0 by lia. cbn. lia.
  - pose proof (Hnn 0) as H0. cbn [nth] in H0.
    assert (Hl : forall j, (0 <= nth j fs 0)%Z) by (intros j; apply (Hnn (S j))).
    pose proof (Zsum_nonneg fs Hl) as Hs.
    cbn [Zsum fold_right] in Hsum. fold (Zsum fs) in Hsum.
    destruct i as [|i]; cbn [prefix_sums nth firstn Zsum fold_right].
    + lia.
    + fold (Zsum (firstn i fs)).
      rewrite u32_small by lia.
      rewrite IH; try assumption; try lia.
      cbn [length] in Hi. lia.
Qed.

Lemma length_prefix_sums (fs : list Z) (acc : Z) :
  length (prefix_sums acc fs) = S (length fs).
Proof.
  revert acc. induction fs as [|f fs IH]; intros acc; cbn [prefix_sums length];
    [reflexivity|]. rewrite IH. reflexivity.
Qed.

Lemma Zlist_eqb_eq (a b : list Z) : Zlist_eqb a b = true -> a = b.
Proof.
  revert b. induction a as [|x a IH]; intros [|y b] H; cbn [Zlist_eqb] in H;
    try discriminate; [reflexivity|].
  apply andb_true_iff in H. destruct H as [H1 H2].
  apply Z.eqb_eq in H1. apply IH in H2. congruence.
Qed.

Lemma Zlist_eqb_refl (a : list Z) : Zlist_eqb a a = true.
Proof.
  induction a as [|x a IH]; cbn [Zlist_eqb]; [reflexivity|].
  rewrite Z.eqb_refl, IH. reflexivity.
Qed.

Lemma forallb_nth_nonneg (l : list Z) :
  forallb (fun f => Z.leb 0 f) l = true -> forall i, (0 <= nth i l 0)%Z.
Proof.
  intros H i. rewrite forallb_forall in H.
  destruct (Nat.lt_ge_cases i (length l)) as [Hi|Hi].
  - apply Z.leb_le. apply H. apply nth_In. exact Hi.
  - rewrite nth_overflow by exact Hi. lia.
Qed.

Lemma nth_nonneg_forallb (l : list Z) :
  (forall i, (0 <= nth i l 0)%Z) -> forallb (fun f => Z.leb 0 f) l = true.
Proof.
  intros H. apply forallb_forall. intros x Hx.
  destruct (In_nth l x 0%Z Hx) as (i & _ & <-). apply Z.leb_le. apply H.
Qed.

(** What a valid model gives for one symbol. *)
Lemma model_ok_symbol (st : SymbolStats) (i : nat) :
  model_ok st -> i < 256 ->
  (0 <= nth i (freqs st) 0
   /\ 0 <= nth i (cum_freqs st) 0
   /\ nth (S i) (cum_freqs st) 0 = nth i (cum_freqs st) 0 + nth i (freqs st) 0
   /\ nth (S i) (cum_freqs st) 0 <= PROB_SCALE)%Z.
Proof.
  unfold model_ok, model_okb. intros H Hi.
  apply andb_true_iff in H. destruct H as [H Hcum].
  apply andb_true_iff in H. destruct H as [H Hsum].
  apply andb_true_iff in H. destruct H as [Hlen Hnn].
  apply Nat.eqb_eq in Hlen. apply Z.eqb_eq in Hsum.
  apply Zlist_eqb_eq in Hcum.
  pose proof (forallb_nth_nonneg _ Hnn) as Hnn'.
  assert (Hps : (PROB_SCALE = 4096)%Z) by reflexivity.
  rewrite Hcum.
  rewrite !nth_prefix_sums by (try assumption; lia).
  rewrite Zsum_firstn_S by lia.
  pose proof (Zsum_firstn_le (freqs st) i Hnn').
  pose proof (Zsum_firstn_le (freqs st) (S i) Hnn') as HS.
  rewrite Zsum_firstn_S in HS by lia.
  specialize (Hnn' i). lia.
Qed.

(** ** rANS encoder: renormalisation and the state interval *)

Section RenormOut.
Local Open Scope Z_scope.

Variable x_max : Z.

(** With [n + 1] rounds of fuel the loop exits on every state below
    [x_max * 256^n]; it pushes one byte per shift, and no more shifts
    than the size of the state asks for. *)
Lemma renorm_out_exits (n : nat) (state : Z) (buffer : list byte) :
  0 <= state < x_max * 256 ^ Z.of_nat n ->
  exists state' buffer',
    renorm_out (S n) x_max state buffer = Some (state', buffer')
    /\ 0 <= state' < x_max
    /\ (state' = state /\ buffer' = buffer
        \/ x_max <= state /\ x_max <= 256 * state' + 255)
    /\ (forall k : nat, state < x_max * 256 ^ Z.of_nat k ->
          (length buffer' <= length buffer + k)%nat).
Proof.
  revert state buffer. induction n as [|n IH]; intros state buffer Hs.
  - change (256 ^ Z.of_nat 0) with 1 in Hs.
    cbn [renorm_out]. replace (x_max <=? state) with false
      by (symmetry; apply Z.leb_gt; lia).
    exists state, buffer. repeat split; try lia. left. split; reflexivity.
  - cbn [renorm_out]. destruct (x_max <=? state) eqn:E.
    + apply Z.leb_le in E.
      rewrite Nat2Z.inj_succ, Z.pow_succ_r in Hs by lia.
      rewrite Z.shiftr_div_pow2 by lia. change (2 ^ 8) with 256.
      assert (Hd : 0 <= state / 256 < x_max * 256 ^ Z.of_nat n).
      { split; [apply Z.div_pos; lia|].
        apply Z.div_lt_upper_bound; lia. }
      destruct (IH (state / 256) (buffer ++ [byte_of_Z (Z.land state 255)]) Hd)
        as (s' & b' & Hr & Hlt & Hcase & Hlen).
      exists s', b'. split; [exact Hr|]. split; [exact Hlt|]. split.
      * right. split; [exact E|].
        pose proof (Z.div_mod state 256 ltac:(lia)) as Hdm.
        pose proof (Z.mod_pos_bound state 256 ltac:(lia)) as Hm.
        destruct Hcase as [[-> _]|[Hge Hge']]; lia.
      * intros k Hk. destruct k as [|k].
        { change (256 ^ Z.of_nat 0) with 1 in Hk. lia. }
        rewrite Nat2Z.inj_succ, Z.pow_succ_r in Hk by lia.
        assert (Hk' : state / 256 < x_max * 256 ^ Z.of_nat k)
          by (apply Z.div_lt_upper_bound; lia).
        specialize (Hlen k Hk'). rewrite length_app in Hlen. cbn [length] in Hlen. lia.
    + apply Z.leb_gt in E.
      exists state, buffer. repeat split; try lia. left. split; reflexivity.
Qed.

End RenormOut.

Section EncodeStep.
Local Open Scope Z_scope.

(** One [Encode] on a symbol of frequency [f >= 1] whose slot range
    [[c, c + f)] lies within the scale: it returns, the state stays in
    [[RANS_L, 2^31)], and at most two bytes are pushed when the state
    was below [2^31]. *)
Lemma Encode_step (e : RansEncoderImpl) (s : byte) :
  let f := nth (byte_to_nat s) (freqs (enc_stats e)) 0 in
  let c := nth (byte_to_nat s) (cum_freqs (enc_stats e)) 0 in
  1 <= f -> 0 <= c -> c + f <= PROB_SCALE ->
  RANS_L <= enc_state e < 4294967296 ->
  exists e',
    Encode s e = Some e'
    /\ RANS_L <= enc_state e' < 2147483648
    /\ enc_stats e' = enc_stats e
    /\ (enc_state e < 2147483648 ->
        (length (enc_buffer e') <= length (enc_buffer e) + 2)%nat).
Proof.
  intros f c Hf Hc Hcf Hst.
  change PROB_SCALE with 4096 in Hcf. change RANS_L with 65536 in Hst.
  unfold Encode. fold f. fold c.
  change (Z.shiftl 1 (31 - PROB_BITS)) with 524288.
  rewrite (u32_small (524288 * f)) by lia.
  destruct (renorm_out_exits (524288 * f) 4 (enc_state e) (enc_buffer e))
    as (st & buf & Hr & Hlt & Hcase & Hlen).
  { change (256 ^ Z.of_nat 4) with 4294967296. lia. }
  rewrite Hr.
  replace (f =? 0) with false by (symmetry; apply Z.eqb_neq; lia).
  eexists. split; [reflexivity|]. cbn [enc_state enc_stats enc_buffer].
  rewrite Z.shiftl_mul_pow2 by (unfold PROB_BITS; lia).
  change (2 ^ PROB_BITS) with 4096.
  assert (Hq_hi : st / f < 524288) by (apply Z.div_lt_upper_bound; lia).
  assert (Hq_lo : 16 <= st / f).
  { apply Z.div_le_lower_bound; [lia|].
    destruct Hcase as [[-> _]|[_ Hge]]; lia. }
  pose proof (Z.mod_pos_bound st f ltac:(lia)) as Hm.
  rewrite (u32_small (st / f * 4096)) by lia.
  rewrite u32_small by lia.
  change RANS_L with 65536.
  split; [lia|]. split; [reflexivity|].
  intros Hsmall. apply (Hlen 2%nat).
  change (256 ^ Z.of_nat 2) with 65536. lia.
Qed.

(** [Encode] returns whenever the renormalisation bound is not zero:
    fuel plays no part in its result on a 32-bit state. *)
Lemma Encode_returns (e : RansEncoderImpl) (s : byte) :
  0 <= enc_state e < 4294967296 ->
  u32 (Z.shiftl 1 (31 - PROB_BITS) * nth (byte_to_nat s) (freqs (enc_stats e)) 0) <> 0 ->
  exists e', Encode s e = Some e'.
Proof.
  intros Hst Hx. unfold Encode.
  set (f := nth (byte_to_nat s) (freqs (enc_stats e)) 0) in *.
  pose proof (u32_range (Z.shiftl 1 (31 - PROB_BITS) * f)) as Hr.
  destruct (renorm_out_exits (u32 (Z.shiftl 1 (31 - PROB_BITS) * f)) 4
              (enc_state e) (enc_buffer e)) as (st & buf & Hres & _).
  { change (256 ^ Z.of_nat 4) with 4294967296. nia. }
  rewrite Hres.
  destruct (f =? 0) eqn:E.
  - apply Z.eqb_eq in E. rewrite E in Hx. exfalso. apply Hx. reflexivity.
  - eexists. reflexivity.
Qed.

(** With a zero bound the loop never exits, whatever the fuel. *)
Lemma renorm_out_diverges (fuel : nat) :
  forall state buffer, 0 <= state -> renorm_out fuel 0 state buffer = None.
Proof.
  induction fuel as [|fuel IH]; intros state buffer Hs; cbn [renorm_out].
  - reflexivity.
  - replace (0 <=? state) with true by (symmetry; apply Z.leb_le; exact Hs).
    apply IH. rewrite Z.shiftr_div_pow2 by lia. apply Z.div_pos; lia.
Qed.

End EncodeStep.

(** ** rANS decoder: renormalisation *)

Lemma renorm_in_exit (data : list byte) (p : nat) (state : Z) :
  let r := renorm_in data p state in
  snd r <= p /\ (0 < snd r -> (RANS_L <= fst r)%Z).
Proof.
  revert state. induction p as [|p IH]; intros state; cbn [renorm_in].
  - cbn [fst snd]. split; lia.
  - destruct (state <? RANS_L)%Z eqn:E.
    + specialize (IH (Z.lor (u32 (Z.shiftl state 8)) (byte_to_Z (nth p data x00)))).
      cbv zeta in IH. destruct IH as [IH1 IH2]. split; [lia|exact IH2].
    + apply Z.ltb_ge in E. cbn [fst snd]. split; [lia|]. intros _. exact E.
Qed.

(** C4, as the code has it.  rANS invariants.  Two parts hold: for a
    symbol of frequency at least 1 in a valid model, [Encode] from a
    state in [[RANS_L, 2^32)] returns and leaves the state in
    [[RANS_L, 2^32)]; and [Decode] never moves [ptr] up.  The third
    does not: the decoder's state does not stay at [RANS_L] or above
    while symbols remain.  Take the model of [skewed] (frequency 3841
    for [0x00]), encode 200 symbols [0x00] from [RANS_L], flush, and
    build the decoder on the output: after 63 of the 200 calls of
    [Decode] its state is 28 and [ptr] is 0, so nothing is left to
    refill it with 137 symbols still to come. *)
Theorem decoder_state_falls_below_RANS_L (uninit : SymbolStats) :
  (forall e s,
      model_ok (enc_stats e) ->
      (1 <= nth (byte_to_nat s) (freqs (enc_stats e)) 0)%Z ->
      (RANS_L <= enc_state e < 2 ^ 32)%Z ->
      exists e', Encode s e = Some e'
                 /\ (RANS_L <= enc_state e' < 2 ^ 32)%Z)
  /\ (forall d, ptr (snd (Decode d)) <= ptr d)
  /\ exists e,
       model_ok (enc_stats skewed_encoder)
       /\ nth (byte_to_nat x00) (freqs (enc_stats skewed_encoder)) 0%Z = 3841%Z
       /\ enc_state skewed_encoder = RANS_L
       /\ EncodeAll (repeat x00 200) skewed_encoder = Some e
       /\ 63 < length (repeat x00 200)
       /\ (let d := snd (DecodeMany 63
                           (Dec_Init (GetModelData (Enc_Flush e))
                              (Dec_new uninit (GetOutput (Enc_Flush e))))) in
           dec_state d = 28%Z /\ ptr d = 0 /\ (dec_state d < RANS_L)%Z).
Proof.
  split; [|split].
  - intros e s Hm Hf Hst.
    assert (Hi : byte_to_nat s < 256)
      by (unfold byte_to_nat; pose proof (Byte.to_nat_bounded s); lia).
    destruct (model_ok_symbol _ _ Hm Hi) as (_ & Hc & Hnext & Hle).
    destruct (Encode_step e s Hf Hc) as (e' & He & Hr & _).
    + rewrite <- Hnext. exact Hle.
    + change (2 ^ 32)%Z with 4294967296%Z in Hst. exact Hst.
    + exists e'. split; [exact He|].
      change (2 ^ 32)%Z with 4294967296%Z. lia.
  - intros d. unfold Decode.
    match goal with
    | |- context [renorm_in ?a ?b ?c] =>
        pose proof (renorm_in_exit a b c) as H; cbv zeta in H;
        destruct (renorm_in a b c) as [st p]
    end.
    cbn [fst snd ptr] in *. apply H.
  - exists (match EncodeAll (repeat x00 200) skewed_encoder with
            | Some e => e
            | None => enc_impl0
            end).
    split; [vm_compute; reflexivity|].
    split; [vm_compute; reflexivity|].
    split; [vm_compute; reflexivity|].
    split; [vm_compute; reflexivity|].
    split; [apply Nat.ltb_lt; vm_compute; reflexivity|].
    cbv zeta.
    split; [vm_compute; reflexivity|].
    split; [vm_compute; reflexivity|].
    apply Z.ltb_lt. vm_compute. reflexivity.
Qed.

(** ** SymbolStats::Count *)

Lemma byte_to_nat_lt (b : byte) : byte_to_nat b < 256.
Proof. unfold byte_to_nat. pose proof (Byte.to_nat_bounded b). lia. Qed.

Section CountProofs.
Local Open Scope Z_scope.

(** The histogram: no counter wraps while fewer than [2^32] bytes have
    been counted, and a byte that occurs is counted at least once. *)
Lemma tally_spec (data : list byte) :
  forall (fs : list Z) (k : Z),
    length fs = 256%nat ->
    (forall i, 0 <= nth i fs 0 <= k) ->
    k + Z.of_nat (length data) < 4294967296 ->
    length (tally data fs) = 256%nat
    /\ (forall i, nth i fs 0 <= nth i (tally data fs) 0 <= k + Z.of_nat (length data))
    /\ (forall b, In b data -> 1 <= nth (byte_to_nat b) (tally data fs) 0).
Proof.
  induction data as [|b rest IH]; intros fs k Hlen Hfs Hk.
  - cbn [tally length]. split; [exact Hlen|]. split.
    + intros i. specialize (Hfs i). cbn. lia.
    + intros b [].
  - cbn [tally]. cbn [length] in Hk. rewrite Nat2Z.inj_succ in Hk.
    pose proof (byte_to_nat_lt b) as Hb.
    set (i0 := byte_to_nat b) in *.
    assert (Hv : u32 (nth i0 fs 0 + 1) = nth i0 fs 0 + 1)
      by (apply u32_small; specialize (Hfs i0); lia).
    rewrite Hv.
    set (fs1 := upd i0 (nth i0 fs 0 + 1) fs).
    assert (Hfs1 : forall i, nth i fs 0 <= nth i fs1 0 <= k + 1).
    { intros i. unfold fs1. destruct (Nat.eq_dec i0 i) as [<-|Hne].
      - rewrite nth_upd_eq by lia. specialize (Hfs i0). lia.
      - rewrite nth_upd_neq by exact Hne. specialize (Hfs i). lia. }
    assert (Hlen1 : length fs1 = 256%nat) by (unfold fs1; rewrite length_upd; exact Hlen).
    destruct (IH fs1 (k + 1) Hlen1) as (HL & Hmono & Hin).
    { intros i. specialize (Hfs i). specialize (Hfs1 i). lia. }
    { lia. }
    split; [exact HL|]. split.
    + intros i. specialize (Hmono i). specialize (Hfs1 i).
      cbn [length]. rewrite Nat2Z.inj_succ. lia.
    + intros b' [<-|Hb'].
      * fold i0. specialize (Hmono i0).
        assert (nth i0 fs1 0 = nth i0 fs 0 + 1)
          by (unfold fs1; apply nth_upd_eq; lia).
        specialize (Hfs i0). lia.
      * apply Hin. exact Hb'.
Qed.

Lemma scale_one_spec (total f : Z) :
  0 < total -> 0 <= f <= total -> total < 4294967296 ->
  0 <= scale_one total f <= 4096
  /\ (f = 0 -> scale_one total f = 0)
  /\ (1 <= f -> 1 <= scale_one total f).
Proof.
  intros Ht Hf Hw. unfold scale_one. change PROB_SCALE with 4096.
  destruct (0 <? f) eqn:E.
  - apply Z.ltb_lt in E.
    unfold u64. rewrite (Z.mod_small (f * 4096)) by lia.
    assert (Hq : 0 <= f * 4096 / total <= 4096).
    { split.
      - apply Z.div_pos; lia.
      - apply Z.div_le_upper_bound; lia. }
    destruct (f * 4096 / total =? 0) eqn:E0.
    + rewrite u32_small by lia. lia.
    + apply Z.eqb_neq in E0. rewrite u32_small by lia. lia.
  - apply Z.ltb_ge in E. lia.
Qed.

Lemma scale_all_spec (total : Z) (fs : list Z) :
  total < 4294967296 ->
  forall t,
    0 < total -> (forall i, 0 <= nth i fs 0 <= total) ->
    0 <= t -> t + 4096 * Z.of_nat (length fs) < 4294967296 ->
    length (fst (scale_all total fs t)) = length fs
    /\ snd (scale_all total fs t) = t + Zsum (fst (scale_all total fs t))
    /\ (forall i, 0 <= nth i (fst (scale_all total fs t)) 0 <= 4096)
    /\ (forall i, 1 <= nth i fs 0 -> 1 <= nth i (fst (scale_all total fs t)) 0).
Proof.
  intros Hw. induction fs as [|f fs IH]; intros t Ht Hfs Ht0 Hbound.
  - cbn. repeat split; try lia; destruct i; lia.
  - cbn [scale_all].
    pose proof (Hfs 0%nat) as Hf. cbn [nth] in Hf.
    destruct (scale_one_spec total f Ht Hf Hw) as (Hr & _ & Hpos).
    cbn [length] in Hbound. rewrite Nat2Z.inj_succ in Hbound.
    rewrite (u32_small (t + scale_one total f)) by lia.
    specialize (IH (t + scale_one total f) Ht (fun i => Hfs (S i))).
    destruct (scale_all total fs (t + scale_one total f)) as [rest' t'].
    cbn [fst snd] in *.
    destruct IH as (HL & HT & HR & HP); try lia.
    cbn [length Zsum fold_right]. fold (Zsum rest').
    split; [lia|]. split; [lia|]. split.
    + intros [|i]; cbn [nth]; [lia|apply HR].
    + intros [|i]; cbn [nth]; [exact Hpos|apply HP].
Qed.

Lemma exists_gt1 (fs : list Z) :
  (forall i, 0 <= nth i fs 0) -> Z.of_nat (length fs) < Zsum fs ->
  exists j, (j < length fs)%nat /\ 1 < nth j fs 0.
Proof.
  induction fs as [|a l IH]; intros Hnn Hs.
  - cbn in Hs. lia.
  - cbn [length Zsum fold_right] in Hs. fold (Zsum l) in Hs.
    rewrite Nat2Z.inj_succ in Hs.
    destruct (Z_lt_dec 1 a) as [Ha|Ha].
    + exists 0%nat. cbn [length nth]. split; [lia|exact Ha].
    + destruct IH as (j & Hj & Hgt).
      * intros i. apply (Hnn (S i)).
      * lia.
      * exists (S j). cbn [length nth]. split; [lia|exact Hgt].
Qed.

Lemma adjust_down_dec (T : Z) (fuel i : nat) (fs : list Z) :
  PROB_SCALE < T -> adj_inv fs T -> (i < 256)%nat -> 1 < nth i fs 0 ->
  adjust_down (S fuel) fs T i
  = adjust_down fuel (upd i (nth i fs 0 - 1) fs) (T - 1) ((i + 1) mod 256)%nat
  /\ adj_inv (upd i (nth i fs 0 - 1) fs) (T - 1)
  /\ (forall j, 1 <= nth j fs 0 -> 1 <= nth j (upd i (nth i fs 0 - 1) fs) 0).
Proof.
  intros HT (Hlen & Hr & Hsum & Hlt) Hi Hgt. change PROB_SCALE with 4096 in HT.
  split; [|split].
  - cbn [adjust_down].
    replace (PROB_SCALE <? T) with true by (symmetry; apply Z.ltb_lt; exact HT).
    replace (1 <? nth i fs 0) with true by (symmetry; apply Z.ltb_lt; exact Hgt).
    rewrite (u32_small (nth i fs 0 - 1)) by (specialize (Hr i); lia).
    rewrite (u32_small (T - 1)) by lia. reflexivity.
  - unfold adj_inv. rewrite length_upd. split; [exact Hlen|]. split.
    + intros j. destruct (Nat.eq_dec i j) as [<-|Hne].
      * rewrite nth_upd_eq by lia. specialize (Hr i). lia.
      * rewrite nth_upd_neq by exact Hne. apply Hr.
    + split; [rewrite Zsum_upd by lia; lia|lia].
  - intros j Hj. destruct (Nat.eq_dec i j) as [<-|Hne].
    + rewrite nth_upd_eq by lia. lia.
    + rewrite nth_upd_neq by exact Hne. exact Hj.
Qed.

Lemma adjust_down_skip (T : Z) (fuel i : nat) (fs : list Z) :
  PROB_SCALE < T -> nth i fs 0 <= 1 ->
  adjust_down (S fuel) fs T i = adjust_down fuel fs T ((i + 1) mod 256)%nat.
Proof.
  intros HT Hle. cbn [adjust_down].
  replace (PROB_SCALE <? T) with true by (symmetry; apply Z.ltb_lt; exact HT).
  replace (1 <? nth i fs 0) with false by (symmetry; apply Z.ltb_ge; exact Hle).
  reflexivity.
Qed.

(** From index [i], the loop reaches the next entry above 1 within
    [k + 1] rounds, when there is one [k] places ahead (cyclically), and
    decrements it. *)
Lemma adjust_down_reach (T : Z) (fs : list Z) :
  PROB_SCALE < T -> adj_inv fs T ->
  forall (k i : nat),
    (i < 256)%nat ->
    1 < nth ((i + k) mod 256) fs 0 ->
    exists (used : nat) (fs' : list Z) (i' : nat),
      (used <= S k)%nat /\ (i' < 256)%nat
      /\ (forall fuel,
            adjust_down (used + fuel) fs T i = adjust_down fuel fs' (T - 1) i')
      /\ adj_inv fs' (T - 1)
      /\ (forall j, 1 <= nth j fs 0 -> 1 <= nth j fs' 0).
Proof.
  intros HT Hinv.
  assert (Hnow : forall i k, (i < 256)%nat -> 1 < nth i fs 0 ->
            exists (used : nat) (fs' : list Z) (i' : nat),
              (used <= S k)%nat /\ (i' < 256)%nat
              /\ (forall fuel,
                    adjust_down (used + fuel) fs T i = adjust_down fuel fs' (T - 1) i')
              /\ adj_inv fs' (T - 1)
              /\ (forall j, 1 <= nth j fs 0 -> 1 <= nth j fs' 0)).
  { intros i k Hi Hgt.
    exists 1%nat, (upd i (nth i fs 0 - 1) fs), ((i + 1) mod 256)%nat.
    split; [lia|]. split; [apply Nat.mod_upper_bound; lia|].
    split; [|apply (adjust_down_dec T 0 i fs HT Hinv Hi Hgt)].
    intros fuel. apply (adjust_down_dec T fuel i fs HT Hinv Hi Hgt). }
  induction k as [|k IH]; intros i Hi Hk.
  - rewrite Nat.add_0_r, Nat.mod_small in Hk by lia. apply Hnow; assumption.
  - destruct (Z_lt_dec 1 (nth i fs 0)) as [Hgt|Hle].
    + apply Hnow; assumption.
    + destruct (IH ((i + 1) mod 256)%nat) as (used & fs' & i' & Hu & Hi' & Heq & Hinv' & Hpres).
      * apply Nat.mod_upper_bound. lia.
      * rewrite Nat.Div0.add_mod_idemp_l.
        replace (i + 1 + k)%nat with (i + S k)%nat by lia. exact Hk.
      * exists (S used), fs', i'. split; [lia|]. split; [exact Hi'|].
        split; [|split; [exact Hinv'|exact Hpres]].
        intros fuel. cbn [Nat.add]. rewrite adjust_down_skip by (try assumption; lia).
        apply Heq.
Qed.

(** The decrement loop terminates: with more than [256 * n] rounds of
    fuel it returns, from a total [n] above the scale, a table of sum
    [PROB_SCALE] in which no entry that was at least 1 has dropped
    below 1. *)
Lemma adjust_down_terminates (n : nat) :
  forall (fs : list Z) (T : Z) (i fuel : nat),
    adj_inv fs T -> (i < 256)%nat ->
    T = PROB_SCALE + Z.of_nat n -> (256 * n < fuel)%nat ->
    exists fs2,
      adjust_down fuel fs T i = Some fs2
      /\ adj_inv fs2 PROB_SCALE
      /\ (forall j, 1 <= nth j fs 0 -> 1 <= nth j fs2 0).
Proof.
  induction n as [|n IH]; intros fs T i fuel Hinv Hi HT Hfuel.
  - destruct fuel as [|fuel]; [lia|]. cbn [adjust_down].
    replace (PROB_SCALE <? T) with false by (symmetry; apply Z.ltb_ge; lia).
    exists fs. split; [reflexivity|]. split.
    + replace PROB_SCALE with T by lia. exact Hinv.
    + intros j Hj. exact Hj.
  - assert (HgtT : PROB_SCALE < T) by lia.
    pose proof Hinv as (Hlen & Hr & Hsum & Hlt).
    destruct (exists_gt1 fs) as (j & Hj & Hgt).
    { intros k. apply Hr. }
    { rewrite Hlen, Hsum. change PROB_SCALE with 4096 in *. lia. }
    rewrite Hlen in Hj.
    assert (Hcyc : ((i + (j + 256 - i) mod 256) mod 256 = j)%nat).
    { rewrite Nat.Div0.add_mod_idemp_r.
      replace (i + (j + 256 - i))%nat with (j + 1 * 256)%nat by lia.
      rewrite Nat.Div0.mod_add. apply Nat.mod_small. exact Hj. }
    assert (Hkb : ((j + 256 - i) mod 256 < 256)%nat) by (apply Nat.mod_upper_bound; lia).
    destruct (adjust_down_reach T fs HgtT Hinv ((j + 256 - i) mod 256)%nat i Hi)
      as (used & fs1 & i1 & Hu & Hi1 & Heq & Hinv1 & Hpres).
    { rewrite Hcyc. exact Hgt. }
    destruct (IH fs1 (T - 1) i1 (fuel - used)%nat Hinv1 Hi1) as (fs2 & Hres & Hinv2 & Hpres2).
    { rewrite Nat2Z.inj_succ in HT. lia. }
    { lia. }
    exists fs2. split; [|split; [exact Hinv2|]].
    + replace fuel with (used + (fuel - used))%nat by lia.
      rewrite Heq. exact Hres.
    + intros m Hm. apply Hpres2. apply Hpres. exact Hm.
Qed.

Lemma Zsum_bound (fs : list Z) (c : Z) :
  (forall j, nth j fs 0 <= c) -> 0 <= c -> Zsum fs <= c * Z.of_nat (length fs).
Proof.
  intros H Hc. induction fs as [|a l IH].
  - cbn. lia.
  - cbn [Zsum fold_right length]. fold (Zsum l). rewrite Nat2Z.inj_succ.
    pose proof (H 0%nat) as Ha. cbn [nth] in Ha.
    assert (Zsum l <= c * Z.of_nat (length l)) by (apply IH; intros j; apply (H (S j))).
    lia.
Qed.

(** [Count] on a non-empty buffer of fewer than [2^32] bytes returns a
    valid model in which every byte of the buffer has a frequency of at
    least 1. *)
Lemma Count_spec (st0 : SymbolStats) (data : list byte) :
  data <> [] -> Z.of_nat (length data) < 4294967296 ->
  exists st,
    Count st0 data = Some st
    /\ model_ok st
    /\ length (freqs st) = 256%nat
    /\ Zsum (freqs st) = PROB_SCALE
    /\ nth 256 (cum_freqs st) 0 = PROB_SCALE
    /\ (forall b, In b data -> 1 <= nth (byte_to_nat b) (freqs st) 0).
Proof.
  intros Hne Hlen.
  assert (Hpos : 0 < Z.of_nat (length data)) by (destruct data; [congruence|cbn [length]; lia]).
  assert (Hz : forall i, nth i (repeat 0 256) 0 = 0).
  { intros i. destruct (Nat.lt_ge_cases i 256) as [Hi|Hi].
    - apply nth_repeat_lt. exact Hi.
    - apply nth_overflow. rewrite repeat_length. exact Hi. }
  destruct (tally_spec data (repeat 0 256) 0) as (HtL & HtR & HtIn).
  { apply repeat_length. }
  { intros i. rewrite Hz. lia. }
  { lia. }
  set (fs := tally data (repeat 0 256)) in *.
  assert (Hfs : forall i, 0 <= nth i fs 0 <= Z.of_nat (length data)).
  { intros i. specialize (HtR i). rewrite Hz in HtR. lia. }
  destruct (scale_all_spec (Z.of_nat (length data)) fs Hlen 0 Hpos Hfs) as (HsL & HsT & HsR & HsP).
  { lia. }
  { rewrite HtL. lia. }
  unfold Count. fold fs.
  replace (Z.of_nat (length data) =? 0) with false by (symmetry; apply Z.eqb_neq; lia).
  destruct (scale_all (Z.of_nat (length data)) fs 0) as [fs1 T] eqn:Escale.
  cbn [fst snd] in *. rewrite HtL in HsL.
  assert (HT : 0 <= T <= 4096 * 256).
  { pose proof (Zsum_bound fs1 4096 (fun j => proj2 (HsR j))) as Hb.
    rewrite HsL in Hb.
    pose proof (Zsum_nonneg fs1 (fun j => proj1 (HsR j))). lia. }
  assert (Hin1 : forall b, In b data -> 1 <= nth (byte_to_nat b) fs1 0).
  { intros b Hb. apply HsP. apply HtIn. exact Hb. }
  (* the three ways out of the adjustment *)
  assert (Hadj : exists fs2,
             (if T <? PROB_SCALE
              then Some (upd 0%nat (u32 (nth 0%nat fs1 0 + u32 (PROB_SCALE - T))) fs1)
              else if PROB_SCALE <? T
                   then adjust_down (adjust_fuel T) fs1 T 0%nat
                   else Some fs1) = Some fs2
             /\ length fs2 = 256%nat
             /\ (forall j, 0 <= nth j fs2 0)
             /\ Zsum fs2 = PROB_SCALE
             /\ (forall j, 1 <= nth j fs1 0 -> 1 <= nth j fs2 0)).
  { change PROB_SCALE with 4096.
    destruct (T <? 4096) eqn:E1; [|destruct (4096 <? T) eqn:E2].
    - apply Z.ltb_lt in E1.
      pose proof (HsR 0%nat) as H0.
      rewrite (u32_small (4096 - T)) by lia.
      rewrite u32_small by lia.
      eexists. split; [reflexivity|]. rewrite length_upd.
      split; [exact HsL|]. split; [|split].
      + intros j. destruct (Nat.eq_dec 0 j) as [<-|Hj].
        * rewrite nth_upd_eq by lia. lia.
        * rewrite nth_upd_neq by exact Hj. apply HsR.
      + rewrite Zsum_upd by lia. lia.
      + intros j Hj. destruct (Nat.eq_dec 0 j) as [<-|Hj'].
        * rewrite nth_upd_eq by lia. lia.
        * rewrite nth_upd_neq by exact Hj'. exact Hj.
    - apply Z.ltb_lt in E2.
      destruct (adjust_down_terminates (Z.to_nat (T - 4096)) fs1 T 0 (adjust_fuel T))
        as (fs2 & Hres & (HL2 & HR2 & HS2 & _) & Hpres).
      + unfold adj_inv. split; [exact HsL|]. split; [exact HsR|]. split; lia.
      + lia.
      + change PROB_SCALE with 4096. lia.
      + unfold adjust_fuel. change PROB_SCALE with 4096. lia.
      + exists fs2. split; [exact Hres|]. split; [exact HL2|]. split; [|split].
        * intros j. apply HR2.
        * exact HS2.
        * exact Hpres.
    - apply Z.ltb_ge in E1. apply Z.ltb_ge in E2.
      exists fs1. split; [reflexivity|]. split; [exact HsL|]. split; [|split].
      + intros j. apply HsR.
      + lia.
      + intros j Hj. exact Hj. }
  destruct Hadj as (fs2 & -> & HL2 & HR2 & HS2 & Hpres).
  eexists. split; [reflexivity|]. cbn [freqs cum_freqs].
  assert (Hps : PROB_SCALE = 4096) by reflexivity.
  split; [|split; [exact HL2|split; [exact HS2|split]]].
  - unfold model_ok, model_okb. cbn [freqs cum_freqs].
    rewrite HL2, HS2, Zlist_eqb_refl, (nth_nonneg_forallb fs2 HR2). reflexivity.
  - rewrite nth_prefix_sums; try assumption; try lia.
    rewrite <- HL2, firstn_all. lia.
  - intros b Hb. apply Hpres. apply Hin1. exact Hb.
Qed.

End CountProofs.

(** C3, as the code has it.  Model sum.  On a non-empty buffer of fewer
    than [2^32] bytes -- the range of the 32-bit counters of the
    histogram -- [Count] returns, so the decrement loop has terminated,
    with 256 frequencies of sum 4096, [cum_freqs[256] == PROB_SCALE],
    and a frequency of at least 1 for every byte that occurs in the
    buffer. *)
Theorem model_sum (st0 : SymbolStats) (data : list byte) :
  data <> [] -> (Z.of_nat (length data) < 2 ^ 32)%Z ->
  exists st,
    Count st0 data = Some st
    /\ length (freqs st) = 256
    /\ Zsum (freqs st) = 4096%Z
    /\ nth 256 (cum_freqs st) 0%Z = PROB_SCALE
    /\ (forall b, In b data -> (1 <= nth (byte_to_nat b) (freqs st) 0)%Z).
Proof.
  intros Hne Hlen.
  destruct (Count_spec st0 data Hne Hlen) as (st & Hc & _ & HL & HS & HC & HI).
  exists st. repeat split; assumption.
Qed.

(** ** The histogram past 32 bits *)

Lemma upd_upd {A : Type} (i : nat) (v w : A) (l : list A) :
  upd i w (upd i v l) = upd i w l.
Proof.
  revert i. induction l as [|a l IH]; intros [|i]; cbn [upd]; try reflexivity.
  rewrite IH. reflexivity.
Qed.

(** [n] occurrences of one byte add [n] to its counter, modulo [2^32]. *)
Lemma tally_repeat (b : byte) (n : nat) :
  forall fs,
    byte_to_nat b < length fs ->
    (0 <= nth (byte_to_nat b) fs 0 < 4294967296)%Z ->
    tally (repeat b n) fs
    = upd (byte_to_nat b) (u32 (nth (byte_to_nat b) fs 0%Z + Z.of_nat n)) fs.
Proof.
  induction n as [|n IH]; intros fs Hb Hr.
  - cbn [repeat tally]. rewrite Z.add_0_r, u32_small by exact Hr.
    clear Hr. revert Hb. generalize (byte_to_nat b) as i.
    induction fs as [|a l IHl]; intros [|i] Hi; cbn [upd nth length] in *;
      try reflexivity; try lia.
    rewrite <- IHl by lia. reflexivity.
  - cbn [repeat tally]. rewrite IH.
    + rewrite nth_upd_eq by exact Hb. rewrite upd_upd. f_equal.
      unfold u32. rewrite Zplus_mod_idemp_l. f_equal. lia.
    + rewrite length_upd. exact Hb.
    + rewrite nth_upd_eq by exact Hb. apply u32_range.
Qed.

Lemma Count_wraps (n : nat) :
  Z.of_nat n = 4294967296%Z ->
  Count zero_stats (repeat "001"%byte n)
  = Some (mkStats (upd 0 4096%Z (repeat 0%Z 256))
                  (prefix_sums 0 (upd 0 4096%Z (repeat 0%Z 256)))).
Proof.
  intros Hn. unfold Count.
  rewrite repeat_length, Hn.
  rewrite tally_repeat.
  - rewrite Hn. vm_compute. reflexivity.
  - vm_compute. lia.
  - vm_compute. split; [discriminate|reflexivity].
Qed.

Lemma Count_wraps_refutes (n : nat) :
  Z.of_nat n = 4294967296%Z ->
  repeat "001"%byte n <> []
  /\ ~ exists st,
         Count zero_stats (repeat "001"%byte n) = Some st
         /\ forall b, In b (repeat "001"%byte n) ->
                      (1 <= nth (byte_to_nat b) (freqs st) 0)%Z.
Proof.
  intros Hn.
  assert (Hin : In "001"%byte (repeat "001"%byte n)).
  { destruct n as [|n]; [discriminate|]. left. reflexivity. }
  split.
  - intros H. rewrite H in Hin. exact Hin.
  - intros (st & Hc & Hf).
    rewrite (Count_wraps n Hn) in Hc.
    apply (f_equal (fun o => match o with
                             | Some s => nth 1 (freqs s) 0%Z
                             | None => 0%Z
                             end)) in Hc.
    specialize (Hf "001"%byte Hin).
    change (byte_to_nat "001"%byte) with 1 in Hf.
    rewrite <- Hc in Hf. vm_compute in Hf. apply Hf. reflexivity.
Qed.

(** C3 as stated fails past the range of the counters: in a buffer of
    [2^32] bytes [0x01] the counter of that byte wraps to 0, [Count]
    gives the whole scale to symbol 0, and the byte that occurs has
    frequency 0. *)
Lemma model_sum_fails_at_4GiB :
  repeat "001"%byte (Z.to_nat 4294967296) <> []
  /\ ~ exists st,
         Count zero_stats (repeat "001"%byte (Z.to_nat 4294967296)) = Some st
         /\ forall b, In b (repeat "001"%byte (Z.to_nat 4294967296)) ->
                      (1 <= nth (byte_to_nat b) (freqs st) 0)%Z.
Proof.
  exact (Count_wraps_refutes (Z.to_nat 4294967296)
           (Z2Nat.id 4294967296 (Z.lt_le_incl 0 4294967296 eq_refl))).
Qed.

(** ** The LZ77 parser *)

Section ParserProofs.

Variable data : list byte.

Lemma match_length_bounds (pos limit i : nat) :
  forall rounds len,
    pos + len <= limit -> i + len <= pos ->
    len <= match_length data pos limit i len rounds
    /\ pos + match_length data pos limit i len rounds <= limit
    /\ i + match_length data pos limit i len rounds <= pos.
Proof.
  induction rounds as [|rounds IH]; intros len H1 H2; cbn [match_length].
  - lia.
  - destruct ((pos + len <? limit) && (i + len <? pos)
              && byte_eqb (nth (i + len) data x00) (nth (pos + len) data x00)) eqn:E.
    + apply andb_true_iff in E. destruct E as [E _].
      apply andb_true_iff in E. destruct E as [E1 E2].
      apply Nat.ltb_lt in E1. apply Nat.ltb_lt in E2.
      specialize (IH (S len)). lia.
    + lia.
Qed.

(** The rounds given to the inner loop never cut it short: where it
    stops, its condition is false. *)
Lemma match_length_exit (pos limit i : nat) :
  forall rounds len,
    pos - i <= len + rounds ->
    let r := match_length data pos limit i len rounds in
    (pos + r <? limit) && (i + r <? pos)
    && byte_eqb (nth (i + r) data x00) (nth (pos + r) data x00) = false.
Proof.
  induction rounds as [|rounds IH]; intros len Hr; cbn [match_length].
  - cbv zeta. replace (i + len <? pos) with false
      by (symmetry; apply Nat.ltb_ge; lia).
    rewrite andb_false_r. reflexivity.
  - destruct ((pos + len <? limit) && (i + len <? pos)
              && byte_eqb (nth (i + len) data x00) (nth (pos + len) data x00)) eqn:E.
    + apply IH. lia.
    + cbv zeta. exact E.
Qed.

Lemma search_candidate (pos limit lo : nat) :
  pos <= limit ->
  forall n i max_len best_dist,
    lo <= i -> i + n <= pos ->
    candidate pos limit lo (max_len, best_dist) ->
    candidate pos limit lo (search data pos limit i n max_len best_dist).
Proof.
  intros Hlim. induction n as [|n IH]; intros i max_len best_dist Hlo Hn Hc;
    cbn [search].
  - exact Hc.
  - destruct (match_length_bounds pos limit i (pos - i) 0) as (_ & Hb1 & Hb2); try lia.
    destruct (max_len <? match_length data pos limit i 0 (pos - i)) eqn:E.
    + apply Nat.ltb_lt in E. apply IH; try lia.
      right. cbn [fst snd]. lia.
    + apply IH; try lia. exact Hc.
Qed.

(** A match that [FindLongestMatch] reports with [length >= 3]. *)
Lemma FindLongestMatch_spec (pos : nat) :
  pos < length data ->
  let m := FindLongestMatch data pos WINDOW in
  3 <= Match.length m ->
  1 <= Match.distance m /\ Match.distance m <= WINDOW
  /\ Match.distance m <= pos
  /\ Match.length m <= 255
  /\ Match.length m <= Match.distance m
  /\ pos + Match.length m <= length data.
Proof.
  intros Hpos. unfold FindLongestMatch.
  set (limit := Nat.min (length data) (pos + 255)).
  set (lo := Nat.max 0 (pos - WINDOW)).
  assert (Hlim : pos <= limit) by (unfold limit; lia).
  assert (Hc : candidate pos limit lo (search data pos limit lo (pos - lo) 0 0)).
  { apply search_candidate; try lia. left. reflexivity. }
  destruct (search data pos limit lo (pos - lo) 0 0) as [max_len best_dist].
  cbv zeta.
  destruct (max_len <? 3) eqn:E; cbn [Match.length Match.distance]; [lia|].
  apply Nat.ltb_ge in E. intros _.
  destruct Hc as [Hc|Hc]; cbn [fst snd] in *; [lia|].
  unfold lo, limit in *. lia.
Qed.

End ParserProofs.

Lemma tokens_of_snoc_literal (flags : list bool) :
  forall lits ms b,
    aligned flags (length lits) (length ms) ->
    tokens_of (flags ++ [false]) (lits ++ [b]) ms
    = tokens_of flags lits ms ++ [Literal b]
    /\ aligned (flags ++ [false]) (length (lits ++ [b])) (length ms).
Proof.
  induction flags as [|f flags IH]; intros lits ms b Ha.
  - cbn [aligned] in Ha. destruct Ha as [Hl Hm].
    destruct lits; [|discriminate]. destruct ms; [|discriminate].
    cbn. auto.
  - destruct f; cbn [aligned] in Ha.
    + destruct ms as [|m ms]; cbn [length] in Ha; [contradiction|].
      destruct (IH lits ms b Ha) as [IH1 IH2].
      cbn [app tokens_of aligned length]. rewrite IH1. split; [reflexivity|exact IH2].
    + destruct lits as [|l lits]; cbn [length] in Ha; [contradiction|].
      destruct (IH lits ms b Ha) as [IH1 IH2].
      cbn [app tokens_of aligned length]. rewrite IH1. split; [reflexivity|exact IH2].
Qed.

Lemma tokens_of_snoc_match (flags : list bool) :
  forall lits ms m,
    aligned flags (length lits) (length ms) ->
    tokens_of (flags ++ [true]) lits (ms ++ [m])
    = tokens_of flags lits ms ++ [Copy m]
    /\ aligned (flags ++ [true]) (length lits) (length (ms ++ [m])).
Proof.
  induction flags as [|f flags IH]; intros lits ms m Ha.
  - cbn [aligned] in Ha. destruct Ha as [Hl Hm].
    destruct lits; [|discriminate]. destruct ms; [|discriminate].
    cbn. auto.
  - destruct f; cbn [aligned] in Ha.
    + destruct ms as [|m0 ms]; cbn [length] in Ha; [contradiction|].
      destruct (IH lits ms m Ha) as [IH1 IH2].
      cbn [app tokens_of aligned length]. rewrite IH1. split; [reflexivity|exact IH2].
    + destruct lits as [|l lits]; cbn [length] in Ha; [contradiction|].
      destruct (IH lits ms m Ha) as [IH1 IH2].
      cbn [app tokens_of aligned length]. rewrite IH1. split; [reflexivity|exact IH2].
Qed.

Lemma consumed_app (a b : list Token) : consumed (a ++ b) = consumed a + consumed b.
Proof.
  induction a as [|t a IH]; cbn [app consumed fold_right]; [reflexivity|].
  fold (consumed (a ++ b)). fold (consumed a). lia.
Qed.

Lemma tokens_ok_snoc (ts : list Token) (t : Token) :
  tokens_ok ts ->
  (forall m, t = Copy m -> match_ok (consumed ts) m) ->
  tokens_ok (ts ++ [t]).
Proof.
  intros Hts Ht pre m post Heq.
  destruct post as [|x post] using rev_ind.
  - apply app_inj_tail in Heq. destruct Heq as [-> ->]. apply Ht. reflexivity.
  - clear IHpost.
    change (pre ++ Copy m :: post ++ [x]) with (pre ++ (Copy m :: post) ++ [x]) in Heq.
    rewrite app_assoc in Heq.
    apply app_inj_tail in Heq. destruct Heq as [-> _].
    apply (Hts pre m post). reflexivity.
Qed.

Section ParseLoop.

Variable data : list byte.

Lemma parse_inv_init : parse_inv data 0 (mkParsed [] [] []).
Proof.
  unfold parse_inv, tokens, tokens_ok. cbn.
  split; [lia|]. split; [split; reflexivity|]. split; [reflexivity|].
  split; [|split; [|lia]].
  - intros pre m post H. destruct pre; discriminate.
  - intros b [].
Qed.

Lemma parse_inv_literal (pos : nat) (p : Parsed) :
  parse_inv data pos p -> pos < length data ->
  parse_inv data (S pos)
    (mkParsed (literals p ++ [nth pos data x00]) (matches p) (is_match p ++ [false])).
Proof.
  intros (Hpos & Hal & Hcons & Hok & Hin & Hcnt & Hfl) Hlt.
  destruct (tokens_of_snoc_literal (is_match p) (literals p) (matches p)
              (nth pos data x00) Hal) as [Htok Hal'].
  unfold parse_inv, tokens in *. cbn [literals matches is_match].
  rewrite Htok, consumed_app, !length_app. cbn [length consumed fold_right token_size].
  split; [lia|]. split; [rewrite length_app in Hal'; exact Hal'|].
  split; [lia|]. split; [|split; [|lia]].
  - apply tokens_ok_snoc; [exact Hok|]. intros m Hm. discriminate.
  - intros b Hb. apply in_app_or in Hb. destruct Hb as [Hb|[<-|[]]].
    + apply Hin. exact Hb.
    + apply nth_In. exact Hlt.
Qed.

Lemma parse_inv_match (pos : nat) (p : Parsed) :
  parse_inv data pos p -> pos < length data ->
  3 <= Match.length (FindLongestMatch data pos WINDOW) ->
  parse_inv data (pos + Match.length (FindLongestMatch data pos WINDOW))
    (mkParsed (literals p) (matches p ++ [FindLongestMatch data pos WINDOW])
              (is_match p ++ [true])).
Proof.
  intros (Hpos & Hal & Hcons & Hok & Hin & Hcnt & Hfl) Hlt H3.
  destruct (FindLongestMatch_spec data pos Hlt H3) as (Hd1 & Hdw & Hdp & Hl & Hld & Hend).
  set (m := FindLongestMatch data pos WINDOW) in *.
  destruct (tokens_of_snoc_match (is_match p) (literals p) (matches p) m Hal)
    as [Htok Hal'].
  unfold parse_inv, tokens in *. cbn [literals matches is_match].
  rewrite Htok, consumed_app, !length_app. cbn [length consumed fold_right token_size].
  split; [lia|]. split; [rewrite length_app in Hal'; exact Hal'|].
  split; [lia|]. split; [|split; [exact Hin|lia]].
  apply tokens_ok_snoc; [exact Hok|]. intros m' Hm. injection Hm as <-.
  unfold match_ok. unfold WINDOW in Hdw. lia.
Qed.

(** The parsing loop returns within [|data| - pos + 1] rounds. *)
Lemma parse_loop_spec (fuel : nat) :
  forall pos p,
    parse_inv data pos p -> length data - pos < fuel ->
    exists p', parse_loop data fuel pos p = Some p' /\ parse_inv data (length data) p'.
Proof.
  induction fuel as [|fuel IH]; intros pos p Hinv Hfuel; [lia|].
  cbn [parse_loop].
  destruct (pos <? length data) eqn:E.
  - apply Nat.ltb_lt in E.
    destruct (3 <=? Match.length (FindLongestMatch data pos WINDOW)) eqn:E3.
    + apply Nat.leb_le in E3. apply IH.
      * apply parse_inv_match; assumption.
      * lia.
    + apply IH.
      * apply parse_inv_literal; assumption.
      * lia.
  - apply Nat.ltb_ge in E. exists p. split; [reflexivity|].
    destruct Hinv as (Hpos & Hrest).
    replace (length data) with pos by lia. split; [lia|exact Hrest].
Qed.

Lemma parse_spec : exists p, parse data = Some p /\ parse_inv data (length data) p.
Proof.
  unfold parse. apply parse_loop_spec; [apply parse_inv_init|lia].
Qed.

End ParseLoop.

(** C6.  Match bounds.  The parser returns, and every match token it
    emits has [1 <= distance <= 32768], [3 <= length <= 255], a distance
    no larger than the number of input bytes consumed by the tokens
    before it, and [length <= distance] (the source lies wholly before
    the current position). *)
Theorem match_tokens_bounded (data : list byte) :
  input_ok data ->
  exists p,
    parse data = Some p
    /\ forall pre m post,
         tokens p = pre ++ Copy m :: post ->
         1 <= Match.distance m /\ (Z.of_nat (Match.distance m) <= 32768)%Z
         /\ 3 <= Match.length m /\ Match.length m <= 255
         /\ Match.distance m <= consumed pre
         /\ Match.length m <= Match.distance m.
Proof.
  intros _.
  destruct (parse_spec data) as (p & Hp & Hinv).
  exists p. split; [exact Hp|].
  destruct Hinv as (_ & _ & _ & Hok & _).
  intros pre m post Heq. apply (Hok pre m post Heq).
Qed.

(** ** The container *)

Section ContainerProofs.
Local Open Scope Z_scope.

Lemma rd32_le32 (x : Z) : 0 <= x < 4294967296 -> rd32 (le32 x) = x.
Proof.
  intros Hx. unfold rd32, le32. cbn [nth].
  rewrite !byte_to_of_Z. unfold u8.
  rewrite !Z.shiftr_div_pow2 by lia.
  change (2 ^ 8) with 256. change (2 ^ 16) with 65536. change (2 ^ 24) with 16777216.
  pose proof (Z.div_mod x 256 ltac:(lia)) as H1.
  pose proof (Z.mod_pos_bound x 256 ltac:(lia)) as B1.
  pose proof (Z.div_mod x 65536 ltac:(lia)) as H2.
  pose proof (Z.mod_pos_bound x 65536 ltac:(lia)) as B2.
  pose proof (Z.div_mod x 16777216 ltac:(lia)) as H3.
  pose proof (Z.mod_pos_bound x 16777216 ltac:(lia)) as B3.
  pose proof (Z.div_mod (x / 256) 256 ltac:(lia)) as H4.
  pose proof (Z.mod_pos_bound (x / 256) 256 ltac:(lia)) as B4.
  pose proof (Z.div_mod (x / 65536) 256 ltac:(lia)) as H5.
  pose proof (Z.mod_pos_bound (x / 65536) 256 ltac:(lia)) as B5.
  pose proof (Z.div_mod (x / 16777216) 256 ltac:(lia)) as H6.
  pose proof (Z.mod_pos_bound (x / 16777216) 256 ltac:(lia)) as B6.
  assert (x / 16777216 / 256 = 0) by (rewrite Z.div_div by lia; apply Z.div_small; lia).
  assert (x / 256 / 256 = x / 65536) by (rewrite Z.div_div by lia; reflexivity).
  assert (x / 65536 / 256 = x / 16777216) by (rewrite Z.div_div by lia; reflexivity).
  lia.
Qed.

Lemma length_le32 (x : Z) : length (le32 x) = 4%nat.
Proof. reflexivity. Qed.

(** Reading the six fields back from what [Compress] lays out. *)
Lemma header_fields (x0 x1 x2 x3 x4 x5 : Z) (rest : list byte) :
  let file := le32 x0 ++ le32 x1 ++ le32 x2 ++ le32 x3 ++ le32 x4 ++ le32 x5 ++ rest in
  header_field 0 file = rd32 (le32 x0)
  /\ header_field 1 file = rd32 (le32 x1)
  /\ header_field 2 file = rd32 (le32 x2)
  /\ header_field 3 file = rd32 (le32 x3)
  /\ header_field 4 file = rd32 (le32 x4)
  /\ header_field 5 file = rd32 (le32 x5)
  /\ skipn 24 file = rest
  /\ length file = (24 + length rest)%nat.
Proof.
  cbv zeta. unfold header_field, le32.
  cbn [app skipn firstn Nat.mul Nat.add length]. repeat split.
Qed.

Lemma write_region_all (v : list byte) :
  Z.of_nat (length v) < 4294967296 ->
  write_region v (u32 (Z.of_nat (length v))) = v.
Proof.
  intros H. unfold write_region. rewrite u32_small by lia.
  rewrite Nat2Z.id. apply firstn_all.
Qed.

Lemma length_pairs {A : Type} (f g : A -> byte) (l : list A) :
  length (flat_map (fun i => [f i; g i]) l) = (2 * length l)%nat.
Proof.
  induction l as [|a l IH]; cbn [flat_map length app]; [reflexivity|]. rewrite IH. lia.
Qed.

Lemma nth_pairs {A : Type} (f g : A -> byte) (l : list A) (d : A) (k : nat) :
  (k < length l)%nat ->
  nth (2 * k) (flat_map (fun i => [f i; g i]) l) x00 = f (nth k l d)
  /\ nth (2 * k + 1) (flat_map (fun i => [f i; g i]) l) x00 = g (nth k l d).
Proof.
  revert k. induction l as [|a l IH]; intros k Hk; cbn [length] in Hk; [lia|].
  destruct k as [|k].
  - cbn. split; reflexivity.
  - replace (2 * S k)%nat with (S (S (2 * k))) by lia.
    replace (S (S (2 * k)) + 1)%nat with (S (S (2 * k + 1))) by lia.
    cbn [flat_map app nth]. apply IH. lia.
Qed.

Lemma length_GetModelData (e : RansEncoderImpl) : length (GetModelData e) = 512%nat.
Proof.
  unfold GetModelData.
  rewrite (length_pairs
             (fun i => byte_of_Z (Z.land (nth i (freqs (enc_stats e)) 0) 255))
             (fun i => byte_of_Z (Z.land (Z.shiftr (nth i (freqs (enc_stats e)) 0) 8) 255))).
  rewrite length_seq. reflexivity.
Qed.

(** The model region holds each frequency as 16 bits, low byte first. *)
Lemma GetModelData_entry (e : RansEncoderImpl) (s : nat) :
  (s < 256)%nat ->
  0 <= nth s (freqs (enc_stats e)) 0 < 65536 ->
  byte_to_Z (nth (2 * s) (GetModelData e) x00)
  + 256 * byte_to_Z (nth (2 * s + 1) (GetModelData e) x00)
  = nth s (freqs (enc_stats e)) 0.
Proof.
  intros Hs Hf. unfold GetModelData.
  destruct (nth_pairs
              (fun i => byte_of_Z (Z.land (nth i (freqs (enc_stats e)) 0) 255))
              (fun i => byte_of_Z (Z.land (Z.shiftr (nth i (freqs (enc_stats e)) 0) 8) 255))
              (seq 0 256) 0%nat s) as [H1 H2].
  { rewrite length_seq. exact Hs. }
  rewrite H1, H2, seq_nth by exact Hs. cbn [Nat.add].
  set (f := nth s (freqs (enc_stats e)) 0) in *.
  rewrite !byte_to_of_Z. unfold u8.
  change 255 with (Z.ones 8). rewrite !Z.land_ones by lia.
  rewrite Z.shiftr_div_pow2 by lia. change (2 ^ 8) with 256.
  rewrite !Z.mod_mod by lia.
  pose proof (Z.div_mod f 256 ltac:(lia)) as H.
  assert (0 <= f / 256 < 256).
  { split; [apply Z.div_pos; lia|apply Z.div_lt_upper_bound; lia]. }
  rewrite (Z.mod_small (f / 256)) by lia. lia.
Qed.

Lemma length_packed (ms : list Match.t) :
  length (flat_map pack_match ms) = (3 * length ms)%nat.
Proof.
  induction ms as [|m ms IH]; cbn [flat_map length app pack_match]; [reflexivity|].
  rewrite IH. lia.
Qed.

Lemma length_Enc_Flush (e : RansEncoderImpl) :
  length (enc_buffer (Enc_Flush e)) = (length (enc_buffer e) + 4)%nat.
Proof. unfold Enc_Flush. cbn [enc_buffer]. rewrite length_app. reflexivity. Qed.

(** Successive [Encode] calls on symbols of frequency at least 1 all
    return; at most two bytes are pushed per symbol. *)
Lemma EncodeAll_spec (symbols : list byte) :
  forall e,
    model_ok (enc_stats e) ->
    (forall s, In s symbols -> 1 <= nth (byte_to_nat s) (freqs (enc_stats e)) 0) ->
    RANS_L <= enc_state e < 2147483648 ->
    exists e',
      EncodeAll symbols e = Some e'
      /\ RANS_L <= enc_state e' < 2147483648
      /\ enc_stats e' = enc_stats e
      /\ (length (enc_buffer e') <= length (enc_buffer e) + 2 * length symbols)%nat.
Proof.
  induction symbols as [|s rest IH]; intros e Hm Hf Hst.
  - exists e. cbn [EncodeAll length]. repeat split; try lia.
  - destruct (model_ok_symbol _ _ Hm (byte_to_nat_lt s)) as (_ & Hc & Hnext & Hle).
    destruct (Encode_step e s) as (e1 & He1 & Hst1 & Hstats1 & Hlen1).
    + apply Hf. left. reflexivity.
    + exact Hc.
    + rewrite <- Hnext. exact Hle.
    + lia.
    + destruct (IH e1) as (e2 & He2 & Hst2 & Hstats2 & Hlen2).
      * rewrite Hstats1. exact Hm.
      * intros s' Hs'. rewrite Hstats1. apply Hf. right. exact Hs'.
      * exact Hst1.
      * exists e2. cbn [EncodeAll]. rewrite He1.
        split; [exact He2|]. split; [exact Hst2|]. split; [congruence|].
        cbn [length]. specialize (Hlen1 ltac:(lia)). lia.
Qed.

End ContainerProofs.

Section CompressProofs.
Local Open Scope Z_scope.

(** [Compress] on a non-empty input within the [int] range writes an
    artifact; its parts. *)
Lemma Compress_layout (data : list byte) :
  data <> [] -> input_ok data ->
  exists (st : SymbolStats) (e : RansEncoderImpl) (flag_bytes match_bytes : list byte),
    Count zero_stats data = Some st
    /\ enc_stats e = st
    /\ model_ok st
    /\ Compress data
       = Some (le32 MAGIC ++ le32 (Z.of_nat (length data))
               ++ le32 (Z.of_nat (length (GetOutput e)))
               ++ le32 (Z.of_nat (length flag_bytes))
               ++ le32 (Z.of_nat (length match_bytes))
               ++ le32 512
               ++ GetOutput e ++ flag_bytes ++ match_bytes ++ GetModelData e)
    /\ Z.of_nat (length (GetOutput e)) < 4294967296
    /\ Z.of_nat (length flag_bytes) < 4294967296
    /\ Z.of_nat (length match_bytes) < 4294967296.
Proof.
  intros Hne Hin. unfold input_ok, INT_MAX in Hin.
  destruct (Count_spec zero_stats data Hne ltac:(lia))
    as (st & HC & Hmod & HL & HS & Hcum & Hfreq).
  destruct (parse_spec data) as (p & Hp & Hinv).
  destruct Hinv as (_ & Hal & Hcons & Hok & Hlit & Hcnt & Hfl).
  destruct (EncodeAll_spec (rev (literals p)) (mkEnc RANS_L [] st))
    as (e & He & Hst & Hstats & Hlen).
  { exact Hmod. }
  { intros s Hs. cbn [enc_stats]. apply Hfreq. apply Hlit. apply in_rev. exact Hs. }
  { cbn [enc_state]. change RANS_L with 65536. lia. }
  cbn [enc_stats enc_buffer length Nat.add] in Hstats, Hlen.
  rewrite length_rev in Hlen.
  destruct (flushed (is_match p)) as (_ & Hflag & _). cbv zeta in Hflag.
  set (flag_bytes := BitWriter.GetData
                       (BitWriter.Flush (BitWriter.WriteAll (is_match p) BitWriter.init))) in *.
  pose proof (length_packed (matches p)) as Hpacked.
  pose proof (length_Enc_Flush e) as Hflush.
  pose proof (length_GetModelData (Enc_Flush e)) as Hmodel.
  exists st, (Enc_Flush e), flag_bytes, (flat_map pack_match (matches p)).
  split; [exact HC|]. split; [exact Hstats|]. split; [exact Hmod|].
  assert (Hr : Z.of_nat (length (GetOutput (Enc_Flush e))) < 4294967296)
    by (unfold GetOutput; lia).
  assert (Hf : Z.of_nat (length flag_bytes) < 4294967296) by lia.
  assert (Hm : Z.of_nat (length (flat_map pack_match (matches p))) < 4294967296) by lia.
  split; [|split; [exact Hr|split; [exact Hf|exact Hm]]].
  destruct data as [|b0 rest]; [congruence|].
  set (data := b0 :: rest) in *.
  unfold Compress. fold data.
  unfold BuildModel, Enc_Init, enc_impl0. cbn [enc_stats enc_state enc_buffer].
  rewrite HC, Hp, He. fold flag_bytes.
  rewrite Hmodel.
  rewrite !write_region_all by (try assumption; rewrite ?Hmodel; lia).
  rewrite (u32_small (Z.of_nat (length data))) by lia.
  rewrite (u32_small (Z.of_nat (length (GetOutput (Enc_Flush e))))) by lia.
  rewrite (u32_small (Z.of_nat (length flag_bytes))) by lia.
  rewrite (u32_small (Z.of_nat (length (flat_map pack_match (matches p))))) by lia.
  reflexivity.
Qed.

End CompressProofs.

Lemma model_ok_freq_range (st : SymbolStats) (i : nat) :
  model_ok st -> (0 <= nth i (freqs st) 0 <= 4096)%Z.
Proof.
  unfold model_ok, model_okb. intros H.
  apply andb_true_iff in H. destruct H as [H _].
  apply andb_true_iff in H. destruct H as [H Hsum].
  apply andb_true_iff in H. destruct H as [_ Hnn].
  apply Z.eqb_eq in Hsum. change PROB_SCALE with 4096%Z in Hsum.
  pose proof (forallb_nth_nonneg _ Hnn) as Hnn'.
  pose proof (nth_le_Zsum (freqs st) i Hnn'). specialize (Hnn' i). lia.
Qed.

(** C8, as the code has it.  The artifact [Compress] writes for a
    non-empty input starts with a 24-byte header whose magic is
    [0x4D49444F] and whose [model_size] is 512; 24 plus the four region
    sizes (rans, flags, match, model) is the length of the artifact,
    [orig_size] being the length of the input and no part of that sum;
    and the model region is the 256 frequencies of the model, 16 bits
    each, low byte first. *)
Theorem header_consistency (data : list byte) :
  data <> [] -> input_ok data ->
  exists (art : list byte) (st : SymbolStats),
    Compress data = Some art
    /\ Count zero_stats data = Some st
    /\ header_field 0 art = 0x4D49444F%Z
    /\ header_field 1 art = Z.of_nat (length data)
    /\ header_field 5 art = 512%Z
    /\ (24 + header_field 2 art + header_field 3 art + header_field 4 art
        + header_field 5 art = Z.of_nat (length art))%Z
    /\ (let model :=
          skipn (Z.to_nat (24 + header_field 2 art + header_field 3 art
                           + header_field 4 art)) art in
        length model = 512
        /\ forall s, s < 256 ->
             (byte_to_Z (nth (2 * s) model x00)
              + 256 * byte_to_Z (nth (2 * s + 1) model x00)
              = nth s (freqs st) 0)%Z).
Proof.
  intros Hne Hin.
  destruct (Compress_layout data Hne Hin)
    as (st & e & fb & mb & HC & Hst & Hmod & Hart & Hr & Hf & Hm).
  unfold input_ok, INT_MAX in Hin.
  eexists. exists st. split; [exact Hart|]. split; [exact HC|].
  destruct (header_fields MAGIC (Z.of_nat (length data))
              (Z.of_nat (length (GetOutput e))) (Z.of_nat (length fb))
              (Z.of_nat (length mb)) 512
              (GetOutput e ++ fb ++ mb ++ GetModelData e))
    as (H0 & H1 & H2 & H3 & H4 & H5 & Hskip & Hlen).
  cbv zeta in *.
  rewrite H0, H1, H2, H3, H4, H5, Hlen.
  rewrite !rd32_le32 by (try (unfold MAGIC); lia).
  rewrite !length_app, length_GetModelData.
  split; [reflexivity|]. split; [reflexivity|]. split; [reflexivity|].
  split; [lia|].
  replace (Z.to_nat (24 + Z.of_nat (length (GetOutput e)) + Z.of_nat (length fb)
                     + Z.of_nat (length mb)))
    with (length mb + (length fb + (length (GetOutput e) + 24))) by lia.
  rewrite <- (skipn_skipn (length mb)).
  rewrite <- (skipn_skipn (length fb)).
  rewrite <- (skipn_skipn (length (GetOutput e))).
  rewrite Hskip.
  rewrite skipn_app, skipn_all, Nat.sub_diag. cbn [app skipn].
  rewrite skipn_app, skipn_all, Nat.sub_diag. cbn [app skipn].
  rewrite skipn_app, skipn_all, Nat.sub_diag. cbn [app skipn].
  split; [apply length_GetModelData|].
  intros s Hs. rewrite <- Hst. apply GetModelData_entry; [exact Hs|].
  rewrite Hst. pose proof (model_ok_freq_range st s Hmod). lia.
Qed.

(** C8 as stated fails: the header has five size fields, and
    [orig_size] is one of them; for the one-byte input ["A"] the five
    fields and 24 add up to 542, the artifact has 541 bytes. *)
Lemma header_five_fields_sum_fails :
  exists art : list byte,
    Compress ["A"%byte] = Some art
    /\ (24 + header_field 1 art + header_field 2 art + header_field 3 art
        + header_field 4 art + header_field 5 art <> Z.of_nat (length art))%Z.
Proof.
  exists (match Compress ["A"%byte] with Some a => a | None => [] end).
  split.
  - vm_compute. reflexivity.
  - vm_compute. discriminate.
Qed.

(** ** The decode loop *)

Section EmitProofs.
Local Open Scope Z_scope.

Variable orig_size : Z.
Variable match_data : list byte.

Lemma copy_match_length (start : nat) :
  forall n i out out',
    copy_match start i n out = Some out' ->
    exists tail, out' = out ++ tail /\ length tail = n.
Proof.
  induction n as [|n IH]; intros i out out' H; cbn [copy_match] in H.
  - injection H as <-. exists []. rewrite app_nil_r. split; reflexivity.
  - destruct (nth_error out (start + i)) as [b|]; [|discriminate].
    destruct (IH _ _ _ H) as (tail & -> & Hlen).
    exists (b :: tail). rewrite <- app_assoc. cbn [app length]. split; congruence.
Qed.

(** What one round does to the output: a round that goes on appends to
    it, a round that breaks leaves it as it is. *)
Lemma emit_step_output (s : Emit) :
  match emit_step match_data s with
  | Continue s' => exists tail, output s' = output s ++ tail
  | Break s' r =>
      output s' = output s
      /\ (r = MatchUnderflow
          \/ r = InvalidDistance (Z.to_nat (record_dist match_data (match_ptr s)))
                                 (length (output s)))
  | BadRead => True
  end.
Proof.
  unfold emit_step.
  destruct (BitReader.ReadBit (flags_in s)) as [flag fr].
  destruct flag; cbn [negb].
  - destruct (length match_data <? match_ptr s + 3)%nat.
    + cbn [output]. split; [reflexivity|left; reflexivity].
    + destruct (Z.of_nat (length (output s)) <? record_dist match_data (match_ptr s)).
      * cbn [output]. split; [reflexivity|right; reflexivity].
      * destruct (copy_match _ _ _ _) as [out|] eqn:E; [|exact I].
        destruct (copy_match_length _ _ _ _ _ E) as (tail & -> & _).
        exists tail. reflexivity.
  - destruct (Decode (rans s)) as [lit d]. cbn [output]. eexists. reflexivity.
Qed.

Lemma emit_step_progress (s s' : Emit) :
  Z.of_nat (length (output s)) < orig_size ->
  emit_step match_data s = Continue s' ->
  (rounds_left orig_size match_data s' < rounds_left orig_size match_data s)%nat.
Proof.
  intros Hrun. unfold emit_step, rounds_left.
  destruct (BitReader.ReadBit (flags_in s)) as [flag fr].
  destruct flag; cbn [negb].
  - destruct (length match_data <? match_ptr s + 3)%nat eqn:E; [discriminate|].
    apply Nat.ltb_ge in E.
    destruct (Z.of_nat (length (output s)) <? record_dist match_data (match_ptr s));
      [discriminate|].
    destruct (copy_match _ _ _ _) as [out|] eqn:Ec; [|discriminate].
    destruct (copy_match_length _ _ _ _ _ Ec) as (tail & -> & _).
    intros H. injection H as <-. cbn [output match_ptr].
    rewrite length_app. lia.
  - destruct (Decode (rans s)) as [lit d].
    intros H. injection H as <-. cbn [output match_ptr].
    rewrite length_app. cbn [length]. lia.
Qed.

(** The fuel [Decompress] gives the loop is never used up. *)
Lemma emit_loop_fuel (fuel : nat) :
  forall s, (rounds_left orig_size match_data s < fuel)%nat ->
            emit_loop fuel orig_size match_data s <> OutOfFuel.
Proof.
  induction fuel as [|fuel IH]; intros s Hf; [lia|].
  cbn [emit_loop].
  destruct (Z.of_nat (length (output s)) <? orig_size) eqn:E; [|discriminate].
  apply Z.ltb_lt in E.
  destruct (emit_step match_data s) as [s'| |] eqn:Es; try discriminate.
  apply IH. pose proof (emit_step_progress s s' E Es). lia.
Qed.

Lemma emit_run_loop (n : nat) :
  forall s0 s fuel,
    emit_run n orig_size match_data s0 = Some s ->
    emit_loop (n + fuel) orig_size match_data s0
    = emit_loop fuel orig_size match_data s.
Proof.
  induction n as [|n IH]; intros s0 s fuel H; cbn [emit_run] in H.
  - injection H as <-. reflexivity.
  - cbn [Nat.add emit_loop].
    destruct (Z.of_nat (length (output s0)) <? orig_size); [|discriminate].
    destruct (emit_step match_data s0) as [s1| |]; try discriminate.
    apply IH. exact H.
Qed.

Lemma emit_run_rounds (n : nat) :
  forall s0 s,
    emit_run n orig_size match_data s0 = Some s ->
    (n + rounds_left orig_size match_data s <= rounds_left orig_size match_data s0)%nat
    /\ exists tail, output s = output s0 ++ tail.
Proof.
  induction n as [|n IH]; intros s0 s H; cbn [emit_run] in H.
  - injection H as <-. split; [lia|]. exists []. rewrite app_nil_r. reflexivity.
  - destruct (Z.of_nat (length (output s0)) <? orig_size) eqn:E; [|discriminate].
    apply Z.ltb_lt in E.
    destruct (emit_step match_data s0) as [s1| |] eqn:Es; try discriminate.
    pose proof (emit_step_progress s0 s1 E Es) as Hp.
    pose proof (emit_step_output s0) as Ho. rewrite Es in Ho.
    destruct Ho as (t1 & Ho).
    destruct (IH s1 s H) as (Hr & t2 & Ht2).
    split; [lia|]. exists (t1 ++ t2). rewrite Ht2, Ho, app_assoc. reflexivity.
Qed.

(** A round that breaks, [n] rounds into the loop: the loop stops there
    with the output as that round found it. *)
Lemma emit_loop_break (n : nat) (s0 s s' : Emit) (r : Report) :
  emit_run n orig_size match_data s0 = Some s ->
  Z.of_nat (length (output s)) < orig_size ->
  emit_step match_data s = Break s' r ->
  forall fuel, (rounds_left orig_size match_data s0 < fuel)%nat ->
    emit_loop fuel orig_size match_data s0 = Stopped s' (Some r)
    /\ output s' = output s.
Proof.
  intros Hrun Hlt Hstep fuel Hfuel.
  destruct (emit_run_rounds n s0 s Hrun) as (Hr & _).
  replace fuel with (n + S (fuel - n - 1))%nat by lia.
  rewrite (emit_run_loop n s0 s _ Hrun). cbn [emit_loop].
  replace (Z.of_nat (length (output s)) <? orig_size) with true
    by (symmetry; apply Z.ltb_lt; exact Hlt).
  rewrite Hstep. split; [reflexivity|].
  pose proof (emit_step_output s) as Ho. rewrite Hstep in Ho. apply Ho.
Qed.

End EmitProofs.

Lemma Decompress_open (uninit : SymbolStats) (file : list byte) :
  (24 <= length file) -> header_field 0 file = MAGIC ->
  Decompress uninit file
  = let '(orig_size, match_data, s) := open_container uninit file in
    match emit_loop (emit_fuel orig_size match_data) orig_size match_data s with
    | Stopped s' r => Wrote (output s') r
    | Undefined => NoBehaviour
    | OutOfFuel => NoBehaviour
    end.
Proof.
  intros Hlen Hmagic. unfold Decompress.
  replace (length file <? 4) with false by (symmetry; apply Nat.ltb_ge; lia).
  replace (length file <? 24) with false by (symmetry; apply Nat.ltb_ge; lia).
  rewrite Hmagic, Z.eqb_refl. reflexivity.
Qed.

Lemma open_container_start (uninit : SymbolStats) (file : list byte)
      (orig_size : Z) (match_data : list byte) (s0 : Emit) :
  open_container uninit file = (orig_size, match_data, s0) ->
  output s0 = [] /\ match_ptr s0 = 0 /\ orig_size = header_field 1 file.
Proof.
  unfold open_container.
  destruct (read_region _ _) as [rans_data rest1].
  destruct (read_region _ rest1) as [flags_data rest2].
  destruct (read_region _ rest2) as [md rest3].
  destruct (read_region _ rest3) as [model_data rest4].
  intros H. injection H as <- <- <-. cbn [output match_ptr]. repeat split.
Qed.

(** The fuel [Decompress] gives its loop is enough. *)
Lemma Decompress_fuel (uninit : SymbolStats) (file : list byte)
      (orig_size : Z) (match_data : list byte) (s0 : Emit) :
  open_container uninit file = (orig_size, match_data, s0) ->
  emit_loop (emit_fuel orig_size match_data) orig_size match_data s0 <> OutOfFuel.
Proof.
  intros Hopen.
  destruct (open_container_start _ _ _ _ _ Hopen) as (Hout & Hmp & _).
  apply emit_loop_fuel.
  unfold rounds_left, emit_fuel. rewrite Hout, Hmp. cbn [length]. lia.
Qed.

(** An error [n] rounds into the loop, seen from [Decompress]: the file
    written is the output as the failing round found it. *)
Lemma Decompress_break (uninit : SymbolStats) (file : list byte)
      (orig_size : Z) (match_data : list byte) (s0 s s' : Emit) (n : nat) (r : Report) :
  24 <= length file -> header_field 0 file = MAGIC ->
  open_container uninit file = (orig_size, match_data, s0) ->
  emit_run n orig_size match_data s0 = Some s ->
  (Z.of_nat (length (output s)) < orig_size)%Z ->
  emit_step match_data s = Break s' r ->
  Decompress uninit file = Wrote (output s) (Some r).
Proof.
  intros Hlen Hmagic Hopen Hrun Hlt Hstep.
  rewrite Decompress_open by assumption. rewrite Hopen.
  destruct (open_container_start _ _ _ _ _ Hopen) as (Hout & Hmp & _).
  destruct (emit_loop_break orig_size match_data n s0 s s' r Hrun Hlt Hstep
              (emit_fuel orig_size match_data)) as [Hloop Hsame].
  { unfold rounds_left, emit_fuel. rewrite Hout, Hmp. cbn [length]. lia. }
  rewrite Hloop, Hsame. reflexivity.
Qed.

Lemma emit_run_split (orig_size : Z) (match_data : list byte) (m : nat) :
  forall n s0 sm s,
    m <= n ->
    emit_run m orig_size match_data s0 = Some sm ->
    emit_run n orig_size match_data s0 = Some s ->
    emit_run (n - m) orig_size match_data sm = Some s.
Proof.
  induction m as [|m IH]; intros n s0 sm s Hmn Hm Hn; cbn [emit_run] in Hm.
  - injection Hm as <-. rewrite Nat.sub_0_r. exact Hn.
  - destruct n as [|n]; [lia|]. cbn [emit_run] in Hn. cbn [Nat.sub].
    destruct (Z.of_nat (length (output s0)) <? orig_size)%Z; [|discriminate].
    destruct (emit_step match_data s0) as [s1| |]; try discriminate.
    apply (IH n s1 sm s); [lia|exact Hm|exact Hn].
Qed.

(** C9.  Invalid distance.  At any state [s] the emit loop of
    [Decompress] reaches, if the next flag is a match, its record is in
    the match region and its distance is greater than the number of
    bytes emitted so far, the round breaks with the invalid-distance
    report and the loop is left: the file written is the output as it
    stood at [s], nothing is emitted after the error. *)
Theorem invalid_distance_aborts
        (uninit : SymbolStats) (file : list byte)
        (orig_size : Z) (match_data : list byte) (s0 s : Emit) (n : nat) :
  24 <= length file -> header_field 0 file = MAGIC ->
  open_container uninit file = (orig_size, match_data, s0) ->
  emit_run n orig_size match_data s0 = Some s ->
  (Z.of_nat (length (output s)) < orig_size)%Z ->
  fst (BitReader.ReadBit (flags_in s)) = true ->
  match_ptr s + 3 <= length match_data ->
  (Z.of_nat (length (output s)) < record_dist match_data (match_ptr s))%Z ->
  (exists s',
      emit_step match_data s
      = Break s' (InvalidDistance (Z.to_nat (record_dist match_data (match_ptr s)))
                                  (length (output s)))
      /\ output s' = output s)
  /\ Decompress uninit file
     = Wrote (output s)
             (Some (InvalidDistance (Z.to_nat (record_dist match_data (match_ptr s)))
                                    (length (output s)))).
Proof.
  intros Hlen Hmagic Hopen Hrun Hlt Hflag Hrec Hdist.
  assert (Hstep : exists s',
             emit_step match_data s
             = Break s' (InvalidDistance (Z.to_nat (record_dist match_data (match_ptr s)))
                                         (length (output s)))
             /\ output s' = output s).
  { unfold emit_step.
    destruct (BitReader.ReadBit (flags_in s)) as [flag fr]. cbn [fst] in Hflag.
    subst flag. cbn [negb].
    replace (length match_data <? match_ptr s + 3) with false
      by (symmetry; apply Nat.ltb_ge; lia).
    replace (Z.of_nat (length (output s)) <? record_dist match_data (match_ptr s))%Z
      with true by (symmetry; apply Z.ltb_lt; exact Hdist).
    eexists. split; reflexivity. }
  split; [exact Hstep|].
  destruct Hstep as (s' & Hs' & _).
  apply (Decompress_break uninit file orig_size match_data s0 s s' n _
           Hlen Hmagic Hopen Hrun Hlt Hs').
Qed.

(** C10.  Decode errors are not atomic.  When a round of the emit loop
    breaks on an error -- which is then a match underflow or an invalid
    distance -- [Decompress] still writes the output file: its content
    is the output as the failing round found it, shorter than
    [orig_size], and it extends what every earlier round had
    reconstructed. *)
Theorem partial_output_written
        (uninit : SymbolStats) (file : list byte)
        (orig_size : Z) (match_data : list byte) (s0 s s' : Emit) (n : nat) (r : Report) :
  24 <= length file -> header_field 0 file = MAGIC ->
  open_container uninit file = (orig_size, match_data, s0) ->
  emit_run n orig_size match_data s0 = Some s ->
  (Z.of_nat (length (output s)) < orig_size)%Z ->
  emit_step match_data s = Break s' r ->
  (r = MatchUnderflow
   \/ r = InvalidDistance (Z.to_nat (record_dist match_data (match_ptr s)))
                          (length (output s)))
  /\ Decompress uninit file = Wrote (output s) (Some r)
  /\ (Z.of_nat (length (output s)) < header_field 1 file)%Z
  /\ (forall m sm, m <= n ->
        emit_run m orig_size match_data s0 = Some sm ->
        exists tail, output s = output sm ++ tail).
Proof.
  intros Hlen Hmagic Hopen Hrun Hlt Hstep.
  split; [|split; [|split]].
  - pose proof (emit_step_output match_data s) as Ho. rewrite Hstep in Ho. apply Ho.
  - apply (Decompress_break uninit file orig_size match_data s0 s s' n r); assumption.
  - destruct (open_container_start _ _ _ _ _ Hopen) as (_ & _ & <-). exact Hlt.
  - intros m sm Hm Hsm.
    pose proof (emit_run_split orig_size match_data m n s0 sm s Hm Hsm Hrun) as Hrest.
    apply (emit_run_rounds orig_size match_data _ _ _ Hrest).
Qed.

(** ** The codec on concrete inputs *)

(** C5, as the code has it.  On 64 bytes of [0x58] the parser emits
    three literals and then matches whose source is the whole of what
    was consumed, [(3,3) (6,6) (12,12) (24,24)], the last one cut by
    the end of the input, [(48,16)]; the artifact decompresses to the
    input. *)
Theorem run_of_X_parse (uninit : SymbolStats) :
  exists (p : Parsed) (art : list byte),
    parse run_of_X = Some p
    /\ tokens p = [Literal "X"; Literal "X"; Literal "X";
                   Copy (Match.mk 3 3); Copy (Match.mk 6 6); Copy (Match.mk 12 12);
                   Copy (Match.mk 24 24); Copy (Match.mk 48 16)]%byte
    /\ Compress run_of_X = Some art
    /\ Decompress uninit art = Wrote run_of_X None.
Proof.
  exists (match parse run_of_X with Some p => p | None => mkParsed [] [] [] end).
  exists (match Compress run_of_X with Some a => a | None => [] end).
  split; [vm_compute; reflexivity|].
  split; [vm_compute; reflexivity|].
  split; [vm_compute; reflexivity|].
  vm_compute. reflexivity.
Qed.

(** C5 as stated fails: the parse of the 64 bytes is not one literal
    followed by matches [(distance = 1, length = 3)]. *)
Lemma run_of_X_not_distance_one :
  ~ exists (p : Parsed) (k : nat),
      parse run_of_X = Some p
      /\ tokens p = Literal "X"%byte :: repeat (Copy (Match.mk 1 3)) k.
Proof.
  intros (p & k & Hp & Ht).
  vm_compute in Hp. injection Hp as <-.
  vm_compute in Ht.
  destruct k as [|k]; [discriminate|]. cbn [repeat] in Ht. discriminate.
Qed.

(** C1 at ["ABCDEF"]: the artifact [Compress] writes decompresses, with
    no error reported, to ["ACFDAE"]. *)
Theorem roundtrip_fails_on_ABCDEF (uninit : SymbolStats) :
  exists art : list byte,
    Compress ABCDEF = Some art
    /\ Decompress uninit art = Wrote ["A"; "C"; "F"; "D"; "A"; "E"]%byte None
    /\ Decompress uninit art <> Wrote ABCDEF None.
Proof.
  exists (match Compress ABCDEF with Some a => a | None => [] end).
  split; [vm_compute; reflexivity|].
  split; [vm_compute; reflexivity|].
  vm_compute. discriminate.
Qed.

(** C2 at the symbols [1, 2] under the model of [all_bytes] (every
    frequency is 16): encoded in that order and flushed, the decoder
    returns [2, 0], not [2, 1]. *)
Theorem rans_reversal_fails (uninit : SymbolStats) :
  exists (model : SymbolStats) (e : RansEncoderImpl),
    Count zero_stats all_bytes = Some model
    /\ nth 1 (freqs model) 0%Z = 16%Z /\ nth 2 (freqs model) 0%Z = 16%Z
    /\ EncodeAll ["001"; "002"]%byte (mkEnc RANS_L [] model) = Some e
    /\ fst (DecodeMany 2 (Dec_Init (GetModelData (Enc_Flush e))
                                   (Dec_new uninit (GetOutput (Enc_Flush e)))))
       = ["002"; "000"]%byte
    /\ fst (DecodeMany 2 (Dec_Init (GetModelData (Enc_Flush e))
                                   (Dec_new uninit (GetOutput (Enc_Flush e)))))
       <> rev ["001"; "002"]%byte.
Proof.
  exists (match Count zero_stats all_bytes with Some m => m | None => zero_stats end).
  exists (match EncodeAll ["001"; "002"]%byte
                  (mkEnc RANS_L []
                     (match Count zero_stats all_bytes with
                      | Some m => m | None => zero_stats end)) with
          | Some e => e | None => enc_impl0 end).
  split; [vm_compute; reflexivity|].
  split; [vm_compute; reflexivity|].
  split; [vm_compute; reflexivity|].
  split; [vm_compute; reflexivity|].
  split; [vm_compute; reflexivity|].
  vm_compute. discriminate.
Qed.

(** ** The theorems at concrete inputs *)

(** The decrement loop at work: on [skewed] the provisional total is
    4111 and the loop takes the 15 off symbol 0, the only entry above 1. *)
Example Count_skewed :
  exists st,
    Count zero_stats skewed = Some st
    /\ fst (scale_all (Z.of_nat (length skewed)) (tally skewed (repeat 0%Z 256)) 0)
       = 3856%Z :: repeat 1%Z 255
    /\ freqs st = 3841%Z :: repeat 1%Z 255.
Proof.
  exists (match Count zero_stats skewed with Some st => st | None => zero_stats end).
  split; [vm_compute; reflexivity|].
  split; vm_compute; reflexivity.
Qed.

Lemma model_sum_witness :
  exists st,
    Count zero_stats skewed = Some st
    /\ length (freqs st) = 256
    /\ Zsum (freqs st) = 4096%Z
    /\ nth 256 (cum_freqs st) 0%Z = PROB_SCALE
    /\ (forall b, In b skewed -> (1 <= nth (byte_to_nat b) (freqs st) 0)%Z).
Proof.
  apply (model_sum zero_stats skewed).
  - discriminate.
  - apply Z.ltb_lt. vm_compute. reflexivity.
Defined.

Lemma match_tokens_bounded_witness :
  exists p,
    parse run_of_X = Some p
    /\ forall pre m post,
         tokens p = pre ++ Copy m :: post ->
         1 <= Match.distance m /\ (Z.of_nat (Match.distance m) <= 32768)%Z
         /\ 3 <= Match.length m /\ Match.length m <= 255
         /\ Match.distance m <= consumed pre
         /\ Match.length m <= Match.distance m.
Proof.
  apply (match_tokens_bounded run_of_X).
  unfold input_ok. apply Z.leb_le. vm_compute. reflexivity.
Defined.

Lemma header_consistency_witness :
  exists (art : list byte) (st : SymbolStats),
    Compress ABCDEF = Some art
    /\ Count zero_stats ABCDEF = Some st
    /\ header_field 0 art = 0x4D49444F%Z
    /\ header_field 1 art = Z.of_nat (length ABCDEF)
    /\ header_field 5 art = 512%Z
    /\ (24 + header_field 2 art + header_field 3 art + header_field 4 art
        + header_field 5 art = Z.of_nat (length art))%Z
    /\ (let model :=
          skipn (Z.to_nat (24 + header_field 2 art + header_field 3 art
                           + header_field 4 art)) art in
        length model = 512
        /\ forall s, s < 256 ->
             (byte_to_Z (nth (2 * s) model x00)
              + 256 * byte_to_Z (nth (2 * s + 1) model x00)
              = nth s (freqs st) 0)%Z).
Proof.
  apply (header_consistency ABCDEF).
  - discriminate.
  - unfold input_ok. apply Z.leb_le. vm_compute. reflexivity.
Defined.

Lemma invalid_distance_aborts_witness :
  Decompress zero_stats bad_distance_artifact
  = Wrote ["A"; "B"; "C"]%byte (Some (InvalidDistance 5 3)).
Proof.
  refine (eq_trans
            (proj2 (invalid_distance_aborts zero_stats bad_distance_artifact
                      6%Z ["005"; "000"; "003"]%byte
                      (loop_start bad_distance_artifact)
                      (loop_after 3 bad_distance_artifact) 3
                      _ _ _ _ _ _ _ _)) _).
  - apply Nat.leb_le. vm_compute. reflexivity.
  - vm_compute. reflexivity.
  - vm_compute. reflexivity.
  - vm_compute. reflexivity.
  - apply Z.ltb_lt. vm_compute. reflexivity.
  - vm_compute. reflexivity.
  - apply Nat.leb_le. vm_compute. reflexivity.
  - apply Z.ltb_lt. vm_compute. reflexivity.
  - vm_compute. reflexivity.
Defined.

Lemma partial_output_written_witness :
  Decompress zero_stats underflow_artifact
  = Wrote ["A"; "B"; "C"; "A"; "B"; "C"]%byte (Some MatchUnderflow)
  /\ (Z.of_nat (length (output (loop_after 4 underflow_artifact)))
      < header_field 1 underflow_artifact)%Z.
Proof.
  pose proof (partial_output_written zero_stats underflow_artifact
                9%Z ["003"; "000"; "003"]%byte
                (loop_start underflow_artifact)
                (loop_after 4 underflow_artifact)
                (match emit_step ["003"; "000"; "003"]%byte
                                 (loop_after 4 underflow_artifact) with
                 | Break s' _ => s'
                 | _ => loop_start underflow_artifact
                 end)
                4 MatchUnderflow) as H.
  destruct H as (_ & Hd & Hl & _).
  - apply Nat.leb_le. vm_compute. reflexivity.
  - vm_compute. reflexivity.
  - vm_compute. reflexivity.
  - vm_compute. reflexivity.
  - apply Z.ltb_lt. vm_compute. reflexivity.
  - vm_compute. reflexivity.
  - split; [|exact Hl].
    refine (eq_trans Hd _). vm_compute. reflexivity.
Defined.

(* ================================================================== *)
(** * Further properties *)

(** ** bitstream.cpp: [WriteBits], [ReadBits], reads past the end, reuse after [Flush] *)

Lemma WriteAll_app (a b : list bool) (w : BitWriter.t) :
  BitWriter.WriteAll (a ++ b) w = BitWriter.WriteAll b (BitWriter.WriteAll a w).
Proof. unfold BitWriter.WriteAll. apply fold_left_app. Qed.

Lemma length_bits_msb (v : Z) (n : nat) : length (bits_msb v n) = n.
Proof. induction n as [|n IH]; cbn [bits_msb length]; congruence. Qed.

Lemma WriteBits_bits (v : Z) (n : nat) :
  forall w, BitWriter.WriteBits v n w = BitWriter.WriteAll (bits_msb v n) w.
Proof.
  unfold BitWriter.WriteBits.
  induction n as [|n IH]; intros w; cbn [BitWriter.WriteBits_loop bits_msb].
  - reflexivity.
  - rewrite IH, land1_testbit. reflexivity.
Qed.

Lemma WriteFields_bits (fields : list (Z * nat)) :
  forall w,
    WriteFields fields w
    = BitWriter.WriteAll (flat_map (fun f => bits_msb (fst f) (snd f)) fields) w.
Proof.
  induction fields as [|[v n] rest IH]; intros w; cbn [WriteFields flat_map fst snd].
  - reflexivity.
  - rewrite IH, WriteBits_bits, WriteAll_app. reflexivity.
Qed.

Lemma ReadBits_loop_ReadMany (n : nat) :
  forall value r,
    BitReader.ReadBits_loop n value r
    = (fold_left shift_in (fst (BitReader.ReadMany n r)) value,
       snd (BitReader.ReadMany n r)).
Proof.
  induction n as [|n IH]; intros value r;
    cbn [BitReader.ReadBits_loop BitReader.ReadMany].
  - reflexivity.
  - destruct (BitReader.ReadBit r) as [b r1]. rewrite IH.
    destruct (BitReader.ReadMany n r1) as [bs r2]. reflexivity.
Qed.

Lemma lor_low_bit (a : Z) (b : bool) :
  Z.lor (2 * a) (if b then 1 else 0)%Z = (2 * a + (if b then 1 else 0))%Z.
Proof.
  rewrite <- Z.add_lor_land.
  assert (H : Z.land (2 * a) (if b then 1 else 0)%Z = 0%Z).
  { destruct b; [|apply Z.land_0_r].
    change 1%Z with (Z.ones 1). rewrite Z.land_ones by lia.
    change (2 ^ 1)%Z with 2%Z. rewrite Z.mul_comm. apply Z.mod_mul. lia. }
  rewrite H. lia.
Qed.

Lemma mod_pow2_succ (v : Z) (n : nat) :
  (v mod 2 ^ Z.of_nat (S n)
   = (if Z.testbit v (Z.of_nat n) then 1 else 0) * 2 ^ Z.of_nat n
     + v mod 2 ^ Z.of_nat n)%Z.
Proof.
  rewrite Nat2Z.inj_succ, Z.pow_succ_r by lia.
  rewrite (Z.mul_comm 2), Z.rem_mul_r by lia.
  pose proof (Z.testbit_spec' v (Z.of_nat n) ltac:(lia)) as H.
  rewrite <- H. destruct (Z.testbit v (Z.of_nat n)); cbn [Z.b2z]; lia.
Qed.

(** Shifting in the low [n] bits of [v], most significant first, behind
    an accumulator that leaves room for them. *)
Lemma shift_in_bits (v : Z) (n : nat) :
  forall acc k,
    (0 <= acc < 2 ^ Z.of_nat k)%Z -> k + n <= 64 ->
    fold_left shift_in (bits_msb v n) acc
    = (acc * 2 ^ Z.of_nat n + v mod 2 ^ Z.of_nat n)%Z.
Proof.
  induction n as [|n IH]; intros acc k Hacc Hk.
  - cbn [bits_msb fold_left]. change (2 ^ Z.of_nat 0)%Z with 1%Z.
    rewrite Z.mod_1_r. lia.
  - cbn [bits_msb fold_left].
    assert (Hp : (2 ^ Z.of_nat k * 2 <= 2 ^ 64)%Z).
    { replace (2 ^ Z.of_nat k * 2)%Z with (2 ^ Z.of_nat (S k))%Z
        by (rewrite Nat2Z.inj_succ, Z.pow_succ_r by lia; lia).
      apply Z.pow_le_mono_r; lia. }
    assert (Hs : shift_in acc (Z.testbit v (Z.of_nat n))
                 = (2 * acc + (if Z.testbit v (Z.of_nat n) then 1 else 0))%Z).
    { unfold shift_in, u64. rewrite Z.shiftl_mul_pow2 by lia.
      change (2 ^ 1)%Z with 2%Z.
      change 18446744073709551616%Z with (2 ^ 64)%Z.
      rewrite Z.mod_small by lia.
      rewrite (Z.mul_comm acc 2). apply lor_low_bit. }
    rewrite Hs.
    rewrite (IH _ (S k)).
    + rewrite mod_pow2_succ.
      rewrite Nat2Z.inj_succ, Z.pow_succ_r by lia. ring.
    + rewrite Nat2Z.inj_succ, Z.pow_succ_r by lia.
      destruct (Z.testbit v (Z.of_nat n)); lia.
    + lia.
Qed.

Section ReadPositions.

Import BitReader.

Variable B : list bool.
Variable bytes : list byte.
Hypothesis Hbits : forall k j, k < length bytes -> j < 8 ->
    Z.testbit (byte_to_Z (nth k bytes x00)) (Z.of_nat (7 - j))
    = nth (8 * k + j) B false.
Hypothesis Hlen : length B <= 8 * length bytes.

(** [n] reads from bit position [p = 8k + j]: the bits [p .. p + n) of
    [B], and the reader is left at bit position [p + n]. *)
Lemma ReadMany_from (n : nat) :
  forall k j,
    j < 8 -> 8 * k + j + n <= length B ->
    exists k' j',
      j' < 8 /\ 8 * k' + j' = 8 * k + j + n
      /\ ReadMany n (mk bytes k j)
         = (firstn n (skipn (8 * k + j) B), mk bytes k' j').
Proof.
  induction n as [|n IH]; intros k j Hj Hn.
  - exists k, j. split; [exact Hj|]. split; [lia|]. reflexivity.
  - cbn [ReadMany]. rewrite (ReadBit_in_range B bytes Hbits) by lia.
    rewrite (firstn_skipn_S _ _ _ n false) by lia.
    destruct (Nat.eqb (S j) 8) eqn:E.
    + apply Nat.eqb_eq in E.
      destruct (IH (S k) 0) as (k' & j' & Hj' & Hpos & Hread); try lia.
      exists k', j'. split; [exact Hj'|]. split; [lia|].
      replace (8 * S k + 0) with (S (8 * k + j)) in Hread by lia.
      rewrite Hread. reflexivity.
    + apply Nat.eqb_neq in E.
      destruct (IH k (S j)) as (k' & j' & Hj' & Hpos & Hread); try lia.
      exists k', j'. split; [exact Hj'|]. split; [lia|].
      replace (8 * k + S j) with (S (8 * k + j)) in Hread by lia.
      rewrite Hread. reflexivity.
Qed.

End ReadPositions.

Lemma firstn_skipn_middle {A : Type} (pre mid post : list A) :
  firstn (length mid) (skipn (length pre) (pre ++ mid ++ post)) = mid.
Proof.
  rewrite skipn_app, skipn_all, Nat.sub_diag. cbn [app skipn].
  rewrite firstn_app, firstn_all, Nat.sub_diag. cbn [firstn]. apply app_nil_r.
Qed.

Lemma ReadFields_from (B : list bool) (bytes : list byte) :
  (forall k j, k < length bytes -> j < 8 ->
     Z.testbit (byte_to_Z (nth k bytes x00)) (Z.of_nat (7 - j))
     = nth (8 * k + j) B false) ->
  length B <= 8 * length bytes ->
  forall (rest : list (Z * nat)) (pre : list bool) (k j : nat),
    B = pre ++ flat_map (fun f => bits_msb (fst f) (snd f)) rest ->
    8 * k + j = length pre -> j < 8 ->
    (forall f, In f rest -> snd f <= 64) ->
    fst (ReadFields (map snd rest) (BitReader.mk bytes k j))
    = map (fun f => (fst f mod 2 ^ Z.of_nat (snd f))%Z) rest.
Proof.
  intros Hbits Hlen. induction rest as [|[v n] rest IH]; intros pre k j HB Hpos Hj Hw.
  - reflexivity.
  - cbn [map snd fst ReadFields flat_map] in *.
    unfold BitReader.ReadBits. rewrite ReadBits_loop_ReadMany.
    destruct (ReadMany_from B bytes Hbits Hlen n k j Hj) as (k' & j' & Hj' & Hpos' & Hread).
    { rewrite HB, !length_app, length_bits_msb. lia. }
    rewrite Hread. cbn [fst snd].
    specialize (IH (pre ++ bits_msb v n) k' j').
    destruct (ReadFields (map snd rest) (BitReader.mk bytes k' j')) as [vs r2].
    cbn [fst] in *. f_equal.
    + rewrite Hpos, HB.
      rewrite <- (length_bits_msb v n) at 1. rewrite firstn_skipn_middle.
      rewrite (shift_in_bits v n 0 0).
      * lia.
      * change (2 ^ Z.of_nat 0)%Z with 1%Z. lia.
      * apply (Hw (v, n)). left. reflexivity.
    + apply IH.
      * rewrite HB, app_assoc. reflexivity.
      * rewrite length_app, length_bits_msb. lia.
      * exact Hj'.
      * intros f Hf. apply Hw. right. exact Hf.
Qed.

(** X1.  [WriteBits] / [ReadBits] round trip.  Fields of at most 64 bits
    written one after the other with [WriteBits] and flushed are read
    back by [ReadBits] calls of the same widths: each call returns the
    low [num_bits] bits of the value written. *)
Theorem fields_roundtrip (fields : list (Z * nat)) :
  (forall f, In f fields -> snd f <= 64) ->
  let bytes := BitWriter.GetData (BitWriter.Flush (WriteFields fields BitWriter.init)) in
  fst (ReadFields (map snd fields) (BitReader.init bytes))
  = map (fun f => (fst f mod 2 ^ Z.of_nat (snd f))%Z) fields.
Proof.
  intros Hw bytes. unfold bytes. rewrite WriteFields_bits.
  set (B := flat_map (fun f => bits_msb (fst f) (snd f)) fields).
  destruct (flushed B) as (Hlo & _ & Hbits).
  apply (ReadFields_from B _ Hbits Hlo fields [] 0 0); try reflexivity; try lia.
  exact Hw.
Qed.

Lemma nth_bits_msb (v : Z) (n j : nat) :
  j < n -> nth j (bits_msb v n) false = Z.testbit v (Z.of_nat (n - 1 - j)).
Proof.
  revert j. induction n as [|n IH]; intros j Hj; [lia|].
  cbn [bits_msb]. destruct j as [|j]; cbn [nth].
  - f_equal. lia.
  - rewrite IH by lia. f_equal. lia.
Qed.

Lemma length_bits_of_bytes (bytes : list byte) :
  length (bits_of_bytes bytes) = 8 * length bytes.
Proof.
  unfold bits_of_bytes. induction bytes as [|b rest IH]; [reflexivity|].
  cbn [flat_map length]. rewrite length_app, length_bits_msb, IH. lia.
Qed.

Lemma nth_bits_of_bytes (bytes : list byte) :
  forall k j, k < length bytes -> j < 8 ->
    Z.testbit (byte_to_Z (nth k bytes x00)) (Z.of_nat (7 - j))
    = nth (8 * k + j) (bits_of_bytes bytes) false.
Proof.
  unfold bits_of_bytes. induction bytes as [|b rest IH]; intros k j Hk Hj;
    cbn [length] in Hk; [lia|].
  cbn [flat_map]. destruct k as [|k].
  - rewrite app_nth1 by (rewrite length_bits_msb; lia).
    cbn [nth Nat.mul Nat.add]. rewrite nth_bits_msb by lia. f_equal.
  - rewrite app_nth2 by (rewrite length_bits_msb; lia).
    rewrite length_bits_msb. cbn [nth].
    replace (8 * S k + j - 8) with (8 * k + j) by lia.
    apply IH; lia.
Qed.

Lemma ReadMany_app (a b : nat) :
  forall r,
    BitReader.ReadMany (a + b) r
    = (fst (BitReader.ReadMany a r)
       ++ fst (BitReader.ReadMany b (snd (BitReader.ReadMany a r))),
       snd (BitReader.ReadMany b (snd (BitReader.ReadMany a r)))).
Proof.
  induction a as [|a IH]; intros r; cbn [Nat.add BitReader.ReadMany].
  - cbn [fst snd app]. destruct (BitReader.ReadMany b r). reflexivity.
  - destruct (BitReader.ReadBit r) as [x r1]. rewrite IH.
    destruct (BitReader.ReadMany a r1) as [xs r2]. cbn [fst snd].
    destruct (BitReader.ReadMany b r2) as [ys r3]. reflexivity.
Qed.

(** At the end of the data every read returns 0 and the reader stays
    where it is. *)
Lemma ReadMany_at_end (n : nat) (r : BitReader.t) :
  length (BitReader.data r) <= BitReader.byte_index r ->
  BitReader.ReadMany n r = (repeat false n, r).
Proof.
  intros Hend. induction n as [|n IH]; cbn [BitReader.ReadMany repeat].
  - reflexivity.
  - unfold BitReader.ReadBit.
    replace (Nat.leb (length (BitReader.data r)) (BitReader.byte_index r)) with true
      by (symmetry; apply Nat.leb_le; exact Hend).
    rewrite IH. reflexivity.
Qed.

Lemma firstn_repeat_le {A : Type} (x : A) (m n : nat) :
  m <= n -> firstn m (repeat x n) = repeat x m.
Proof.
  revert n. induction m as [|m IH]; intros n Hmn; [reflexivity|].
  destruct n as [|n]; [lia|]. cbn [repeat firstn]. rewrite IH by lia. reflexivity.
Qed.

Lemma shift_in_zeros (n : nat) : fold_left shift_in (repeat false n) 0%Z = 0%Z.
Proof. induction n as [|n IH]; cbn [repeat fold_left]; [reflexivity|exact IH]. Qed.

(** X2.  Reads past the end.  [n] calls of [ReadBit] on any byte
    sequence return its bits, each byte most significant bit first,
    followed by zeros once the bytes are used up; the reader never
    moves past the end, and a [ReadBits] issued at the end returns 0. *)
Theorem reads_past_end (bytes : list byte) (n : nat) :
  fst (BitReader.ReadMany n (BitReader.init bytes))
  = firstn n (bits_of_bytes bytes ++ repeat false n)
  /\ BitReader.byte_index (snd (BitReader.ReadMany n (BitReader.init bytes)))
     <= length bytes
  /\ (8 * length bytes <= n ->
      forall m, fst (BitReader.ReadBits m
                       (snd (BitReader.ReadMany n (BitReader.init bytes)))) = 0%Z).
Proof.
  pose proof (nth_bits_of_bytes bytes) as Hbits.
  pose proof (length_bits_of_bytes bytes) as HL.
  set (B := bits_of_bytes bytes) in *.
  unfold BitReader.init.
  destruct (Nat.le_gt_cases n (8 * length bytes)) as [Hin|Hout].
  - destruct (ReadMany_from B bytes Hbits ltac:(lia) n 0 0)
      as (k' & j' & Hj' & Hpos & Hread); try lia.
    rewrite Hread. cbn [fst snd BitReader.byte_index Nat.mul Nat.add skipn].
    split; [|split].
    + rewrite firstn_app. replace (n - length B) with 0 by lia.
      cbn [firstn]. rewrite app_nil_r. reflexivity.
    + lia.
    + intros Hn m. assert (k' = length bytes) by lia. subst k'.
      unfold BitReader.ReadBits. rewrite ReadBits_loop_ReadMany.
      rewrite ReadMany_at_end by (cbn [BitReader.data BitReader.byte_index]; lia).
      cbn [fst]. apply shift_in_zeros.
  - remember (8 * length bytes) as L eqn:EL.
    destruct (ReadMany_from B bytes Hbits ltac:(lia) L 0 0)
      as (k' & j' & Hj' & Hpos & Hread); try lia.
    assert (k' = length bytes) by lia. subst k'.
    change (8 * 0 + 0) with 0 in Hread. cbn [skipn] in Hread.
    assert (HfB : firstn L B = B) by (rewrite <- HL; apply firstn_all).
    rewrite HfB in Hread.
    assert (Hn : BitReader.ReadMany n (BitReader.mk bytes 0 0)
                 = (B ++ repeat false (n - L), BitReader.mk bytes (length bytes) j')).
    { replace n with (L + (n - L)) at 1 by lia.
      rewrite ReadMany_app, Hread. cbn [fst snd].
      rewrite ReadMany_at_end by (cbn [BitReader.data BitReader.byte_index]; lia).
      reflexivity. }
    rewrite Hn. cbn [fst snd BitReader.byte_index].
    split; [|split].
    + rewrite firstn_app, firstn_all2 by lia.
      f_equal. rewrite firstn_repeat_le by lia. f_equal. lia.
    + lia.
    + intros _ m. unfold BitReader.ReadBits. rewrite ReadBits_loop_ReadMany.
      rewrite ReadMany_at_end by (cbn [BitReader.data BitReader.byte_index]; lia).
      cbn [fst]. apply shift_in_zeros.
Qed.

Lemma WriteBit_prefix (b : bool) (buf : list byte) (cb : Z) (bc : nat) :
  BitWriter.WriteBit b (BitWriter.mk buf cb bc)
  = BitWriter.mk (buf ++ BitWriter.buffer (BitWriter.WriteBit b (BitWriter.mk [] cb bc)))
                 (BitWriter.current_byte (BitWriter.WriteBit b (BitWriter.mk [] cb bc)))
                 (BitWriter.bit_count (BitWriter.WriteBit b (BitWriter.mk [] cb bc))).
Proof.
  unfold BitWriter.WriteBit.
  cbn [BitWriter.buffer BitWriter.current_byte BitWriter.bit_count].
  destruct (Nat.eqb (S bc) 8);
    cbn [BitWriter.buffer BitWriter.current_byte BitWriter.bit_count app].
  - reflexivity.
  - rewrite app_nil_r. reflexivity.
Qed.

(** What is already in the buffer plays no part in what is written
    after it. *)
Lemma WriteAll_prefix (B : list bool) :
  forall buf cb bc,
    BitWriter.WriteAll B (BitWriter.mk buf cb bc)
    = BitWriter.mk
        (buf ++ BitWriter.buffer (BitWriter.WriteAll B (BitWriter.mk [] cb bc)))
        (BitWriter.current_byte (BitWriter.WriteAll B (BitWriter.mk [] cb bc)))
        (BitWriter.bit_count (BitWriter.WriteAll B (BitWriter.mk [] cb bc))).
Proof.
  unfold BitWriter.WriteAll.
  induction B as [|b B IH]; intros buf cb bc; cbn [fold_left].
  - cbn [BitWriter.buffer BitWriter.current_byte BitWriter.bit_count].
    rewrite app_nil_r. reflexivity.
  - rewrite WriteBit_prefix.
    destruct (BitWriter.WriteBit b (BitWriter.mk [] cb bc)) as [buf1 cb1 bc1].
    cbn [BitWriter.buffer BitWriter.current_byte BitWriter.bit_count].
    rewrite IH. rewrite (IH buf1 cb1 bc1).
    cbn [BitWriter.buffer BitWriter.current_byte BitWriter.bit_count].
    rewrite app_assoc. reflexivity.
Qed.

(** No stale bits: when no bit is pending, [current_byte] is 0. *)
Lemma WriteAll_aligned (B : list bool) :
  BitWriter.bit_count (BitWriter.WriteAll B BitWriter.init) = 0 ->
  BitWriter.current_byte (BitWriter.WriteAll B BitWriter.init) = 0%Z.
Proof.
  destruct B as [|b B] using rev_ind; [reflexivity|]. clear IHB.
  rewrite WriteAll_app.
  change (BitWriter.WriteAll [b] (BitWriter.WriteAll B BitWriter.init))
    with (BitWriter.WriteBit b (BitWriter.WriteAll B BitWriter.init)).
  unfold BitWriter.WriteBit.
  destruct (Nat.eqb (S (BitWriter.bit_count (BitWriter.WriteAll B BitWriter.init))) 8);
    cbn [BitWriter.bit_count BitWriter.current_byte]; [reflexivity|discriminate].
Qed.

Lemma Flush_reset (B : list bool) :
  BitWriter.Flush (BitWriter.WriteAll B BitWriter.init)
  = BitWriter.mk
      (BitWriter.GetData (BitWriter.Flush (BitWriter.WriteAll B BitWriter.init))) 0 0.
Proof.
  pose proof (WriteAll_aligned B) as Ha.
  unfold BitWriter.Flush, BitWriter.GetData.
  destruct (BitWriter.WriteAll B BitWriter.init) as [buf cb bc].
  cbn [BitWriter.bit_count BitWriter.current_byte BitWriter.buffer] in *.
  destruct (Nat.ltb 0 bc) eqn:E; cbn [BitWriter.buffer]; [reflexivity|].
  apply Nat.ltb_ge in E. assert (bc = 0) by lia. subst bc.
  rewrite Ha by reflexivity. reflexivity.
Qed.

(** X3.  Reuse after [Flush].  A writer that has been flushed starts a
    fresh byte: flushing a first run of bits, writing a second run and
    flushing again gives the bytes of the first run followed by the
    bytes the second run gives on its own. *)
Theorem flush_then_write (B1 B2 : list bool) :
  BitWriter.GetData
    (BitWriter.Flush
       (BitWriter.WriteAll B2 (BitWriter.Flush (BitWriter.WriteAll B1 BitWriter.init))))
  = BitWriter.GetData (BitWriter.Flush (BitWriter.WriteAll B1 BitWriter.init))
    ++ BitWriter.GetData (BitWriter.Flush (BitWriter.WriteAll B2 BitWriter.init)).
Proof.
  rewrite (Flush_reset B1).
  set (buf1 := BitWriter.GetData (BitWriter.Flush (BitWriter.WriteAll B1 BitWriter.init))).
  rewrite WriteAll_prefix. fold BitWriter.init.
  destruct (BitWriter.WriteAll B2 BitWriter.init) as [buf2 cb2 bc2].
  unfold BitWriter.Flush, BitWriter.GetData.
  cbn [BitWriter.buffer BitWriter.current_byte BitWriter.bit_count].
  destruct (Nat.ltb 0 bc2); cbn [BitWriter.buffer].
  - rewrite app_assoc. reflexivity.
  - reflexivity.
Qed.

(** ** rans.cpp: model and state hand-over, symbol search, zero frequencies *)

Section RansMore.
Local Open Scope Z_scope.

Lemma lor_shiftl_add (a b : Z) (n : Z) :
  0 <= n -> 0 <= a < 2 ^ n -> Z.lor a (Z.shiftl b n) = a + b * 2 ^ n.
Proof.
  intros Hn Ha.
  pose proof (Z.add_lor_land a (Z.shiftl b n)) as Hadd.
  assert (H : Z.land a (Z.shiftl b n) = 0).
  { apply Z.bits_inj'. intros m Hm.
    rewrite Z.land_spec, Z.bits_0.
    destruct (Z.lt_ge_cases m n) as [Hlt|Hge].
    - rewrite (Z.shiftl_spec_low b n m Hlt). apply andb_false_r.
    - assert (Hz : Z.testbit a m = false).
      { destruct (Z.eq_dec a 0) as [->|Hne]; [apply Z.bits_0|].
        apply Z.bits_above_log2; [lia|].
        apply Z.log2_lt_pow2; [lia|].
        apply Z.lt_le_trans with (2 ^ n); [lia|].
        apply Z.pow_le_mono_r; lia. }
      rewrite Hz. reflexivity. }
  rewrite H in Hadd. rewrite Z.shiftl_mul_pow2 in * by lia. lia.
Qed.

Lemma byte_of_Z_land255 (y : Z) : byte_of_Z (Z.land y 255) = byte_of_Z y.
Proof.
  unfold byte_of_Z, u8. change 255 with (Z.ones 8).
  rewrite Z.land_ones by lia. change (2 ^ 8) with 256.
  rewrite Z.mod_mod by lia. reflexivity.
Qed.

Lemma map_nth_seq {A : Type} (l : list A) (d : A) :
  map (fun i => nth i l d) (seq 0 (length l)) = l.
Proof.
  apply nth_ext with (d := d) (d' := d).
  - rewrite length_map, length_seq. reflexivity.
  - intros n Hn. rewrite length_map, length_seq in Hn.
    rewrite (nth_indep _ d (nth 0 l d))
      by (rewrite length_map, length_seq; exact Hn).
    rewrite (map_nth (fun i => nth i l d) (seq 0 (length l)) 0%nat n).
    rewrite seq_nth by exact Hn. reflexivity.
Qed.

Lemma model_ok_parts (st : SymbolStats) :
  model_ok st ->
  length (freqs st) = 256%nat
  /\ (forall i, 0 <= nth i (freqs st) 0)
  /\ Zsum (freqs st) = 4096
  /\ cum_freqs st = prefix_sums 0 (freqs st).
Proof.
  unfold model_ok, model_okb. intros H.
  apply andb_true_iff in H. destruct H as [H Hcum].
  apply andb_true_iff in H. destruct H as [H Hsum].
  apply andb_true_iff in H. destruct H as [Hlen Hnn].
  apply Nat.eqb_eq in Hlen. apply Z.eqb_eq in Hsum. apply Zlist_eqb_eq in Hcum.
  repeat split; try assumption. apply forallb_nth_nonneg. exact Hnn.
Qed.

(** [Init(model_data)] reads back the table [GetModelData] wrote, and
    touches nothing else of the decoder. *)
Lemma Dec_Init_GetModelData (e : RansEncoderImpl) (d : RansDecoderImpl) :
  model_ok (enc_stats e) ->
  Dec_Init (GetModelData e) d
  = mkDec (dec_state d) (dec_data d) (ptr d) (enc_stats e).
Proof.
  intros Hm. destruct (model_ok_parts _ Hm) as (Hlen & Hnn & Hsum & Hcum).
  unfold Dec_Init. rewrite length_GetModelData.
  change (512 <? 512)%nat with false.
  assert (Hfs : map (fun i =>
                       Z.lor (byte_to_Z (nth (2 * i) (GetModelData e) x00))
                             (Z.shiftl (byte_to_Z (nth (2 * i + 1) (GetModelData e) x00)) 8))
                    (seq 0 256)
                = freqs (enc_stats e)).
  { transitivity (map (fun i => nth i (freqs (enc_stats e)) 0) (seq 0 256));
      [|rewrite <- Hlen; apply map_nth_seq].
    apply map_ext_in. intros i Hi. apply in_seq in Hi.
    rewrite lor_shiftl_add by (try lia; apply byte_to_Z_range).
    change (2 ^ 8) with 256. rewrite Z.mul_comm.
    apply GetModelData_entry; [lia|].
    pose proof (model_ok_freq_range (enc_stats e) i Hm). lia. }
  rewrite Hfs, <- Hcum. destruct (enc_stats e). reflexivity.
Qed.

(** X4.  The model crosses the container unchanged: [SetModel] on the
    bytes [GetModelData] produced from a valid model gives the decoder
    the encoder's tables, frequencies and cumulative frequencies, and
    leaves its state, data and read pointer as they were. *)
Theorem model_handover (e : RansEncoderImpl) (d : RansDecoderImpl) :
  model_ok (enc_stats e) ->
  let d' := Dec_Init (GetModelData e) d in
  dec_stats d' = enc_stats e
  /\ dec_state d' = dec_state d /\ dec_data d' = dec_data d /\ ptr d' = ptr d.
Proof.
  intros Hm. cbv zeta. rewrite (Dec_Init_GetModelData e d Hm).
  repeat split.
Qed.

(** The constructor on a flushed output: the four bytes [Flush] pushed
    are the state, least significant byte first. *)
Lemma Dec_new_Flush (uninit : SymbolStats) (e : RansEncoderImpl) :
  0 <= enc_state e < 2 ^ 32 ->
  let d := Dec_new uninit (GetOutput (Enc_Flush e)) in
  dec_state d = enc_state e
  /\ ptr d = length (enc_buffer e)
  /\ firstn (length (enc_buffer e)) (dec_data d) = enc_buffer e.
Proof.
  intros Hst. change (2 ^ 32) with 4294967296 in Hst.
  unfold Dec_new, GetOutput, Enc_Flush. cbn [enc_buffer].
  set (x := enc_state e) in *. set (buf := enc_buffer e).
  rewrite length_app. cbn [length].
  replace (4 <=? length buf + 4)%nat with true by (symmetry; apply Nat.leb_le; lia).
  cbv zeta. replace (length buf + 4 - 4)%nat with (length buf) by lia.
  cbn [dec_state ptr dec_data].
  split; [|split; [reflexivity|]].
  - rewrite !app_nth2 by lia.
    replace (length buf + 0 - length buf)%nat with 0%nat by lia.
    replace (length buf + 1 - length buf)%nat with 1%nat by lia.
    replace (length buf + 2 - length buf)%nat with 2%nat by lia.
    replace (length buf + 3 - length buf)%nat with 3%nat by lia.
    cbn [nth]. rewrite !byte_of_Z_land255.
    pose proof (rd32_le32 x Hst) as Hrd. unfold rd32, le32 in Hrd. cbn [nth] in Hrd.
    pose proof (byte_to_Z_range (byte_of_Z x)) as R0.
    pose proof (byte_to_Z_range (byte_of_Z (Z.shiftr x 8))) as R1.
    pose proof (byte_to_Z_range (byte_of_Z (Z.shiftr x 16))) as R2.
    pose proof (byte_to_Z_range (byte_of_Z (Z.shiftr x 24))) as R3.
    rewrite (lor_shiftl_add _ _ 8) by lia.
    rewrite (lor_shiftl_add _ _ 16) by (change (2 ^ 8) with 256; change (2 ^ 16) with 65536; lia).
    rewrite (lor_shiftl_add _ _ 24)
      by (change (2 ^ 8) with 256; change (2 ^ 16) with 65536;
          change (2 ^ 24) with 16777216; lia).
    change (2 ^ 8) with 256. change (2 ^ 16) with 65536. change (2 ^ 24) with 16777216.
    rewrite u32_small by lia. lia.
  - rewrite firstn_app, firstn_all, Nat.sub_diag. cbn [firstn]. apply app_nil_r.
Qed.

(** X5.  The state crosses the container unchanged: the decoder built
    on the flushed output of an encoder starts in the encoder's final
    state, with its read pointer just below the four state bytes, on
    the bytes the encoder had pushed. *)
Theorem state_handover (uninit : SymbolStats) (e : RansEncoderImpl) :
  0 <= enc_state e < 2 ^ 32 ->
  let d := Dec_new uninit (GetOutput (Enc_Flush e)) in
  dec_state d = enc_state e
  /\ ptr d = length (enc_buffer e)
  /\ firstn (ptr d) (dec_data d) = enc_buffer e.
Proof.
  intros Hst. cbv zeta.
  destruct (Dec_new_Flush uninit e Hst) as (H1 & H2 & H3).
  rewrite H2. split; [exact H1|]. split; [reflexivity|exact H3].
Qed.

(** The decoder built from what a flushed encoder hands over -- its
    output and its model -- stands where the encoder is. *)
Lemma positioned_handover (uninit : SymbolStats) (e : RansEncoderImpl) :
  model_ok (enc_stats e) -> 0 <= enc_state e < 2 ^ 32 ->
  positioned (Dec_Init (GetModelData (Enc_Flush e))
                (Dec_new uninit (GetOutput (Enc_Flush e)))) e.
Proof.
  intros Hm Hst.
  rewrite (Dec_Init_GetModelData (Enc_Flush e) _ Hm).
  destruct (Dec_new_Flush uninit e Hst) as (H1 & H2 & H3).
  unfold positioned. cbn [dec_state dec_stats ptr dec_data Enc_Flush enc_stats].
  split; [exact H1|]. split; [reflexivity|]. split; [exact H2|exact H3].
Qed.

End RansMore.

Section SymbolSearch.
Local Open Scope Z_scope.

Lemma model_ok_cum (st : SymbolStats) (i : nat) :
  model_ok st -> (i <= 256)%nat ->
  nth i (cum_freqs st) 0 = Zsum (firstn i (freqs st)).
Proof.
  intros Hm Hi. destruct (model_ok_parts _ Hm) as (Hlen & Hnn & Hsum & Hcum).
  rewrite Hcum, nth_prefix_sums by (try assumption; lia). lia.
Qed.

Lemma Zsum_firstn_mono (l : list Z) (i j : nat) :
  (forall k, 0 <= nth k l 0) -> (i <= j)%nat ->
  Zsum (firstn i l) <= Zsum (firstn j l).
Proof.
  intros Hnn Hij. revert i j Hij. induction l as [|a l IH]; intros i j Hij.
  - rewrite !firstn_nil. lia.
  - pose proof (Hnn 0%nat) as H0. cbn [nth] in H0.
    assert (Hl : forall k, 0 <= nth k l 0) by (intros k; apply (Hnn (S k))).
    destruct i as [|i]; destruct j as [|j]; try lia; cbn [firstn Zsum fold_right].
    + fold (Zsum (firstn j l)).
      pose proof (Zsum_firstn_le l j Hl). lia.
    + fold (Zsum (firstn i l)). fold (Zsum (firstn j l)).
      specialize (IH Hl i j ltac:(lia)). lia.
Qed.

Lemma model_ok_cum_mono (st : SymbolStats) (i j : nat) :
  model_ok st -> (i <= j)%nat -> (j <= 256)%nat ->
  nth i (cum_freqs st) 0 <= nth j (cum_freqs st) 0.
Proof.
  intros Hm Hij Hj. rewrite !model_ok_cum by (try assumption; lia).
  apply Zsum_firstn_mono; [|exact Hij].
  apply (model_ok_parts _ Hm).
Qed.

(** The search returns the first index whose upper bound is above the
    slot. *)
Lemma find_symbol_first (cum : list Z) (slot : Z) :
  forall n i,
    (i + S n = 256)%nat ->
    slot < nth 256 cum 0 ->
    let r := find_symbol cum slot i (S n) in
    (i <= r < 256)%nat
    /\ slot < nth (r + 1) cum 0
    /\ (forall j, (i <= j < r)%nat -> nth (j + 1) cum 0 <= slot).
Proof.
  induction n as [|n IH]; intros i Hin Htop; cbv zeta.
  - cbn [find_symbol].
    replace (i + 1)%nat with 256%nat by lia.
    replace (slot <? nth 256 cum 0) with true by (symmetry; apply Z.ltb_lt; exact Htop).
    split; [lia|]. split; [replace (i + 1)%nat with 256%nat by lia; exact Htop|].
    intros j Hj. lia.
  - change (find_symbol cum slot i (S (S n)))
      with (if slot <? nth (i + 1) cum 0 then i
            else find_symbol cum slot (S i) (S n)).
    destruct (slot <? nth (i + 1) cum 0) eqn:E.
    + apply Z.ltb_lt in E. split; [lia|]. split; [exact E|]. intros j Hj. lia.
    + apply Z.ltb_ge in E.
      destruct (IH (S i) ltac:(lia) Htop) as (Hr & Hlt & Hall).
      split; [lia|]. split; [exact Hlt|].
      intros j Hj. destruct (Nat.eq_dec j i) as [->|Hne]; [exact E|].
      apply Hall. lia.
Qed.

Lemma land_slot (x : Z) : 0 <= Z.land x (PROB_SCALE - 1) < 4096
                          /\ Z.land x (PROB_SCALE - 1) = x mod 4096.
Proof.
  change (PROB_SCALE - 1) with (Z.ones 12). rewrite Z.land_ones by lia.
  change (2 ^ 12) with 4096. split; [apply Z.mod_pos_bound; lia|reflexivity].
Qed.

(** Under a valid model the search finds the symbol whose slot range
    holds the slot. *)
Lemma find_symbol_range (st : SymbolStats) (slot : Z) :
  model_ok st -> 0 <= slot < 4096 ->
  let r := find_symbol (cum_freqs st) slot 0 256 in
  (r < 256)%nat
  /\ nth r (cum_freqs st) 0 <= slot < nth r (cum_freqs st) 0 + nth r (freqs st) 0.
Proof.
  intros Hm Hslot.
  assert (Htop : nth 256 (cum_freqs st) 0 = 4096).
  { destruct (model_ok_parts _ Hm) as (Hlen & _ & Hsum & _).
    rewrite model_ok_cum by (try assumption; lia).
    rewrite <- Hlen, firstn_all. exact Hsum. }
  destruct (find_symbol_first (cum_freqs st) slot 255 0 eq_refl ltac:(lia))
    as (Hr & Hlt & Hall).
  cbv zeta. set (r := find_symbol (cum_freqs st) slot 0 256) in *.
  destruct (model_ok_symbol st r Hm ltac:(lia)) as (Hf & Hc & Hnext & _).
  replace (r + 1)%nat with (S r) in Hlt by lia. rewrite Hnext in Hlt.
  split; [lia|]. split; [|exact Hlt].
  destruct r as [|r'].
  - rewrite model_ok_cum by (try assumption; lia). cbn. lia.
  - specialize (Hall r' ltac:(lia)).
    replace (r' + 1)%nat with (S r') in Hall by lia. exact Hall.
Qed.

(** The slot ranges of a valid model do not overlap: a slot lies in the
    range of one symbol only. *)
Lemma slot_range_unique (st : SymbolStats) (slot : Z) (a b : nat) :
  model_ok st -> (a < 256)%nat -> (b < 256)%nat ->
  nth a (cum_freqs st) 0 <= slot < nth a (cum_freqs st) 0 + nth a (freqs st) 0 ->
  nth b (cum_freqs st) 0 <= slot < nth b (cum_freqs st) 0 + nth b (freqs st) 0 ->
  a = b.
Proof.
  intros Hm Ha Hb Hra Hrb.
  destruct (model_ok_symbol st a Hm Ha) as (_ & _ & Hna & _).
  destruct (model_ok_symbol st b Hm Hb) as (_ & _ & Hnb & _).
  destruct (Nat.lt_trichotomy a b) as [Hlt|[Heq|Hgt]]; [|exact Heq|].
  - pose proof (model_ok_cum_mono st (S a) b Hm ltac:(lia) ltac:(lia)). lia.
  - pose proof (model_ok_cum_mono st (S b) a Hm ltac:(lia) ltac:(lia)). lia.
Qed.

Lemma byte_nat_roundtrip (n : nat) :
  (n < 256)%nat -> byte_to_nat (byte_of_Z (Z.of_nat n)) = n.
Proof.
  intros Hn. unfold byte_to_nat.
  rewrite Byte.to_nat_via_N.
  pose proof (byte_to_of_Z (Z.of_nat n)) as H. unfold byte_to_Z, u8 in H.
  rewrite Z.mod_small in H by lia. lia.
Qed.

(** X6.  The symbol [Decode] returns is in the model.  Under a valid
    model, whatever the state, the symbol returned is the one whose
    slot range [[cum, cum + freq)] holds the low 12 bits of the state;
    its frequency is at least 1. *)
Theorem decode_symbol_in_model (d : RansDecoderImpl) :
  model_ok (dec_stats d) ->
  let s := byte_to_nat (fst (Decode d)) in
  let slot := Z.land (dec_state d) (PROB_SCALE - 1) in
  nth s (cum_freqs (dec_stats d)) 0 <= slot
                                    < nth s (cum_freqs (dec_stats d)) 0
                                      + nth s (freqs (dec_stats d)) 0
  /\ 1 <= nth s (freqs (dec_stats d)) 0.
Proof.
  intros Hm. cbv zeta.
  destruct (land_slot (dec_state d)) as [Hslot _].
  destruct (find_symbol_range (dec_stats d) _ Hm Hslot) as (Hr & Hrange).
  unfold Decode.
  destruct (renorm_in _ _ _) as [st p]. cbn [fst].
  rewrite byte_nat_roundtrip by exact Hr.
  split; [exact Hrange|lia].
Qed.

(** X7.  A symbol of frequency 0 cannot be encoded: the renormalisation
    bound is then 0, the loop of [Encode] never exits -- whatever the
    number of rounds it is given -- and [Encode] does not return. *)
Theorem encode_zero_frequency (s : byte) (e : RansEncoderImpl) :
  nth (byte_to_nat s) (freqs (enc_stats e)) 0 = 0 ->
  0 <= enc_state e ->
  Encode s e = None
  /\ forall fuel,
       renorm_out fuel
         (u32 (Z.shiftl 1 (31 - PROB_BITS) * nth (byte_to_nat s) (freqs (enc_stats e)) 0))
         (enc_state e) (enc_buffer e) = None.
Proof.
  intros Hf Hst. unfold Encode. rewrite Hf.
  change (u32 (Z.shiftl 1 (31 - PROB_BITS) * 0)) with 0.
  split.
  - rewrite renorm_out_diverges by exact Hst. reflexivity.
  - intros fuel. apply renorm_out_diverges. exact Hst.
Qed.

End SymbolSearch.

(** ** rans.cpp: what [Decode] undoes of [Encode] *)

Section RansInverse.
Local Open Scope Z_scope.

(** [Encode] written out: the state after the renormalisation loop, the
    update without wrap-around. *)
Lemma Encode_explicit (e : RansEncoderImpl) (s : byte) :
  let f := nth (byte_to_nat s) (freqs (enc_stats e)) 0 in
  let c := nth (byte_to_nat s) (cum_freqs (enc_stats e)) 0 in
  1 <= f -> 0 <= c -> c + f <= PROB_SCALE ->
  RANS_L <= enc_state e < 4294967296 ->
  exists st buf,
    renorm_out 5 (524288 * f) (enc_state e) (enc_buffer e) = Some (st, buf)
    /\ 0 <= st < 524288 * f
    /\ Encode s e = Some (mkEnc (st / f * 4096 + st mod f + c) buf (enc_stats e)).
Proof.
  intros f c Hf Hc Hcf Hst.
  change PROB_SCALE with 4096 in Hcf. change RANS_L with 65536 in Hst.
  unfold Encode. fold f. fold c.
  change (Z.shiftl 1 (31 - PROB_BITS)) with 524288.
  rewrite (u32_small (524288 * f)) by lia.
  destruct (renorm_out_exits (524288 * f) 4 (enc_state e) (enc_buffer e))
    as (st & buf & Hr & Hlt & Hcase & Hlen).
  { change (256 ^ Z.of_nat 4) with 4294967296. lia. }
  exists st, buf. split; [exact Hr|]. split; [exact Hlt|].
  rewrite Hr.
  replace (f =? 0) with false by (symmetry; apply Z.eqb_neq; lia).
  rewrite Z.shiftl_mul_pow2 by (unfold PROB_BITS; lia).
  change (2 ^ PROB_BITS) with 4096.
  assert (Hq_hi : st / f < 524288) by (apply Z.div_lt_upper_bound; lia).
  assert (Hq_lo : 0 <= st / f) by (apply Z.div_pos; lia).
  pose proof (Z.mod_pos_bound st f ltac:(lia)) as Hm.
  rewrite (u32_small (st / f * 4096)) by lia.
  rewrite u32_small by lia. reflexivity.
Qed.

(** The symbol and the state before the refill that [Decode] computes
    from a state [q * 4096 + m + cum[s]] with [m < freq[s]]: it is the
    symbol [s], and the state [q * freq[s] + m]. *)
Lemma Decode_update (d : RansDecoderImpl) (s : byte) (q m : Z) :
  let f := nth (byte_to_nat s) (freqs (dec_stats d)) 0 in
  let c := nth (byte_to_nat s) (cum_freqs (dec_stats d)) 0 in
  model_ok (dec_stats d) ->
  0 <= q < 1048576 -> 0 <= m < f ->
  dec_state d = q * 4096 + m + c ->
  Decode d
  = (s, let (st, p) := renorm_in (dec_data d) (ptr d) (q * f + m) in
        mkDec st (dec_data d) p (dec_stats d)).
Proof.
  intros f c Hm Hq Hmf Hst.
  pose proof (byte_to_nat_lt s) as Hs.
  destruct (model_ok_symbol (dec_stats d) (byte_to_nat s) Hm Hs)
    as (Hf0 & Hc0 & Hnext & Htop).
  rewrite Hnext in Htop. change PROB_SCALE with 4096 in Htop.
  fold f in Hf0, Htop. fold c in Hc0, Htop.
  assert (Hmc : 0 <= m + c < 4096) by lia.
  destruct (land_slot (dec_state d)) as [Hslot Hland].
  assert (Hslot_eq : Z.land (dec_state d) (PROB_SCALE - 1) = m + c).
  { rewrite Hland, Hst.
    replace (q * 4096 + m + c) with (m + c + q * 4096) by lia.
    rewrite Z.mod_add by lia. apply Z.mod_small. lia. }
  destruct (find_symbol_range (dec_stats d) (m + c) Hm Hmc) as (Hr & Hrange).
  assert (Hsym : find_symbol (cum_freqs (dec_stats d)) (m + c) 0 256 = byte_to_nat s).
  { apply (slot_range_unique (dec_stats d) (m + c)); try assumption.
    fold f. fold c. lia. }
  assert (Hshift : Z.shiftr (dec_state d) PROB_BITS = q).
  { rewrite Z.shiftr_div_pow2 by (unfold PROB_BITS; lia).
    change (2 ^ PROB_BITS) with 4096. rewrite Hst.
    replace (q * 4096 + m + c) with (m + c + q * 4096) by lia.
    rewrite Z.div_add by lia. rewrite Z.div_small by lia. lia. }
  unfold Decode. rewrite Hslot_eq, Hsym, Hshift. fold f. fold c.
  replace (q * f + (m + c) - c) with (q * f + m) by lia.
  rewrite u32_small by nia.
  destruct (renorm_in (dec_data d) (ptr d) (q * f + m)) as [st p].
  f_equal.
  transitivity (byte_of_Z (byte_to_Z s)); [|apply byte_of_to_Z].
  f_equal. unfold byte_to_nat, byte_to_Z. rewrite Byte.to_nat_via_N. lia.
Qed.

(** No refill from a state that is at least [RANS_L]. *)
Lemma renorm_in_none (data : list byte) (p : nat) (state : Z) :
  RANS_L <= state -> renorm_in data p state = (state, p).
Proof.
  intros H. destruct p as [|p]; cbn [renorm_in]; [reflexivity|].
  replace (state <? RANS_L) with false by (symmetry; apply Z.ltb_ge; exact H).
  reflexivity.
Qed.

(** One shift of the encoder's loop, from a state below [2^24]. *)
Lemma renorm_out_once (x_max state : Z) (buffer : list byte) :
  65536 <= x_max -> x_max <= state < 16777216 ->
  renorm_out 5 x_max state buffer
  = Some (Z.shiftr state 8, buffer ++ [byte_of_Z (Z.land state 255)])
  /\ 0 <= Z.shiftr state 8 < 65536.
Proof.
  intros Hx Hs.
  assert (Hsh : 0 <= Z.shiftr state 8 < 65536).
  { rewrite Z.shiftr_div_pow2 by lia. change (2 ^ 8) with 256.
    split; [apply Z.div_pos; lia|apply Z.div_lt_upper_bound; lia]. }
  split; [|exact Hsh].
  change (renorm_out 5 x_max state buffer)
    with (if x_max <=? state
          then renorm_out 4 x_max (Z.shiftr state 8)
                 (buffer ++ [byte_of_Z (Z.land state 255)])
          else Some (state, buffer)).
  replace (x_max <=? state) with true by (symmetry; apply Z.leb_le; lia).
  change (renorm_out 4 x_max (Z.shiftr state 8) (buffer ++ [byte_of_Z (Z.land state 255)]))
    with (if x_max <=? Z.shiftr state 8
          then renorm_out 3 x_max (Z.shiftr (Z.shiftr state 8) 8)
                 ((buffer ++ [byte_of_Z (Z.land state 255)])
                    ++ [byte_of_Z (Z.land (Z.shiftr state 8) 255)])
          else Some (Z.shiftr state 8, buffer ++ [byte_of_Z (Z.land state 255)])).
  replace (x_max <=? Z.shiftr state 8) with false by (symmetry; apply Z.leb_gt; lia).
  reflexivity.
Qed.

(** No shift of the encoder's loop below the bound. *)
Lemma renorm_out_none (x_max state : Z) (buffer : list byte) :
  state < x_max -> renorm_out 5 x_max state buffer = Some (state, buffer).
Proof.
  intros H.
  change (renorm_out 5 x_max state buffer)
    with (if x_max <=? state
          then renorm_out 4 x_max (Z.shiftr state 8)
                 (buffer ++ [byte_of_Z (Z.land state 255)])
          else Some (state, buffer)).
  replace (x_max <=? state) with false by (symmetry; apply Z.leb_gt; lia).
  reflexivity.
Qed.

Lemma firstn_snoc {A : Type} (l a : list A) (b d : A) :
  firstn (S (length a)) l = a ++ [b] ->
  nth (length a) l d = b /\ firstn (length a) l = a.
Proof.
  revert l. induction a as [|x a IH]; intros l H.
  - destruct l as [|y l]; cbn in H; [discriminate|].
    injection H as ->. split; reflexivity.
  - destruct l as [|y l]; [cbn in H; discriminate|].
    cbn [length firstn app] in H. injection H as -> H.
    destruct (IH l H) as [H1 H2]. cbn [length nth firstn].
    split; [exact H1|rewrite H2; reflexivity].
Qed.

(** One refill of the decoder's loop rebuilds the state the encoder
    shifted once, when that state was below [2^24]. *)
Lemma refill_once (data : list byte) (buffer : list byte) (state : Z) :
  65536 <= state < 16777216 ->
  firstn (S (length buffer)) data = buffer ++ [byte_of_Z (Z.land state 255)] ->
  renorm_in data (S (length buffer)) (Z.shiftr state 8) = (state, length buffer)
  /\ firstn (length buffer) data = buffer.
Proof.
  intros Hs Hd.
  destruct (firstn_snoc data buffer _ x00 Hd) as [Hnth Hpre].
  split; [|exact Hpre].
  assert (Hsh : 0 <= Z.shiftr state 8 < 65536).
  { rewrite Z.shiftr_div_pow2 by lia. change (2 ^ 8) with 256.
    split; [apply Z.div_pos; lia|apply Z.div_lt_upper_bound; lia]. }
  cbn [renorm_in]. change RANS_L with 65536.
  replace (Z.shiftr state 8 <? 65536) with true by (symmetry; apply Z.ltb_lt; lia).
  rewrite Hnth.
  assert (Hnew : Z.lor (u32 (Z.shiftl (Z.shiftr state 8) 8))
                       (byte_to_Z (byte_of_Z (Z.land state 255))) = state).
  { rewrite byte_of_Z_land255, byte_to_of_Z. unfold u8.
    rewrite Z.shiftl_mul_pow2 by lia. change (2 ^ 8) with 256.
    rewrite u32_small by lia.
    rewrite Z.lor_comm.
    pose proof (Z.mod_pos_bound state 256 ltac:(lia)) as Hmod.
    replace (Z.shiftr state 8 * 256) with (Z.shiftl (Z.shiftr state 8) 8)
      by (rewrite Z.shiftl_mul_pow2 by lia; reflexivity).
    rewrite lor_shiftl_add by (change (2 ^ 8) with 256; lia).
    change (2 ^ 8) with 256.
    rewrite Z.shiftr_div_pow2 by lia. change (2 ^ 8) with 256.
    pose proof (Z.div_mod state 256 ltac:(lia)). lia. }
  rewrite Hnew. apply renorm_in_none. change RANS_L with 65536. lia.
Qed.

(** One [Decode] after one [Encode].  The decoder standing where the
    encoder is after [Encode(s)] returns [s]; when the renormalisation
    of that [Encode] is one the refill undoes, the decoder then stands
    where the encoder was before the call. *)
Lemma Decode_Encode (e e' : RansEncoderImpl) (s : byte) (d : RansDecoderImpl) :
  model_ok (enc_stats e) ->
  1 <= nth (byte_to_nat s) (freqs (enc_stats e)) 0 ->
  RANS_L <= enc_state e < 4294967296 ->
  Encode s e = Some e' ->
  positioned d e' ->
  fst (Decode d) = s
  /\ dec_data (snd (Decode d)) = dec_data d
  /\ (renorm_undone s e = true -> positioned (snd (Decode d)) e).
Proof.
  intros Hm Hf Hst He (Hds & Hdm & Hdp & Hdd).
  pose proof (byte_to_nat_lt s) as Hs.
  destruct (model_ok_symbol (enc_stats e) (byte_to_nat s) Hm Hs)
    as (Hf0 & Hc0 & Hnext & Htop).
  rewrite Hnext in Htop.
  destruct (Encode_explicit e s Hf Hc0 Htop Hst) as (st & buf & Hr & Hlt & Henc).
  rewrite Henc in He. injection He as <-.
  cbn [enc_state enc_buffer enc_stats] in Hds, Hdm, Hdp, Hdd.
  set (f := nth (byte_to_nat s) (freqs (enc_stats e)) 0) in *.
  set (c := nth (byte_to_nat s) (cum_freqs (enc_stats e)) 0) in *.
  assert (Hq : 0 <= st / f < 1048576).
  { split; [apply Z.div_pos; lia|apply Z.div_lt_upper_bound; lia]. }
  pose proof (Z.mod_pos_bound st f ltac:(lia)) as Hmod.
  assert (Hdec := Decode_update d s (st / f) (st mod f)).
  cbv zeta in Hdec. rewrite Hdm in Hdec. fold f in Hdec. fold c in Hdec.
  specialize (Hdec Hm Hq Hmod Hds).
  assert (Hback : st / f * f + st mod f = st)
    by (pose proof (Z.div_mod st f ltac:(lia)); lia).
  rewrite Hback in Hdec. rewrite Hdec.
  destruct (renorm_in (dec_data d) (ptr d) st) as [st1 p1] eqn:Hin.
  cbn [fst snd dec_data]. split; [reflexivity|]. split; [reflexivity|].
  intros Hu. unfold renorm_undone in Hu. fold f in Hu.
  change (Z.shiftl 1 (31 - PROB_BITS)) with 524288 in Hu.
  change PROB_SCALE with 4096 in Htop. change RANS_L with 65536 in Hst.
  rewrite (u32_small (524288 * f)) in Hu by lia.
  unfold positioned. cbn [dec_state dec_stats ptr dec_data].
  destruct (enc_state e <? 524288 * f) eqn:Hlow.
  - apply Z.ltb_lt in Hlow.
    rewrite (renorm_out_none _ _ _ Hlow) in Hr. injection Hr as <- <-.
    rewrite renorm_in_none in Hin by (change RANS_L with 65536; lia).
    injection Hin as <- <-.
    split; [reflexivity|]. split; [reflexivity|]. split; [exact Hdp|exact Hdd].
  - apply Z.ltb_ge in Hlow. cbn [orb] in Hu. apply Z.ltb_lt in Hu.
    destruct (renorm_out_once (524288 * f) (enc_state e) (enc_buffer e)
                ltac:(lia) ltac:(lia)) as [Hout _].
    rewrite Hout in Hr. injection Hr as <- <-.
    rewrite length_app in Hdp, Hdd. cbn [length] in Hdp, Hdd.
    replace (length (enc_buffer e) + 1)%nat with (S (length (enc_buffer e))) in Hdp, Hdd by lia.
    destruct (refill_once (dec_data d) (enc_buffer e) (enc_state e) ltac:(lia) Hdd)
      as [Hre Hpre].
    rewrite Hdp, Hre in Hin. injection Hin as <- <-.
    split; [reflexivity|]. split; [reflexivity|]. split; [reflexivity|exact Hpre].
Qed.

End RansInverse.

Section RansReversal.
Local Open Scope Z_scope.

Lemma Encode_Some_freq (e e' : RansEncoderImpl) (s : byte) :
  model_ok (enc_stats e) -> Encode s e = Some e' ->
  1 <= nth (byte_to_nat s) (freqs (enc_stats e)) 0.
Proof.
  intros Hm He. unfold Encode in He.
  pose proof (model_ok_freq_range (enc_stats e) (byte_to_nat s) Hm) as Hr.
  destruct (renorm_out _ _ _ _) as [[st buf]|]; [|discriminate].
  destruct (nth (byte_to_nat s) (freqs (enc_stats e)) 0 =? 0) eqn:E; [discriminate|].
  apply Z.eqb_neq in E. lia.
Qed.

Lemma DecodeMany_snoc (n : nat) :
  forall d,
    DecodeMany (S n) d
    = (fst (DecodeMany n d) ++ [fst (Decode (snd (DecodeMany n d)))],
       snd (Decode (snd (DecodeMany n d)))).
Proof.
  induction n as [|n IH]; intros d.
  - cbn [DecodeMany fst snd app]. destruct (Decode d) as [s d1]. reflexivity.
  - change (DecodeMany (S (S n)) d)
      with (let (s, d1) := Decode d in
            let (ss, d2) := DecodeMany (S n) d1 in (s :: ss, d2)).
    change (DecodeMany (S n) d)
      with (let (s, d1) := Decode d in
            let (ss, d2) := DecodeMany n d1 in (s :: ss, d2)).
    destruct (Decode d) as [s d1]. rewrite (IH d1).
    destruct (DecodeMany n d1) as [ss d2]. cbn [fst snd app]. reflexivity.
Qed.

(** The run of [Encode] calls and the run of [Decode] calls that
    follows it, side by side. *)
Lemma DecodeMany_EncodeAll (symbols : list byte) :
  forall e e' d,
    model_ok (enc_stats e) ->
    RANS_L <= enc_state e < 4294967296 ->
    in_sync symbols e = true ->
    EncodeAll symbols e = Some e' ->
    positioned d e' ->
    fst (DecodeMany (length symbols) d) = rev symbols
    /\ positioned (snd (DecodeMany (length symbols) d)) e.
Proof.
  induction symbols as [|s rest IH]; intros e e' d Hm Hst Hsync Hall Hpos.
  - cbn [EncodeAll] in Hall. injection Hall as <-.
    cbn [length DecodeMany fst snd rev]. split; [reflexivity|exact Hpos].
  - cbn [in_sync] in Hsync. apply andb_true_iff in Hsync. destruct Hsync as [Hu Hsync].
    cbn [EncodeAll] in Hall.
    destruct (Encode s e) as [e1|] eqn:He1; [|discriminate].
    pose proof (Encode_Some_freq e e1 s Hm He1) as Hf.
    destruct (model_ok_symbol _ _ Hm (byte_to_nat_lt s)) as (_ & Hc & Hnext & Hle).
    rewrite Hnext in Hle.
    destruct (Encode_step e s Hf Hc Hle Hst) as (e1' & He1' & Hst1 & Hstats1 & _).
    rewrite He1 in He1'. injection He1' as <-.
    assert (Hm1 : model_ok (enc_stats e1)) by (rewrite Hstats1; exact Hm).
    destruct (IH e1 e' d Hm1 ltac:(lia) Hsync Hall Hpos) as [Hsyms Hpos1].
    cbn [length]. rewrite DecodeMany_snoc. cbn [fst snd rev].
    destruct (Decode_Encode e e1 s _ Hm Hf Hst He1 Hpos1) as (Hs & _ & Hback).
    rewrite Hsyms, Hs. split; [reflexivity|exact (Hback Hu)].
Qed.

Lemma in_sync_EncodeAll (symbols : list byte) :
  forall e,
    model_ok (enc_stats e) ->
    RANS_L <= enc_state e < 4294967296 ->
    in_sync symbols e = true ->
    exists e', EncodeAll symbols e = Some e'
               /\ enc_stats e' = enc_stats e
               /\ RANS_L <= enc_state e' < 4294967296.
Proof.
  induction symbols as [|s rest IH]; intros e Hm Hst Hsync.
  - exists e. cbn [EncodeAll]. split; [reflexivity|]. split; [reflexivity|exact Hst].
  - cbn [in_sync] in Hsync. apply andb_true_iff in Hsync. destruct Hsync as [_ Hsync].
    cbn [EncodeAll].
    destruct (Encode s e) as [e1|] eqn:He1; [|discriminate].
    pose proof (Encode_Some_freq e e1 s Hm He1) as Hf.
    destruct (model_ok_symbol _ _ Hm (byte_to_nat_lt s)) as (_ & Hc & Hnext & Hle).
    rewrite Hnext in Hle.
    destruct (Encode_step e s Hf Hc Hle Hst) as (e1' & He1' & Hst1 & Hstats1 & _).
    rewrite He1 in He1'. injection He1' as <-.
    assert (Hm1 : model_ok (enc_stats e1)) by (rewrite Hstats1; exact Hm).
    destruct (IH e1 Hm1 ltac:(lia) Hsync) as (e' & He' & Hstats & Hst').
    exists e'. split; [exact He'|]. split; [congruence|exact Hst'].
Qed.

(** X8.  The last symbol encoded is always the first one decoded.  For
    a symbol of frequency at least 1 under a valid model, the decoder
    built from the flushed encoder returns that symbol at its first
    [Decode], from whatever state in [[RANS_L, 2^32)] the encoder took
    it: the mismatch between the two renormalisation bounds never
    touches the symbol decoded first, only the state left for the
    next. *)
Theorem last_symbol_decoded_first (uninit : SymbolStats)
        (e e' : RansEncoderImpl) (s : byte) :
  model_ok (enc_stats e) ->
  RANS_L <= enc_state e < 2 ^ 32 ->
  Encode s e = Some e' ->
  fst (Decode (Dec_Init (GetModelData (Enc_Flush e'))
                 (Dec_new uninit (GetOutput (Enc_Flush e'))))) = s.
Proof.
  intros Hm Hst He. change (2 ^ 32) with 4294967296 in Hst.
  pose proof (Encode_Some_freq e e' s Hm He) as Hf.
  destruct (model_ok_symbol _ _ Hm (byte_to_nat_lt s)) as (_ & Hc & Hnext & Hle).
  rewrite Hnext in Hle.
  destruct (Encode_step e s Hf Hc Hle Hst) as (e1 & He1 & Hst1 & Hstats1 & _).
  rewrite He in He1. injection He1 as <-.
  assert (Hpos : positioned (Dec_Init (GetModelData (Enc_Flush e'))
                               (Dec_new uninit (GetOutput (Enc_Flush e')))) e').
  { apply positioned_handover; [rewrite Hstats1; exact Hm|].
    change (2 ^ 32) with 4294967296. change RANS_L with 65536 in Hst1. lia. }
  destruct (Decode_Encode e e' s _ Hm Hf Hst He Hpos) as (Hs & _). exact Hs.
Qed.



End RansReversal.

(** ** compressor.cpp: what [FindLongestMatch] finds *)

Section MatchSearch.

Variable data : list byte.

Lemma byte_eqb_eq (a b : byte) : byte_eqb a b = true <-> a = b.
Proof.
  unfold byte_eqb. split; [apply Byte.byte_dec_bl|apply Byte.byte_dec_lb].
Qed.

(** The bytes the inner loop has counted are equal. *)
Lemma match_length_eq (pos limit i : nat) :
  forall rounds len k,
    len <= k < match_length data pos limit i len rounds ->
    nth (i + k) data x00 = nth (pos + k) data x00.
Proof.
  induction rounds as [|rounds IH]; intros len k Hk; cbn [match_length] in Hk.
  - lia.
  - destruct ((pos + len <? limit) && (i + len <? pos)
              && byte_eqb (nth (i + len) data x00) (nth (pos + len) data x00)) eqn:E.
    + apply andb_true_iff in E. destruct E as [_ E]. apply byte_eqb_eq in E.
      destruct (Nat.eq_dec k len) as [->|Hne]; [exact E|].
      apply (IH (S len)). lia.
    + lia.
Qed.

(** The inner loop counts every repeat that fits: one that ends before
    [pos] and before [limit]. *)
Lemma match_length_maximal (pos limit i n : nat) :
  i + n <= pos -> pos + n <= limit ->
  (forall k, k < n -> nth (i + k) data x00 = nth (pos + k) data x00) ->
  n <= match_length data pos limit i 0 (pos - i).
Proof.
  intros Hi Hlim Heq.
  pose proof (match_length_exit data pos limit i (pos - i) 0 ltac:(lia)) as Hexit.
  cbv zeta in Hexit.
  set (r := match_length data pos limit i 0 (pos - i)) in *.
  destruct (Nat.le_gt_cases n r) as [Hle|Hgt]; [exact Hle|].
  exfalso.
  replace (pos + r <? limit) with true in Hexit by (symmetry; apply Nat.ltb_lt; lia).
  replace (i + r <? pos) with true in Hexit by (symmetry; apply Nat.ltb_lt; lia).
  rewrite (Heq r Hgt) in Hexit. cbn [andb] in Hexit.
  assert (Ht : byte_eqb (nth (pos + r) data x00) (nth (pos + r) data x00) = true)
    by (apply byte_eqb_eq; reflexivity).
  congruence.
Qed.

(** The search loop keeps the first of the longest counts: its result
    is the pair it started with, or the count at some start [j] that
    beats the pair it started with and every start before [j]; no
    count is above it. *)
Lemma search_first_longest (pos limit : nat) :
  forall n i max_len best_dist,
    let r := search data pos limit i n max_len best_dist in
    max_len <= fst r
    /\ (forall j, i <= j < i + n ->
          match_length data pos limit j 0 (pos - j) <= fst r)
    /\ (r = (max_len, best_dist)
        \/ exists j, i <= j < i + n
                     /\ fst r = match_length data pos limit j 0 (pos - j)
                     /\ snd r = pos - j
                     /\ max_len < fst r
                     /\ forall j', i <= j' < j ->
                          match_length data pos limit j' 0 (pos - j') < fst r).
Proof.
  induction n as [|n IH]; intros i max_len best_dist; cbv zeta; cbn [search].
  - cbn [fst]. split; [lia|]. split; [intros j Hj; lia|]. left. reflexivity.
  - set (len := match_length data pos limit i 0 (pos - i)).
    destruct (max_len <? len) eqn:E.
    + apply Nat.ltb_lt in E.
      specialize (IH (S i) len (pos - i)). cbv zeta in IH.
      destruct IH as (Hge & Hall & Hsrc).
      set (r := search data pos limit (S i) n len (pos - i)) in *.
      split; [lia|]. split.
      * intros j Hj. destruct (Nat.eq_dec j i) as [->|Hne]; [exact Hge|].
        apply Hall. lia.
      * right. destruct Hsrc as [Hsame|(j & Hj & Hlen & Hdist & Hgt & Hbefore)].
        -- exists i. rewrite Hsame. cbn [fst snd].
           split; [lia|]. split; [reflexivity|]. split; [reflexivity|].
           split; [exact E|]. intros j' Hj'. lia.
        -- exists j. split; [lia|]. split; [exact Hlen|]. split; [exact Hdist|].
           split; [lia|]. intros j' Hj'.
           destruct (Nat.eq_dec j' i) as [->|Hne]; [exact Hgt|].
           apply Hbefore. lia.
    + apply Nat.ltb_ge in E.
      specialize (IH (S i) max_len best_dist). cbv zeta in IH.
      destruct IH as (Hge & Hall & Hsrc).
      set (r := search data pos limit (S i) n max_len best_dist) in *.
      split; [exact Hge|]. split.
      * intros j Hj. destruct (Nat.eq_dec j i) as [->|Hne]; [fold len; lia|].
        apply Hall. lia.
      * destruct Hsrc as [Hsame|(j & Hj & Hlen & Hdist & Hgt & Hbefore)].
        -- left. exact Hsame.
        -- right. exists j. split; [lia|]. split; [exact Hlen|]. split; [exact Hdist|].
           split; [exact Hgt|]. intros j' Hj'.
           destruct (Nat.eq_dec j' i) as [->|Hne]; [fold len; lia|].
           apply Hbefore. lia.
Qed.

(** The result of [FindLongestMatch] read off the search. *)
Lemma FindLongestMatch_search (pos window_size : nat) :
  let limit := Nat.min (length data) (pos + 255) in
  let lo := pos - window_size in
  let m := FindLongestMatch data pos window_size in
  (forall j, lo <= j < pos ->
     match_length data pos limit j 0 (pos - j) <= Nat.max 2 (Match.length m))
  /\ (3 <= Match.length m ->
      exists j, lo <= j < pos
                /\ Match.length m = match_length data pos limit j 0 (pos - j)
                /\ Match.distance m = pos - j
                /\ forall j', lo <= j' < j ->
                     match_length data pos limit j' 0 (pos - j') < Match.length m).
Proof.
  cbv zeta. unfold FindLongestMatch.
  replace (Nat.max 0 (pos - window_size)) with (pos - window_size) by lia.
  set (limit := Nat.min (length data) (pos + 255)).
  set (lo := pos - window_size).
  pose proof (search_first_longest pos limit (pos - lo) lo 0 0) as H.
  cbv zeta in H. destruct H as (_ & Hall & Hsrc).
  destruct (search data pos limit lo (pos - lo) 0 0) as [max_len best_dist].
  cbn [fst snd] in Hall, Hsrc.
  destruct (max_len <? 3) eqn:E; cbn [Match.length Match.distance].
  - apply Nat.ltb_lt in E. split; [|lia].
    intros j Hj. specialize (Hall j ltac:(lia)). lia.
  - apply Nat.ltb_ge in E. split.
    + intros j Hj. specialize (Hall j ltac:(lia)). lia.
    + intros _. destruct Hsrc as [Hsame|(j & Hj & Hlen & Hdist & Hgt & Hbefore)].
      * injection Hsame as -> _. lia.
      * exists j. split; [lia|]. split; [exact Hlen|]. split; [exact Hdist|].
        intros j' Hj'. apply Hbefore. lia.
Qed.

(** X10.  A match is a repeat.  At a position of an input within the
    [int] range, the bytes the match reported by [FindLongestMatch]
    covers are the bytes that stand [distance] positions before them:
    [data[pos + k] == data[pos - distance + k]] for every [k < length]. *)
Theorem match_is_repeat (pos window_size : nat) :
  input_ok data -> pos <= length data ->
  let m := FindLongestMatch data pos window_size in
  forall k, k < Match.length m ->
    nth (pos - Match.distance m + k) data x00 = nth (pos + k) data x00.
Proof.
  intros _ _. cbv zeta. intros k Hk.
  destruct (FindLongestMatch_search pos window_size) as (_ & Hsrc).
  cbv zeta in Hsrc.
  destruct (Nat.lt_ge_cases (Match.length (FindLongestMatch data pos window_size)) 3)
    as [Hlt|Hge].
  - exfalso. revert Hk Hlt. unfold FindLongestMatch.
    destruct (search _ _ _ _ _ _ _) as [max_len best_dist].
    destruct (max_len <? 3) eqn:E; cbn [Match.length]; [lia|].
    apply Nat.ltb_ge in E. lia.
  - destruct (Hsrc Hge) as (j & Hj & Hlen & Hdist & _).
    rewrite Hdist. replace (pos - (pos - j)) with j by lia.
    apply (match_length_eq pos (Nat.min (length data) (pos + 255)) j (pos - j) 0 k).
    rewrite <- Hlen. lia.
Qed.

(** X11.  The match reported is the longest, and the farthest of the
    longest.  Take any repeat of at least 3 bytes that starts in the
    window, ends before [pos] (no overlap), and is within the 255-byte
    limit and the input: the match [FindLongestMatch] reports is at
    least as long, and when it is exactly as long its distance is at
    least that of the repeat. *)
Theorem match_is_longest (pos window_size i n : nat) :
  input_ok data -> pos <= length data ->
  pos - window_size <= i -> i + n <= pos ->
  3 <= n -> n <= 255 -> pos + n <= length data ->
  (forall k, k < n -> nth (i + k) data x00 = nth (pos + k) data x00) ->
  let m := FindLongestMatch data pos window_size in
  n <= Match.length m
  /\ (Match.length m = n -> pos - i <= Match.distance m).
Proof.
  intros _ _ Hlo Hend H3 H255 Hdata Heq. cbv zeta.
  destruct (FindLongestMatch_search pos window_size) as (Hall & Hsrc).
  cbv zeta in Hall, Hsrc.
  set (m := FindLongestMatch data pos window_size) in *.
  set (limit := Nat.min (length data) (pos + 255)) in *.
  assert (Hn : n <= match_length data pos limit i 0 (pos - i)).
  { apply match_length_maximal; [exact Hend|unfold limit; lia|exact Heq]. }
  specialize (Hall i ltac:(lia)).
  assert (Hlen : n <= Match.length m) by lia.
  split; [exact Hlen|].
  intros Hsame.
  destruct (Hsrc ltac:(lia)) as (j & Hj & _ & Hdist & Hbefore).
  rewrite Hdist.
  destruct (Nat.le_gt_cases j i) as [Hle|Hgt]; [lia|].
  specialize (Hbefore i ltac:(lia)). lia.
Qed.

End MatchSearch.

(** ** compressor.cpp: the copy loop, and the parse replayed *)

Section CopyLoop.

(** The copy loop reads inside [output] exactly when there is nothing
    to copy or its first read is inside; the bytes it appends are then
    the bytes [start + i ..] of the output as it grows. *)
Lemma copy_match_spec (start : nat) :
  forall n i out,
    n = 0 \/ start + i < length out ->
    exists out',
      copy_match start i n out = Some out'
      /\ length out' = length out + n
      /\ firstn (length out) out' = out
      /\ forall k, k < n ->
           nth (length out + k) out' x00 = nth (start + i + k) out' x00.
Proof.
  induction n as [|n IH]; intros i out Hpre; cbn [copy_match].
  - exists out. split; [reflexivity|]. split; [lia|].
    split; [apply firstn_all|]. intros k Hk. lia.
  - destruct Hpre as [Hpre|Hpre]; [discriminate|].
    destruct (nth_error out (start + i)) as [b|] eqn:Eb;
      [|apply nth_error_None in Eb; lia].
    destruct (IH (S i) (out ++ [b])) as (out' & Hc & Hlen & Hpref & Hcopy).
    { right. rewrite length_app. cbn [length]. lia. }
    rewrite length_app in Hlen, Hpref, Hcopy. cbn [length] in Hlen, Hpref, Hcopy.
    replace (length out + 1) with (S (length out)) in Hpref by lia.
    destruct (firstn_snoc out' out b x00 Hpref) as [Hnth Hfirst].
    exists out'. split; [exact Hc|]. split; [lia|]. split; [exact Hfirst|].
    intros k Hk. destruct k as [|k].
    + rewrite !Nat.add_0_r, Hnth.
      transitivity (nth (start + i) (firstn (length out) out') x00).
      * rewrite Hfirst. symmetry. apply nth_error_nth. exact Eb.
      * rewrite nth_firstn.
        replace (start + i <? length out) with true by (symmetry; apply Nat.ltb_lt; lia).
        reflexivity.
    + specialize (Hcopy k ltac:(lia)).
      replace (length out + S k) with (length out + 1 + k) by lia.
      replace (start + i + S k) with (start + S i + k) by lia.
      exact Hcopy.
Qed.

Lemma copy_match_bad (start : nat) (n i : nat) (out : list byte) :
  length out <= start + i -> copy_match start i (S n) out = None.
Proof.
  intros H. cbn [copy_match].
  replace (nth_error out (start + i)) with (@None byte)
    by (symmetry; apply nth_error_None; exact H).
  reflexivity.
Qed.

Lemma firstn_S_snoc {A : Type} (l : list A) (d : A) :
  forall p, p < length l -> firstn (S p) l = firstn p l ++ [nth p l d].
Proof.
  induction l as [|a l IH]; intros p Hp; cbn [length] in Hp; [lia|].
  destruct p as [|p]; [reflexivity|].
  cbn [firstn nth app]. f_equal. apply IH. lia.
Qed.

Lemma replay_app (a b : list Token) :
  forall out,
    replay (a ++ b) out
    = match replay a out with
      | Some out' => replay b out'
      | None => None
      end.
Proof.
  induction a as [|t a IH]; intros out; cbn [app replay]; [reflexivity|].
  destruct (replay_token out t) as [out'|]; [apply IH|reflexivity].
Qed.

Variable data : list byte.

(** Copying a repeat that ends before the current position onto the
    first [pos] bytes of the input gives its first [pos + len] bytes. *)
Lemma copy_match_prefix (pos dist len : nat) :
  1 <= dist -> dist <= pos -> len <= dist -> pos + len <= length data ->
  (forall k, k < len -> nth (pos - dist + k) data x00 = nth (pos + k) data x00) ->
  copy_match (length (firstn pos data) - dist) 0 len (firstn pos data)
  = Some (firstn (pos + len) data).
Proof.
  intros Hd1 Hdp Hld Hend Heq.
  assert (Hlen : length (firstn pos data) = pos) by (rewrite length_firstn; lia).
  rewrite Hlen.
  destruct (copy_match_spec (pos - dist) len 0 (firstn pos data))
    as (out' & Hc & Hl & Hpref & Hcopy).
  { right. rewrite Hlen. lia. }
  rewrite Hlen in Hl, Hpref, Hcopy. rewrite Hc. f_equal.
  apply nth_ext with (d := x00) (d' := x00).
  - rewrite Hl, length_firstn. lia.
  - intros j Hj. rewrite Hl in Hj.
    rewrite (nth_firstn (pos + len) data j x00).
    replace (j <? pos + len) with true by (symmetry; apply Nat.ltb_lt; lia).
    assert (Hlow : forall q, q < pos -> nth q out' x00 = nth q data x00).
    { intros q Hq.
      transitivity (nth q (firstn pos out') x00).
      - rewrite nth_firstn.
        replace (q <? pos) with true by (symmetry; apply Nat.ltb_lt; lia). reflexivity.
      - rewrite Hpref, nth_firstn.
        replace (q <? pos) with true by (symmetry; apply Nat.ltb_lt; lia). reflexivity. }
    destruct (Nat.lt_ge_cases j pos) as [Hlt|Hge]; [apply Hlow; exact Hlt|].
    replace j with (pos + (j - pos)) by lia.
    rewrite (Hcopy (j - pos) ltac:(lia)).
    rewrite Nat.add_0_r, Hlow by lia.
    apply Heq. lia.
Qed.

(** The parsing loop keeps the tokens replayable: replayed, they give
    the input up to the current position. *)
Lemma parse_loop_replay (fuel : nat) :
  forall pos p p',
    parse_inv data pos p ->
    replay (tokens p) [] = Some (firstn pos data) ->
    parse_loop data fuel pos p = Some p' ->
    replay (tokens p') [] = Some data.
Proof.
  induction fuel as [|fuel IH]; intros pos p p' Hinv Hrep Hloop;
    cbn [parse_loop] in Hloop; [discriminate|].
  destruct (pos <? length data) eqn:E.
  - apply Nat.ltb_lt in E.
    destruct Hinv as (Hpos & Hal & Hrest).
    destruct (3 <=? Match.length (FindLongestMatch data pos WINDOW)) eqn:E3.
    + apply Nat.leb_le in E3.
      destruct (FindLongestMatch_spec data pos E E3) as (Hd1 & Hdw & Hdp & Hl & Hld & Hend).
      pose proof (FindLongestMatch_search data pos WINDOW) as Hs. cbv zeta in Hs.
      destruct Hs as (_ & Hsrc). destruct (Hsrc E3) as (j & Hj & Hlen & Hdist & _).
      set (m := FindLongestMatch data pos WINDOW) in *.
      apply (IH _ _ _ (parse_inv_match data pos p (conj Hpos (conj Hal Hrest)) E E3) ); 
        [|exact Hloop].
      fold m. unfold tokens. cbn [literals matches is_match].
      destruct (tokens_of_snoc_match (is_match p) (literals p) (matches p) m Hal)
        as [Htok _].
      rewrite Htok, replay_app. unfold tokens in Hrep. rewrite Hrep.
      cbn [replay replay_token].
      replace (length (firstn pos data) <? Match.distance m) with false
        by (symmetry; apply Nat.ltb_ge; rewrite length_firstn; lia).
      rewrite (copy_match_prefix pos (Match.distance m) (Match.length m)); try lia.
      * reflexivity.
      * intros k Hk. rewrite Hdist. replace (pos - (pos - j)) with j by lia.
        apply (match_length_eq data pos (Nat.min (length data) (pos + 255)) j (pos - j) 0 k).
        rewrite <- Hlen. lia.
    + apply (IH _ _ _ (parse_inv_literal data pos p (conj Hpos (conj Hal Hrest)) E));
        [|exact Hloop].
      unfold tokens. cbn [literals matches is_match].
      destruct (tokens_of_snoc_literal (is_match p) (literals p) (matches p)
                  (nth pos data x00) Hal) as [Htok _].
      rewrite Htok, replay_app. unfold tokens in Hrep. rewrite Hrep.
      cbn [replay replay_token]. f_equal.
      symmetry. apply firstn_S_snoc. exact E.
  - injection Hloop as <-. apply Nat.ltb_ge in E.
    rewrite Hrep. destruct Hinv as (Hpos & _). rewrite firstn_all2 by lia. reflexivity.
Qed.

(** X12.  The parse loses nothing.  On an input within the [int] range
    the parser returns, and the emit loop's treatment of its tokens --
    push the literal; check the distance, copy [length] bytes from
    [distance] back -- rebuilds the input from nothing: no distance
    check fails and no copy reads outside what has been rebuilt. *)
Theorem parse_lossless :
  input_ok data ->
  exists p, parse data = Some p /\ replay (tokens p) [] = Some data.
Proof.
  intros _. destruct (parse_spec data) as (p & Hp & _).
  exists p. split; [exact Hp|].
  apply (parse_loop_replay (S (length data)) 0 (mkParsed [] [] []) p).
  - apply parse_inv_init.
  - reflexivity.
  - exact Hp.
Qed.

End CopyLoop.

(** ** compressor.cpp: the emit loop on any container *)

Section EmitMore.
Local Open Scope Z_scope.

Variable match_data : list byte.

Lemma record_dist_range (mp : nat) : 0 <= record_dist match_data mp < 65536.
Proof. unfold record_dist, u16. apply Z.mod_pos_bound. lia. Qed.

Lemma record_len_range (mp : nat) : 0 <= record_len match_data mp < 256.
Proof. unfold record_len. apply byte_to_Z_range. Qed.

(** X13.  The one read outside [output].  While [output] is within the
    [int] range, a round of the emit loop reads [output] outside its
    bounds exactly when the flag is a match, its record is in the
    match region, and the record has distance 0 and a length of at
    least 1: such a record passes the distance check, and
    [output[start + i]] with [start == output.size()] is past the
    end.  In every other round the copy loop reads inside [output]. *)
Theorem bad_read_iff_zero_distance (s : Emit) :
  Z.of_nat (length (output s)) + 255 <= INT_MAX ->
  emit_step match_data s = BadRead
  <-> (fst (BitReader.ReadBit (flags_in s)) = true
       /\ (match_ptr s + 3 <= length match_data)%nat
       /\ record_dist match_data (match_ptr s) = 0
       /\ 1 <= record_len match_data (match_ptr s)).
Proof.
  intros _.
  pose proof (record_dist_range (match_ptr s)) as Hd.
  pose proof (record_len_range (match_ptr s)) as Hl.
  unfold emit_step.
  destruct (BitReader.ReadBit (flags_in s)) as [flag fr]. cbn [fst].
  destruct flag; cbn [negb].
  - destruct (length match_data <? match_ptr s + 3)%nat eqn:E.
    + apply Nat.ltb_lt in E. split; [discriminate|]. intros (_ & H & _). lia.
    + apply Nat.ltb_ge in E.
      destruct (Z.of_nat (length (output s)) <? record_dist match_data (match_ptr s)) eqn:Ed.
      * apply Z.ltb_lt in Ed. split; [discriminate|]. intros (_ & _ & H & _). lia.
      * apply Z.ltb_ge in Ed.
        destruct (Z.to_nat (record_len match_data (match_ptr s))) as [|n] eqn:En.
        -- cbn [copy_match]. split; [discriminate|]. intros (_ & _ & _ & H). lia.
        -- destruct (Z.eq_dec (record_dist match_data (match_ptr s)) 0) as [Hz|Hnz].
           ++ rewrite Hz. change (Z.to_nat 0) with 0%nat. rewrite Nat.sub_0_r.
              rewrite copy_match_bad by lia.
              split; [|reflexivity]. intros _.
              split; [reflexivity|]. split; [exact E|]. split; [reflexivity|lia].
           ++ destruct (copy_match_spec
                          (length (output s)
                           - Z.to_nat (record_dist match_data (match_ptr s)))
                          (S n) 0 (output s)) as (out' & Hc & _).
              { right. lia. }
              rewrite Hc. split; [discriminate|]. intros (_ & _ & H & _). lia.
  - destruct (Decode (rans s)) as [lit d]. split; [discriminate|].
    intros (H & _). discriminate.
Qed.

(** X14.  A match round copies from [dist] bytes back, byte by byte.
    While [output] is within the [int] range: when the flag is a match,
    its record is in the match region and
    [1 <= dist <= output.size()], the round goes on: it appends [len]
    bytes, each equal to the byte [dist] positions before it in the
    output as extended -- so a record with [dist < len] repeats the
    last [dist] bytes -- and it moves [match_ptr] by 3 and leaves the
    entropy decoder alone. *)
Theorem match_round_copies (s : Emit) :
  Z.of_nat (length (output s)) + 255 <= INT_MAX ->
  fst (BitReader.ReadBit (flags_in s)) = true ->
  (match_ptr s + 3 <= length match_data)%nat ->
  1 <= record_dist match_data (match_ptr s) <= Z.of_nat (length (output s)) ->
  let dist := Z.to_nat (record_dist match_data (match_ptr s)) in
  let len := Z.to_nat (record_len match_data (match_ptr s)) in
  exists s',
    emit_step match_data s = Continue s'
    /\ length (output s') = (length (output s) + len)%nat
    /\ firstn (length (output s)) (output s') = output s
    /\ (forall k, (k < len)%nat ->
          nth (length (output s) + k) (output s') x00
          = nth (length (output s) + k - dist) (output s') x00)
    /\ match_ptr s' = (match_ptr s + 3)%nat
    /\ rans s' = rans s.
Proof.
  intros _ Hflag Hrec Hdist. cbv zeta.
  unfold emit_step.
  destruct (BitReader.ReadBit (flags_in s)) as [flag fr]. cbn [fst] in Hflag.
  subst flag. cbn [negb].
  replace (length match_data <? match_ptr s + 3)%nat with false
    by (symmetry; apply Nat.ltb_ge; lia).
  replace (Z.of_nat (length (output s)) <? record_dist match_data (match_ptr s))
    with false by (symmetry; apply Z.ltb_ge; lia).
  destruct (copy_match_spec
              (length (output s) - Z.to_nat (record_dist match_data (match_ptr s)))
              (Z.to_nat (record_len match_data (match_ptr s))) 0 (output s))
    as (out' & Hc & Hlen & Hpref & Hcopy).
  { right. lia. }
  rewrite Hc. eexists. split; [reflexivity|]. cbn [output match_ptr rans].
  split; [exact Hlen|]. split; [exact Hpref|]. split; [|split; reflexivity].
  intros k Hk. rewrite (Hcopy k Hk). f_equal. lia.
Qed.

Lemma emit_step_grows (s s' : Emit) :
  emit_step match_data s = Continue s' ->
  (length (output s') <= length (output s) + 255)%nat.
Proof.
  pose proof (record_len_range (match_ptr s)) as Hl.
  unfold emit_step.
  destruct (BitReader.ReadBit (flags_in s)) as [flag fr].
  destruct flag; cbn [negb].
  - destruct (length match_data <? match_ptr s + 3)%nat; [discriminate|].
    destruct (Z.of_nat (length (output s)) <? record_dist match_data (match_ptr s));
      [discriminate|].
    destruct (copy_match _ _ _ _) as [out|] eqn:Ec; [|discriminate].
    destruct (copy_match_length _ _ _ _ _ Ec) as (tail & -> & Ht).
    intros H. injection H as <-. cbn [output]. rewrite length_app. lia.
  - destruct (Decode (rans s)) as [lit d].
    intros H. injection H as <-. cbn [output]. rewrite length_app. cbn [length]. lia.
Qed.

Variable orig_size : Z.

(** Where the loop stops: without an error at [orig_size] or up to 254
    bytes past it, with an error below it. *)
Lemma emit_loop_stops (fuel : nat) :
  forall s s' r,
    Z.of_nat (length (output s)) <= Z.max 0 orig_size + 254 ->
    emit_loop fuel orig_size match_data s = Stopped s' r ->
    match r with
    | None => orig_size <= Z.of_nat (length (output s')) <= Z.max 0 orig_size + 254
    | Some _ => Z.of_nat (length (output s')) < orig_size
    end.
Proof.
  induction fuel as [|fuel IH]; intros s s' r Hs Hloop; cbn [emit_loop] in Hloop;
    [discriminate|].
  destruct (Z.of_nat (length (output s)) <? orig_size) eqn:E.
  - apply Z.ltb_lt in E.
    destruct (emit_step match_data s) as [s1|s1 e|] eqn:Es; [| |discriminate].
    + apply (IH s1 s' r); [|exact Hloop].
      pose proof (emit_step_grows s s1 Es). lia.
    + injection Hloop as <- <-.
      pose proof (emit_step_output match_data s) as Ho. rewrite Es in Ho.
      destruct Ho as [Ho _]. rewrite Ho. exact E.
  - apply Z.ltb_ge in E. injection Hloop as <- <-. lia.
Qed.

End EmitMore.

(** X15.  The length of what [Decompress] writes.  For an [orig_size]
    that keeps the output within the [int] range, whenever
    [Decompress] writes its output file: with no error reported the
    content has at least [orig_size] bytes and at most 254 more -- the
    loop does not cut the last match at [orig_size] -- and with an
    error reported it has fewer than [orig_size] bytes. *)
Theorem Decompress_output_length (uninit : SymbolStats) (file out : list byte)
        (r : option Report) :
  (header_field 1 file + 254 <= INT_MAX)%Z ->
  Decompress uninit file = Wrote out r ->
  match r with
  | None => (header_field 1 file <= Z.of_nat (length out) <= header_field 1 file + 254)%Z
  | Some _ => (Z.of_nat (length out) < header_field 1 file)%Z
  end.
Proof.
  intros _. unfold Decompress.
  destruct (length file <? 4); [discriminate|].
  destruct (negb (header_field 0 file =? MAGIC)%Z); [discriminate|].
  destruct (length file <? 24); [discriminate|].
  destruct (open_container uninit file) as [[orig_size match_data] s0] eqn:Hopen.
  destruct (open_container_start _ _ _ _ _ Hopen) as (Hout & _ & Horig).
  destruct (emit_loop _ _ _ _) as [s' r'| |] eqn:Hloop; try discriminate.
  intros H. injection H as <- <-.
  pose proof (emit_loop_stops match_data orig_size (emit_fuel orig_size match_data)
                s0 s' r') as Hstop.
  rewrite Hout in Hstop. cbn [length] in Hstop.
  assert (H0 : (0 <= orig_size)%Z).
  { rewrite Horig. unfold header_field, rd32.
    pose proof (byte_to_Z_range (nth 0 (firstn 4 (skipn (4 * 1) file)) x00)).
    pose proof (byte_to_Z_range (nth 1 (firstn 4 (skipn (4 * 1) file)) x00)).
    pose proof (byte_to_Z_range (nth 2 (firstn 4 (skipn (4 * 1) file)) x00)).
    pose proof (byte_to_Z_range (nth 3 (firstn 4 (skipn (4 * 1) file)) x00)).
    lia. }
  specialize (Hstop ltac:(lia) Hloop). rewrite <- Horig.
  destruct r'; lia.
Qed.

(** ** compressor.cpp: [Decompress] on what [Compress] wrote *)

Section RoundTrip.

Lemma skipn_cons_nth {A : Type} (l : list A) (d : A) :
  forall p a rest,
    skipn p l = a :: rest ->
    p < length l /\ nth p l d = a /\ skipn (S p) l = rest.
Proof.
  induction l as [|x l IH]; intros p a rest H.
  - rewrite skipn_nil in H. discriminate.
  - destruct p as [|p].
    + cbn [skipn] in H. injection H as -> ->. cbn [length nth skipn].
      split; [lia|]. split; reflexivity.
    + cbn [skipn] in H. destruct (IH p a rest H) as (H1 & H2 & H3).
      cbn [length nth]. split; [lia|]. split; [exact H2|exact H3].
Qed.

Lemma nth_of_skipn {A : Type} (l : list A) (d : A) (p i : nat) :
  nth i (skipn p l) d = nth (p + i) l d.
Proof.
  revert p. induction l as [|x l IH]; intros p.
  - rewrite skipn_nil. destruct i; destruct (p + _); reflexivity.
  - destruct p as [|p]; [reflexivity|]. cbn [skipn Nat.add nth]. apply IH.
Qed.

(** A match record read back from where [Compress] packed it. *)
Lemma record_unpacked (M : list byte) (mp : nat) (m : Match.t) (rest : list byte) :
  skipn mp M = pack_match m ++ rest ->
  (Z.of_nat (Match.distance m) < 65536)%Z -> Match.length m < 256 ->
  mp + 3 <= length M
  /\ record_dist M mp = Z.of_nat (Match.distance m)
  /\ record_len M mp = Z.of_nat (Match.length m)
  /\ skipn (mp + 3) M = rest.
Proof.
  intros Hs Hd Hl.
  assert (Hlen : length (skipn mp M) = 3 + length rest)
    by (rewrite Hs, length_app; reflexivity).
  rewrite length_skipn in Hlen.
  assert (H0 : nth mp M x00 = byte_of_Z (Z.land (Z.of_nat (Match.distance m)) 255)).
  { replace mp with (mp + 0) at 1 by lia. rewrite <- nth_of_skipn, Hs. reflexivity. }
  assert (H1 : nth (mp + 1) M x00
               = byte_of_Z (Z.land (Z.shiftr (Z.of_nat (Match.distance m)) 8) 255)).
  { rewrite <- nth_of_skipn, Hs. reflexivity. }
  assert (H2 : nth (mp + 2) M x00 = byte_of_Z (Z.land (Z.of_nat (Match.length m)) 255)).
  { rewrite <- nth_of_skipn, Hs. reflexivity. }
  split; [lia|]. split; [|split].
  - unfold record_dist. rewrite H0, H1, !byte_of_Z_land255, !byte_to_of_Z.
    unfold u8, u16. set (d := Z.of_nat (Match.distance m)).
    assert (Hdr : (0 <= d < 65536)%Z) by (unfold d; lia).
    rewrite Z.shiftr_div_pow2 by lia. change (2 ^ 8)%Z with 256%Z.
    rewrite lor_shiftl_add
      by (try lia; change (2 ^ 8)%Z with 256%Z; apply Z.mod_pos_bound; lia).
    change (2 ^ 8)%Z with 256%Z.
    assert (Hq : (0 <= d / 256 < 256)%Z).
    { split; [apply Z.div_pos; lia|apply Z.div_lt_upper_bound; lia]. }
    rewrite (Z.mod_small (d / 256)) by lia.
    pose proof (Z.div_mod d 256 ltac:(lia)) as Hdm.
    replace (d mod 256 + d / 256 * 256)%Z with d by lia.
    apply Z.mod_small. lia.
  - unfold record_len. rewrite H2, byte_of_Z_land255, byte_to_of_Z.
    unfold u8. apply Z.mod_small. lia.
  - replace (mp + 3) with (3 + mp) by lia.
    rewrite <- (skipn_skipn 3 mp M), Hs. reflexivity.
Qed.

Lemma replay_length (ts : list Token) :
  forall out final,
    replay ts out = Some final -> length final = length out + consumed ts.
Proof.
  induction ts as [|t ts IH]; intros out final H; cbn [replay] in H.
  - injection H as <-. cbn [consumed fold_right]. lia.
  - destruct (replay_token out t) as [out'|] eqn:Et; [|discriminate].
    rewrite (IH _ _ H). cbn [consumed fold_right]. fold (consumed ts).
    destruct t as [b|m]; cbn [replay_token token_size] in *.
    + injection Et as <-. rewrite length_app. cbn [length]. lia.
    + destruct (length out <? Match.distance m); [discriminate|].
      destruct (copy_match_length _ _ _ _ _ Et) as (tail & -> & Ht).
      rewrite length_app. lia.
Qed.

Variable orig_size : Z.
Variable M F : list byte.
Variable B : list bool.
Hypothesis Hbits : forall k j, k < length F -> j < 8 ->
    Z.testbit (byte_to_Z (nth k F x00)) (Z.of_nat (7 - j))
    = nth (8 * k + j) B false.
Hypothesis HlenB : length B <= 8 * length F.

(** The emit loop on the three streams of a parse: flags from bit
    position [8k + j], records from [match_ptr], literals from the
    entropy decoder.  It goes through the tokens as [replay] does and
    stops after the last one. *)
Lemma emit_loop_tokens (flags : list bool) :
  forall lits ms s final fuel k j,
    j < 8 ->
    flags_in s = BitReader.mk F k j ->
    skipn (8 * k + j) B = flags ->
    skipn (match_ptr s) M = flat_map pack_match ms ->
    (forall pre m post,
        tokens_of flags lits ms = pre ++ Copy m :: post ->
        1 <= Match.length m /\ Match.length m < 256
        /\ (Z.of_nat (Match.distance m) < 65536)%Z) ->
    fst (DecodeMany (length lits) (rans s)) = lits ->
    replay (tokens_of flags lits ms) (output s) = Some final ->
    aligned flags (length lits) (length ms) ->
    Z.of_nat (length final) = orig_size ->
    length flags < fuel ->
    exists s', emit_loop fuel orig_size M s = Stopped s' None /\ output s' = final.
Proof.
  induction flags as [|f flags IH];
    intros lits ms s final fuel k j Hj Hfl Hsk HM Hok Hdec Hrep Hal Hfin Hfuel.
  - cbn [aligned] in Hal. destruct Hal as [Hl Hm].
    destruct lits; [|discriminate]. destruct ms; [|discriminate].
    cbn [tokens_of replay] in Hrep. injection Hrep as <-.
    destruct fuel as [|fuel]; [cbn [length] in Hfuel; lia|].
    cbn [emit_loop].
    replace (Z.of_nat (length (output s)) <? orig_size)%Z with false
      by (symmetry; apply Z.ltb_ge; lia).
    exists s. split; reflexivity.
  - destruct fuel as [|fuel]; [lia|]. cbn [length] in Hfuel.
    destruct (skipn_cons_nth B false _ _ _ Hsk) as (Hp & Hnth & Hnext).
    assert (Hk : k < length F) by lia.
    assert (Hread : BitReader.ReadBit (flags_in s)
                    = (f, if Nat.eqb (S j) 8 then BitReader.mk F (S k) 0
                          else BitReader.mk F k (S j))).
    { rewrite Hfl, (ReadBit_in_range B F Hbits k j Hk Hj), Hnth. reflexivity. }
    assert (Hpos : exists k' j',
               j' < 8 /\ 8 * k' + j' = S (8 * k + j)
               /\ (if Nat.eqb (S j) 8 then BitReader.mk F (S k) 0
                   else BitReader.mk F k (S j)) = BitReader.mk F k' j').
    { destruct (Nat.eqb (S j) 8) eqn:E.
      - apply Nat.eqb_eq in E. exists (S k), 0. repeat split; lia.
      - apply Nat.eqb_neq in E. exists k, (S j). repeat split; lia. }
    destruct Hpos as (k' & j' & Hj' & Hpos & Hfr). rewrite Hfr in Hread.
    rewrite <- Hpos in Hnext.
    cbn [emit_loop]. unfold emit_step. rewrite Hread.
    destruct f; cbn [aligned] in Hal; cbn [negb].
    + (* a match *)
      destruct ms as [|m ms]; cbn [length] in Hal; [contradiction|].
      cbn [tokens_of] in Hrep, Hok.
      destruct (Hok [] m _ eq_refl) as (Hl1 & Hl255 & Hd16).
      cbn [flat_map] in HM.
      destruct (record_unpacked M (match_ptr s) m _ HM Hd16 Hl255)
        as (Hrec & Hdist & Hlen & HM').
      cbn [replay replay_token] in Hrep.
      destruct (length (output s) <? Match.distance m) eqn:Ed; [discriminate|].
      apply Nat.ltb_ge in Ed.
      destruct (copy_match (length (output s) - Match.distance m) 0 (Match.length m)
                           (output s)) as [out1|] eqn:Ec; [|discriminate].
      pose proof (replay_length _ _ _ Hrep) as Hlenf.
      destruct (copy_match_length _ _ _ _ _ Ec) as (tail & Hout1 & Htail).
      assert (Hrun : (Z.of_nat (length (output s)) < orig_size)%Z).
      { rewrite <- Hfin, Hlenf, Hout1, length_app. lia. }
      replace (Z.of_nat (length (output s)) <? orig_size)%Z with true
        by (symmetry; apply Z.ltb_lt; exact Hrun).
      replace (length M <? match_ptr s + 3) with false
        by (symmetry; apply Nat.ltb_ge; lia).
      rewrite Hdist, Hlen, !Nat2Z.id.
      replace (Z.of_nat (length (output s)) <? Z.of_nat (Match.distance m))%Z
        with false by (symmetry; apply Z.ltb_ge; lia).
      rewrite Ec.
      apply (IH lits ms _ final fuel k' j'); cbn [flags_in match_ptr rans output];
        try assumption; try lia; try reflexivity.
      intros pre m' post Heq. apply (Hok (Copy m :: pre) m' post).
      rewrite Heq. reflexivity.
    + (* a literal *)
      destruct lits as [|b lits]; cbn [length] in Hal; [contradiction|].
      cbn [tokens_of] in Hrep, Hok.
      cbn [replay replay_token] in Hrep.
      pose proof (replay_length _ _ _ Hrep) as Hlenf.
      rewrite length_app in Hlenf. cbn [length] in Hlenf.
      assert (Hrun : (Z.of_nat (length (output s)) < orig_size)%Z) by lia.
      replace (Z.of_nat (length (output s)) <? orig_size)%Z with true
        by (symmetry; apply Z.ltb_lt; exact Hrun).
      cbn [length DecodeMany] in Hdec.
      destruct (Decode (rans s)) as [b1 d1].
      destruct (DecodeMany (length lits) d1) as [ss d2] eqn:Erest.
      cbn [fst] in Hdec. injection Hdec as -> Hss.
      apply (IH lits ms _ final fuel k' j'); cbn [flags_in match_ptr rans output];
        try assumption; try lia; try reflexivity.
      * intros pre m' post Heq. apply (Hok (Literal b :: pre) m' post).
        rewrite Heq. reflexivity.
      * rewrite Erest. exact Hss.
Qed.

End RoundTrip.

Section RoundTripTheorem.

Lemma read_region_app (R rest : list byte) :
  read_region (length R) (R ++ rest) = (R, rest).
Proof.
  unfold read_region.
  rewrite firstn_app, firstn_all, Nat.sub_diag, length_app. cbn [firstn].
  replace (length R - (length R + length rest)) with 0 by lia. cbn [repeat].
  rewrite !app_nil_r, skipn_app, skipn_all, Nat.sub_diag. reflexivity.
Qed.

(** What [Decompress] reads from a container laid out as [Compress]
    lays it out. *)
Lemma open_container_layout (uninit : SymbolStats) (n : Z)
      (R F Mt Mod : list byte) :
  (0 <= n < 4294967296)%Z ->
  (Z.of_nat (length R) < 4294967296)%Z ->
  (Z.of_nat (length F) < 4294967296)%Z ->
  (Z.of_nat (length Mt) < 4294967296)%Z ->
  length Mod = 512 ->
  let file := le32 MAGIC ++ le32 n ++ le32 (Z.of_nat (length R))
              ++ le32 (Z.of_nat (length F)) ++ le32 (Z.of_nat (length Mt))
              ++ le32 512 ++ R ++ F ++ Mt ++ Mod in
  24 <= length file
  /\ header_field 0 file = MAGIC
  /\ open_container uninit file
     = (n, Mt, mkEmit (Dec_Init Mod (Dec_new uninit R)) (BitReader.init F) [] 0).
Proof.
  intros Hn HR HF HM HMod. cbv zeta.
  destruct (header_fields MAGIC n (Z.of_nat (length R)) (Z.of_nat (length F))
              (Z.of_nat (length Mt)) 512 (R ++ F ++ Mt ++ Mod))
    as (H0 & H1 & H2 & H3 & H4 & H5 & Hskip & Hlen).
  cbv zeta in H0, H1, H2, H3, H4, H5, Hskip, Hlen.
  split; [rewrite Hlen; lia|].
  split; [rewrite H0; apply rd32_le32; vm_compute; split; [discriminate|reflexivity]|].
  unfold open_container.
  rewrite H1, H2, H3, H4, H5, Hskip.
  rewrite !rd32_le32 by lia.
  rewrite !Nat2Z.id. change (Z.to_nat 512) with 512. rewrite <- HMod.
  rewrite read_region_app, read_region_app, read_region_app.
  rewrite <- (app_nil_r Mod) at 2. rewrite read_region_app.
  reflexivity.
Qed.

(** The artifact, from the parts [Compress] computes. *)
Lemma Compress_parts (data : list byte) (st : SymbolStats) (p : Parsed)
      (e : RansEncoderImpl) :
  data <> [] -> input_ok data ->
  Count zero_stats data = Some st ->
  parse data = Some p ->
  parse_inv data (length data) p ->
  EncodeAll (rev (literals p)) (mkEnc RANS_L [] st) = Some e ->
  length (enc_buffer e) <= 2 * length (literals p) ->
  let R := GetOutput (Enc_Flush e) in
  let F := BitWriter.GetData
             (BitWriter.Flush (BitWriter.WriteAll (is_match p) BitWriter.init)) in
  let Mt := flat_map pack_match (matches p) in
  let Mod := GetModelData (Enc_Flush e) in
  Compress data
  = Some (le32 MAGIC ++ le32 (Z.of_nat (length data)) ++ le32 (Z.of_nat (length R))
          ++ le32 (Z.of_nat (length F)) ++ le32 (Z.of_nat (length Mt))
          ++ le32 512 ++ R ++ F ++ Mt ++ Mod)
  /\ (Z.of_nat (length R) < 4294967296)%Z
  /\ (Z.of_nat (length F) < 4294967296)%Z
  /\ (Z.of_nat (length Mt) < 4294967296)%Z.
Proof.
  intros Hne Hin HC Hp Hinv He Hlen. cbv zeta.
  pose proof Hin as Hin'. unfold input_ok, INT_MAX in Hin'.
  destruct Hinv as (_ & Hal & Hcons & Hok & Hlit & Hcnt & Hfl).
  destruct (flushed (is_match p)) as (_ & Hflag & _). cbv zeta in Hflag.
  set (flag_bytes := BitWriter.GetData
                       (BitWriter.Flush (BitWriter.WriteAll (is_match p) BitWriter.init))) in *.
  pose proof (length_packed (matches p)) as Hpacked.
  pose proof (length_Enc_Flush e) as Hflush.
  pose proof (length_GetModelData (Enc_Flush e)) as Hmodel.
  assert (Hr : (Z.of_nat (length (GetOutput (Enc_Flush e))) < 4294967296)%Z)
    by (unfold GetOutput; lia).
  assert (Hf : (Z.of_nat (length flag_bytes) < 4294967296)%Z) by lia.
  assert (Hm : (Z.of_nat (length (flat_map pack_match (matches p))) < 4294967296)%Z) by lia.
  split; [|split; [exact Hr|split; [exact Hf|exact Hm]]].
  destruct data as [|b0 rest]; [congruence|].
  set (data := b0 :: rest) in *.
  unfold Compress. fold data.
  unfold BuildModel, Enc_Init, enc_impl0. cbn [enc_stats enc_state enc_buffer].
  rewrite HC, Hp, He. fold flag_bytes.
  rewrite Hmodel.
  rewrite !write_region_all by (try assumption; rewrite ?Hmodel; lia).
  rewrite (u32_small (Z.of_nat (length data))) by lia.
  rewrite (u32_small (Z.of_nat (length (GetOutput (Enc_Flush e))))) by lia.
  rewrite (u32_small (Z.of_nat (length flag_bytes))) by lia.
  rewrite (u32_small (Z.of_nat (length (flat_map pack_match (matches p))))) by lia.
  reflexivity.
Qed.

(** X16.  The round trip, when the entropy coder stays in step.  On a
    non-empty input within the [int] range, if every renormalisation
    of the [Encode] calls that [Compress] makes is one the decoder's
    refill undoes, then [Compress] writes an artifact and [Decompress]
    on that artifact writes the input back, byte for byte, and reports
    no error: header, flag bits, match records, model table and copy
    loop all fit together, and the one way the round trip is lost is a
    renormalisation from a state of [2^24] or more. *)
Theorem roundtrip_when_in_sync (uninit : SymbolStats) (data : list byte) :
  data <> [] -> input_ok data ->
  literals_in_sync data = true ->
  exists art, Compress data = Some art /\ Decompress uninit art = Wrote data None.
Proof.
  intros Hne Hin Hsync.
  pose proof Hin as Hin'. unfold input_ok, INT_MAX in Hin'.
  destruct (Count_spec zero_stats data Hne ltac:(lia))
    as (st & HC & Hmod & HL & HS & Hcum & Hfreq).
  destruct (parse_spec data) as (p & Hp & Hinv).
  unfold literals_in_sync, BuildModel, Enc_Init, enc_impl0 in Hsync.
  cbn [enc_stats enc_state enc_buffer] in Hsync. rewrite HC, Hp in Hsync.
  set (e0 := mkEnc RANS_L [] st) in *.
  assert (Hst0 : (RANS_L <= enc_state e0 < 4294967296)%Z)
    by (cbn [e0 enc_state]; change RANS_L with 65536%Z; lia).
  destruct (in_sync_EncodeAll (rev (literals p)) e0 Hmod Hst0 Hsync)
    as (e & He & Hstats & Hste).
  pose proof Hinv as (Hpos & Hal & Hcons & Hok & Hlit & Hcnt & Hfl).
  destruct (EncodeAll_spec (rev (literals p)) e0) as (e' & He' & _ & _ & Hlen).
  { exact Hmod. }
  { intros s Hs. cbn [e0 enc_stats]. apply Hfreq. apply Hlit. apply in_rev. exact Hs. }
  { cbn [e0 enc_state]. change RANS_L with 65536%Z. lia. }
  rewrite He in He'. injection He' as <-.
  cbn [e0 enc_buffer length Nat.add] in Hlen. rewrite length_rev in Hlen.
  destruct (Compress_parts data st p e Hne Hin HC Hp Hinv He Hlen) as (Hart & HR & HF & HM).
  cbv zeta in Hart, HR, HF, HM.
  set (R := GetOutput (Enc_Flush e)) in *.
  set (F := BitWriter.GetData
              (BitWriter.Flush (BitWriter.WriteAll (is_match p) BitWriter.init))) in *.
  set (Mt := flat_map pack_match (matches p)) in *.
  set (Mod := GetModelData (Enc_Flush e)) in *.
  eexists. split; [exact Hart|].
  destruct (open_container_layout uninit (Z.of_nat (length data)) R F Mt Mod
              ltac:(lia) HR HF HM (length_GetModelData (Enc_Flush e)))
    as (H24 & Hmagic & Hopen).
  rewrite (Decompress_open uninit _ H24 Hmagic), Hopen.
  set (d0 := Dec_Init Mod (Dec_new uninit R)).
  assert (Hposd : positioned d0 e).
  { apply positioned_handover; [rewrite Hstats; exact Hmod|].
    change (2 ^ 32)%Z with 4294967296%Z. change RANS_L with 65536%Z in Hste. lia. }
  destruct (DecodeMany_EncodeAll (rev (literals p)) e0 e d0 Hmod Hst0 Hsync He Hposd)
    as (Hsyms & _).
  rewrite length_rev, rev_involutive in Hsyms.
  destruct (flushed (is_match p)) as (HlenB & _ & Hbits). fold F in HlenB, Hbits.
  assert (Hrep : replay (tokens p) [] = Some data).
  { apply (parse_loop_replay data (S (length data)) 0 (mkParsed [] [] []) p).
    - apply parse_inv_init.
    - reflexivity.
    - exact Hp. }
  destruct (emit_loop_tokens (Z.of_nat (length data)) Mt F (is_match p) Hbits HlenB
              (is_match p) (literals p) (matches p)
              (mkEmit d0 (BitReader.init F) [] 0) data
              (emit_fuel (Z.of_nat (length data)) Mt) 0 0)
    as (s' & Hloop & Hout); cbn [flags_in match_ptr rans output]; try reflexivity;
    try assumption; try lia.
  - intros pre m post Heq. destruct (Hok pre m post Heq) as (_ & Hd & H3 & H255 & _).
    split; [lia|]. split; lia.
  - unfold emit_fuel. rewrite Nat2Z.id. lia.
  - rewrite Hloop, Hout. reflexivity.
Qed.

End RoundTripTheorem.

(** ** rans.cpp: the frequency of a byte that does not occur *)

Section AbsentSymbols.
Local Open Scope Z_scope.

Lemma byte_to_nat_inj (a b : byte) : byte_to_nat a = byte_to_nat b -> a = b.
Proof.
  unfold byte_to_nat. intros H.
  pose proof (Byte.of_to_nat a) as Ha. pose proof (Byte.of_to_nat b) as Hb.
  rewrite H in Ha. congruence.
Qed.

Lemma tally_absent (data : list byte) (b : byte) :
  forall fs, ~ In b data ->
             nth (byte_to_nat b) (tally data fs) 0 = nth (byte_to_nat b) fs 0.
Proof.
  induction data as [|a rest IH]; intros fs Hnot; cbn [tally]; [reflexivity|].
  rewrite IH by (intros H; apply Hnot; right; exact H).
  apply nth_upd_neq. intros Heq. apply Hnot. left. apply byte_to_nat_inj. exact Heq.
Qed.

Lemma scale_all_zero (total : Z) (fs : list Z) :
  forall t i, nth i fs 0 = 0 -> nth i (fst (scale_all total fs t)) 0 = 0.
Proof.
  induction fs as [|f fs IH]; intros t i Hz; cbn [scale_all].
  - destruct i; reflexivity.
  - specialize (IH (u32 (t + scale_one total f))).
    destruct (scale_all total fs (u32 (t + scale_one total f))) as [rest' t'].
    cbn [fst] in *. destruct i as [|i]; cbn [nth] in *.
    + rewrite Hz. reflexivity.
    + apply IH. exact Hz.
Qed.

(** The decrement loop leaves a zero entry at zero. *)
Lemma adjust_down_zero (fuel : nat) :
  forall fs T i fs2 j,
    adjust_down fuel fs T i = Some fs2 -> nth j fs 0 = 0 -> nth j fs2 0 = 0.
Proof.
  induction fuel as [|fuel IH]; intros fs T i fs2 j H Hz; cbn [adjust_down] in H;
    [discriminate|].
  destruct (PROB_SCALE <? T).
  - destruct (1 <? nth i fs 0) eqn:E.
    + apply Z.ltb_lt in E. apply (IH _ _ _ _ j H).
      rewrite nth_upd_neq; [exact Hz|]. intros ->. lia.
    + apply (IH _ _ _ _ j H). exact Hz.
  - injection H as <-. exact Hz.
Qed.

(** X17.  Bytes that do not occur get frequency 0, byte 0 apart.
    Whenever [Count] returns, every byte value other than [0x00] that
    does not occur in the buffer has frequency 0; the slack the
    scaling leaves goes to entry 0 alone, whether [0x00] occurs or
    not. *)
Theorem absent_symbols_zero (st0 st : SymbolStats) (data : list byte) (b : byte) :
  Count st0 data = Some st ->
  ~ In b data -> byte_to_nat b <> 0%nat ->
  nth (byte_to_nat b) (freqs st) 0 = 0.
Proof.
  intros HC Hnot Hnz.
  pose proof (tally_absent data b (repeat 0 256) Hnot) as Ht.
  assert (Hz : nth (byte_to_nat b) (repeat 0 256) 0 = 0).
  { apply nth_repeat_lt. apply byte_to_nat_lt. }
  rewrite Hz in Ht.
  unfold Count in HC.
  destruct (Z.of_nat (length data) =? 0).
  { apply (f_equal (fun o => match o with
                             | Some s => nth (byte_to_nat b) (freqs s) 0
                             | None => 0
                             end)) in HC.
    cbn [freqs] in HC. rewrite <- HC. exact Ht. }
  pose proof (scale_all_zero (Z.of_nat (length data)) (tally data (repeat 0 256)) 0
                (byte_to_nat b) Ht) as Hs.
  destruct (scale_all (Z.of_nat (length data)) (tally data (repeat 0 256)) 0)
    as [fs1 current_total].
  cbn [fst] in Hs.
  assert (Hfre : forall fs2, Some (mkStats fs2 (prefix_sums 0 fs2)) = Some st ->
                             freqs st = fs2).
  { intros fs2 H. injection H as <-. reflexivity. }
  destruct (current_total <? PROB_SCALE).
  - rewrite (Hfre _ HC). rewrite nth_upd_neq by lia. exact Hs.
  - destruct (PROB_SCALE <? current_total).
    + destruct (adjust_down (adjust_fuel current_total) fs1 current_total 0)
        as [fs2|] eqn:Ea; [|discriminate].
      rewrite (Hfre _ HC).
      apply (adjust_down_zero _ _ _ _ _ _ Ea Hs).
    + rewrite (Hfre _ HC). exact Hs.
Qed.

End AbsentSymbols.

(** ** compressor.cpp: the size of the artifact *)

(** X18.  The size of the artifact.  On a non-empty input within the
    [int] range [Compress] writes an artifact of at least 541 bytes --
    header, four state bytes, a flag byte and the 512-byte model --
    and of at most [541 + 2 * |data| + |data| / 8] bytes. *)
Theorem artifact_size (data : list byte) :
  data <> [] -> input_ok data ->
  exists art,
    Compress data = Some art
    /\ 541 <= length art
    /\ length art <= 541 + 2 * length data + length data / 8.
Proof.
  intros Hne Hin.
  pose proof Hin as Hin'. unfold input_ok, INT_MAX in Hin'.
  destruct (Count_spec zero_stats data Hne ltac:(lia))
    as (st & HC & Hmod & HL & HS & Hcum & Hfreq).
  destruct (parse_spec data) as (p & Hp & Hinv).
  pose proof Hinv as (Hpos & Hal & Hcons & Hok & Hlit & Hcnt & Hfl).
  destruct (EncodeAll_spec (rev (literals p)) (mkEnc RANS_L [] st))
    as (e & He & _ & _ & Hlen).
  { exact Hmod. }
  { intros s Hs. cbn [enc_stats]. apply Hfreq. apply Hlit. apply in_rev. exact Hs. }
  { cbn [enc_state]. change RANS_L with 65536%Z. lia. }
  cbn [enc_buffer length Nat.add] in Hlen. rewrite length_rev in Hlen.
  destruct (Compress_parts data st p e Hne Hin HC Hp Hinv He Hlen) as (Hart & _).
  cbv zeta in Hart.
  eexists. split; [exact Hart|].
  destruct (flushed (is_match p)) as (Hlo & Hhi & _). cbv zeta in Hlo, Hhi.
  rewrite !length_app, !length_le32, length_GetModelData, length_packed.
  unfold GetOutput. rewrite length_Enc_Flush.
  set (nf := length (BitWriter.GetData
                       (BitWriter.Flush (BitWriter.WriteAll (is_match p) BitWriter.init)))) in *.
  assert (Hflags : 1 <= length (is_match p)).
  { destruct data as [|b0 rest]; [congruence|]. cbn [length] in *.
    destruct (is_match p) as [|f fl] eqn:Ef; [|cbn [length]; lia].
    exfalso. unfold tokens in Hcons. rewrite Ef in Hcons.
    cbn [tokens_of consumed fold_right] in Hcons. lia. }
  assert (Hdiv : 8 * (length data / 8) <= length data)
    by (apply Nat.Div0.mul_div_le).
  pose proof (Nat.div_mod_eq (length data) 8) as Hdm.
  pose proof (Nat.mod_upper_bound (length data) 8 ltac:(lia)) as Hmb.
  split; lia.
Qed.

(** ** rans.cpp: where [Decode] stops undoing [Encode] *)

Section RansExact.
Local Open Scope Z_scope.

Lemma renorm_out_grows (fuel : nat) (x_max : Z) :
  forall state buffer state' buffer',
    renorm_out fuel x_max state buffer = Some (state', buffer') ->
    (length buffer <= length buffer')%nat.
Proof.
  induction fuel as [|fuel IH]; intros state buffer state' buffer' H;
    cbn [renorm_out] in H; [discriminate|].
  destruct (x_max <=? state).
  - apply IH in H. rewrite length_app in H. cbn [length] in H. lia.
  - injection H as _ <-. lia.
Qed.

(** The refill takes one byte at most from a state of [2^8] or more. *)
Lemma renorm_in_at_most_one (data : list byte) (p : nat) (state : Z) :
  256 <= state < 4294967296 ->
  (p <= S (snd (renorm_in data p state)))%nat.
Proof.
  intros Hs. destruct p as [|p]; cbn [renorm_in]; [cbn [snd]; lia|].
  destruct (state <? RANS_L) eqn:E.
  - apply Z.ltb_lt in E. change RANS_L with 65536 in E.
    rewrite renorm_in_none; [cbn [snd]; lia|].
    change RANS_L with 65536.
    rewrite Z.shiftl_mul_pow2 by lia. change (2 ^ 8) with 256.
    rewrite u32_small by lia.
    pose proof (byte_to_Z_range (nth p data x00)) as Hb.
    replace (state * 256) with (Z.shiftl state 8)
      by (rewrite Z.shiftl_mul_pow2 by lia; reflexivity).
    rewrite Z.lor_comm, lor_shiftl_add by (change (2 ^ 8) with 256; lia).
    change (2 ^ 8) with 256. lia.
  - cbn [snd]. lia.
Qed.

(** The encoder's loop entered from a state of [2^24] or more: either
    it shifts once and stops at [2^16] or above, or it shifts at least
    twice. *)
Lemma renorm_out_high (x_max state : Z) (buffer : list byte) (st : Z) (buf : list byte) :
  524288 <= x_max -> x_max <= state -> 16777216 <= state < 4294967296 ->
  renorm_out 5 x_max state buffer = Some (st, buf) ->
  256 <= st < 4294967296
  /\ (65536 <= st /\ length buf = S (length buffer)
      \/ (length buffer + 2 <= length buf)%nat).
Proof.
  intros Hx Hge Hs Hr.
  change (renorm_out 5 x_max state buffer)
    with (if x_max <=? state
          then renorm_out 4 x_max (Z.shiftr state 8)
                 (buffer ++ [byte_of_Z (Z.land state 255)])
          else Some (state, buffer)) in Hr.
  replace (x_max <=? state) with true in Hr by (symmetry; apply Z.leb_le; lia).
  assert (Hs1 : 65536 <= Z.shiftr state 8 < 16777216).
  { rewrite Z.shiftr_div_pow2 by lia. change (2 ^ 8) with 256.
    split; [apply Z.div_le_lower_bound; lia|apply Z.div_lt_upper_bound; lia]. }
  destruct (renorm_out_exits x_max 3 (Z.shiftr state 8)
              (buffer ++ [byte_of_Z (Z.land state 255)]))
    as (st' & buf' & Hr' & Hlt & Hcase & _).
  { change (256 ^ Z.of_nat 3) with 16777216. nia. }
  rewrite Hr' in Hr. injection Hr as <- <-.
  destruct Hcase as [[-> ->]|[Hge1 Hlow]].
  - split; [lia|]. left. split; [lia|].
    rewrite length_app. cbn [length]. lia.
  - split; [lia|]. right.
    change (renorm_out 4 x_max (Z.shiftr state 8)
              (buffer ++ [byte_of_Z (Z.land state 255)]))
      with (if x_max <=? Z.shiftr state 8
            then renorm_out 3 x_max (Z.shiftr (Z.shiftr state 8) 8)
                   ((buffer ++ [byte_of_Z (Z.land state 255)])
                      ++ [byte_of_Z (Z.land (Z.shiftr state 8) 255)])
            else Some (Z.shiftr state 8, buffer ++ [byte_of_Z (Z.land state 255)]))
      in Hr'.
    replace (x_max <=? Z.shiftr state 8) with true in Hr'
      by (symmetry; apply Z.leb_le; lia).
    apply renorm_out_grows in Hr'. rewrite !length_app in Hr'. cbn [length] in Hr'. lia.
Qed.

(** X19.  Where [Decode] stops undoing [Encode].  Take a valid model, an
    encoder state in [[RANS_L, 2^32)], an [Encode] that returns, and
    the decoder standing where the encoder is after it.  After one
    [Decode] the decoder stands where the encoder was before the call
    exactly when the renormalisation loop of that [Encode] was not
    entered or was entered from a state below [2^24]; entered from
    [2^24] or above, the refill leaves unread at least one of the
    bytes the encoder pushed. *)
Theorem decode_undoes_encode_iff
        (e e' : RansEncoderImpl) (s : byte) (d : RansDecoderImpl) :
  model_ok (enc_stats e) ->
  RANS_L <= enc_state e < 2 ^ 32 ->
  Encode s e = Some e' ->
  positioned d e' ->
  (positioned (snd (Decode d)) e <-> renorm_undone s e = true)
  /\ (renorm_undone s e = false ->
      (length (enc_buffer e) < ptr (snd (Decode d)))%nat).
Proof.
  intros Hm Hst He Hpos. change (2 ^ 32) with 4294967296 in Hst.
  pose proof (Encode_Some_freq e e' s Hm He) as Hf.
  assert (Hshort : renorm_undone s e = false ->
                   (length (enc_buffer e) < ptr (snd (Decode d)))%nat).
  { intros Hu.
    pose proof (byte_to_nat_lt s) as Hs.
    destruct (model_ok_symbol (enc_stats e) (byte_to_nat s) Hm Hs)
      as (Hf0 & Hc0 & Hnext & Htop).
    rewrite Hnext in Htop.
    destruct (Encode_explicit e s Hf Hc0 Htop Hst) as (st & buf & Hr & Hlt & Henc).
    rewrite Henc in He. injection He as <-.
    destruct Hpos as (Hds & Hdm & Hdp & Hdd).
    cbn [enc_state enc_buffer enc_stats] in Hds, Hdm, Hdp, Hdd.
    set (f := nth (byte_to_nat s) (freqs (enc_stats e)) 0) in *.
    set (c := nth (byte_to_nat s) (cum_freqs (enc_stats e)) 0) in *.
    change PROB_SCALE with 4096 in Htop. change RANS_L with 65536 in Hst.
    unfold renorm_undone in Hu. fold f in Hu.
    change (Z.shiftl 1 (31 - PROB_BITS)) with 524288 in Hu.
    rewrite (u32_small (524288 * f)) in Hu by lia.
    apply orb_false_iff in Hu. destruct Hu as [Hu1 Hu2].
    apply Z.ltb_ge in Hu1. apply Z.ltb_ge in Hu2.
    destruct (renorm_out_high (524288 * f) (enc_state e) (enc_buffer e) st buf
                ltac:(lia) Hu1 ltac:(lia) Hr) as (Hst256 & Hcase).
    assert (Hq : 0 <= st / f < 1048576).
    { split; [apply Z.div_pos; lia|apply Z.div_lt_upper_bound; lia]. }
    pose proof (Z.mod_pos_bound st f ltac:(lia)) as Hmod.
    assert (Hdec := Decode_update d s (st / f) (st mod f)).
    cbv zeta in Hdec. rewrite Hdm in Hdec. fold f in Hdec. fold c in Hdec.
    specialize (Hdec Hm Hq Hmod Hds).
    assert (Hback : st / f * f + st mod f = st)
      by (pose proof (Z.div_mod st f ltac:(lia)); lia).
    rewrite Hback in Hdec. rewrite Hdec.
    destruct Hcase as [[Hhigh Hone]|Htwo].
    - rewrite renorm_in_none by (change RANS_L with 65536; lia).
      cbn [snd ptr]. lia.
    - pose proof (renorm_in_at_most_one (dec_data d) (ptr d) st Hst256) as Hone.
      destruct (renorm_in (dec_data d) (ptr d) st) as [st1 p1].
      cbn [snd ptr] in *. lia. }
  split; [|exact Hshort].
  split.
  - intros (_ & _ & Hp & _).
    destruct (renorm_undone s e) eqn:Eu; [reflexivity|].
    specialize (Hshort eq_refl). lia.
  - intros Hu.
    destruct (Decode_Encode e e' s d Hm Hf Hst He Hpos) as (_ & _ & Hback).
    exact (Hback Hu).
Qed.

End RansExact.

(** ** compressor.cpp: the decoder's uninitialised tables *)

Lemma length_read_region (n : nat) (rest : list byte) :
  length (fst (read_region n rest)) = n.
Proof.
  unfold read_region. cbn [fst].
  rewrite length_app, length_firstn, repeat_length. lia.
Qed.

Lemma Dec_Init_full (model_data : list byte) (u1 u2 : SymbolStats) (r : list byte) :
  512 <= length model_data ->
  Dec_Init model_data (Dec_new u1 r) = Dec_Init model_data (Dec_new u2 r).
Proof.
  intros H. unfold Dec_Init.
  replace (length model_data <? 512) with false by (symmetry; apply Nat.ltb_ge; exact H).
  unfold Dec_new. destruct (4 <=? length r); reflexivity.
Qed.

(** X20.  The uninitialised tables are never used when the model region
    holds 512 bytes.  [RansDecoderImpl]'s constructor leaves [stats]
    uninitialised; when the [model_size] field of the container is at
    least 512, [SetModel] overwrites all of it before the first
    [Decode], and what [Decompress] does is the same whatever the
    member held -- also on a truncated container, whose missing bytes
    read as zeros. *)
Theorem Decompress_ignores_uninitialised (u1 u2 : SymbolStats) (file : list byte) :
  (512 <= header_field 5 file)%Z ->
  Decompress u1 file = Decompress u2 file.
Proof.
  intros H.
  assert (Hopen : open_container u1 file = open_container u2 file).
  { unfold open_container.
    destruct (read_region (Z.to_nat (header_field 2 file)) (skipn 24 file))
      as [rans_data rest1].
    destruct (read_region (Z.to_nat (header_field 3 file)) rest1) as [flags_data rest2].
    destruct (read_region (Z.to_nat (header_field 4 file)) rest2) as [md rest3].
    pose proof (length_read_region (Z.to_nat (header_field 5 file)) rest3) as Hl.
    destruct (read_region (Z.to_nat (header_field 5 file)) rest3) as [model_data rest4].
    cbn [fst] in Hl.
    rewrite (Dec_Init_full model_data u1 u2 rans_data) by lia.
    reflexivity. }
  unfold Decompress. rewrite Hopen. reflexivity.
Qed.

(** ** compressor.cpp: the shape of the round trip *)

Section RoundTripShape.

Variable orig_size : Z.
Variable M F : list byte.
Variable B : list bool.
Hypothesis Hbits : forall k j, k < length F -> j < 8 ->
    Z.testbit (byte_to_Z (nth k F x00)) (Z.of_nat (7 - j))
    = nth (8 * k + j) B false.
Hypothesis HlenB : length B <= 8 * length F.

(** The emit loop on the flags and records of a parse, whatever the
    entropy decoder returns for the literals: it goes through the
    tokens, emits as many bytes as they account for, and stops after
    the last one without an error. *)
Lemma emit_loop_shape (flags : list bool) :
  forall lits ms s fuel k j,
    j < 8 ->
    flags_in s = BitReader.mk F k j ->
    skipn (8 * k + j) B = flags ->
    skipn (match_ptr s) M = flat_map pack_match ms ->
    (forall pre m post,
        tokens_of flags lits ms = pre ++ Copy m :: post ->
        1 <= Match.length m /\ Match.length m < 256
        /\ 1 <= Match.distance m
        /\ (Z.of_nat (Match.distance m) < 65536)%Z
        /\ Match.distance m <= length (output s) + consumed pre) ->
    aligned flags (length lits) (length ms) ->
    Z.of_nat (length (output s) + consumed (tokens_of flags lits ms)) = orig_size ->
    length flags < fuel ->
    exists s',
      emit_loop fuel orig_size M s = Stopped s' None
      /\ Z.of_nat (length (output s')) = orig_size.
Proof.
  induction flags as [|f flags IH];
    intros lits ms s fuel k j Hj Hfl Hsk HM Hok Hal Hfin Hfuel.
  - cbn [aligned] in Hal. destruct Hal as [Hl Hm].
    destruct lits; [|discriminate]. destruct ms; [|discriminate].
    cbn [tokens_of consumed fold_right] in Hfin.
    destruct fuel as [|fuel]; [cbn [length] in Hfuel; lia|].
    cbn [emit_loop].
    replace (Z.of_nat (length (output s)) <? orig_size)%Z with false
      by (symmetry; apply Z.ltb_ge; lia).
    exists s. split; [reflexivity|lia].
  - destruct fuel as [|fuel]; [lia|]. cbn [length] in Hfuel.
    destruct (skipn_cons_nth B false _ _ _ Hsk) as (Hp & Hnth & Hnext).
    assert (Hk : k < length F) by lia.
    assert (Hread : BitReader.ReadBit (flags_in s)
                    = (f, if Nat.eqb (S j) 8 then BitReader.mk F (S k) 0
                          else BitReader.mk F k (S j))).
    { rewrite Hfl, (ReadBit_in_range B F Hbits k j Hk Hj), Hnth. reflexivity. }
    assert (Hpos : exists k' j',
               j' < 8 /\ 8 * k' + j' = S (8 * k + j)
               /\ (if Nat.eqb (S j) 8 then BitReader.mk F (S k) 0
                   else BitReader.mk F k (S j)) = BitReader.mk F k' j').
    { destruct (Nat.eqb (S j) 8) eqn:E.
      - apply Nat.eqb_eq in E. exists (S k), 0. repeat split; lia.
      - apply Nat.eqb_neq in E. exists k, (S j). repeat split; lia. }
    destruct Hpos as (k' & j' & Hj' & Hpos & Hfr). rewrite Hfr in Hread.
    rewrite <- Hpos in Hnext.
    cbn [emit_loop]. unfold emit_step. rewrite Hread.
    destruct f; cbn [aligned] in Hal; cbn [negb].
    + (* a match *)
      destruct ms as [|m ms]; cbn [length] in Hal; [contradiction|].
      cbn [tokens_of] in Hfin, Hok.
      cbn [consumed fold_right token_size] in Hfin.
      fold (consumed (tokens_of flags lits ms)) in Hfin.
      destruct (Hok [] m _ eq_refl) as (Hl1 & Hl255 & Hd1 & Hd16 & Hdout).
      cbn [consumed fold_right] in Hdout.
      cbn [flat_map] in HM.
      destruct (record_unpacked M (match_ptr s) m _ HM Hd16 Hl255)
        as (Hrec & Hdist & Hlen & HM').
      replace (Z.of_nat (length (output s)) <? orig_size)%Z with true
        by (symmetry; apply Z.ltb_lt; lia).
      replace (length M <? match_ptr s + 3) with false
        by (symmetry; apply Nat.ltb_ge; lia).
      rewrite Hdist, Hlen, !Nat2Z.id.
      replace (Z.of_nat (length (output s)) <? Z.of_nat (Match.distance m))%Z
        with false by (symmetry; apply Z.ltb_ge; lia).
      destruct (copy_match_spec (length (output s) - Match.distance m)
                  (Match.length m) 0 (output s)) as (out1 & Hc & Hlen1 & _).
      { right. lia. }
      rewrite Hc.
      apply (IH lits ms _ fuel k' j'); cbn [flags_in match_ptr rans output];
        try assumption; try lia; try reflexivity.
      intros pre m' post Heq.
      destruct (Hok (Copy m :: pre) m' post) as (H1 & H2 & H3 & H4 & H5).
      { rewrite Heq. reflexivity. }
      cbn [consumed fold_right token_size] in H5. fold (consumed pre) in H5.
      split; [exact H1|]. split; [exact H2|]. split; [exact H3|]. split; [exact H4|].
      lia.
    + (* a literal *)
      destruct lits as [|b lits]; cbn [length] in Hal; [contradiction|].
      cbn [tokens_of] in Hfin, Hok.
      cbn [consumed fold_right token_size] in Hfin.
      fold (consumed (tokens_of flags lits ms)) in Hfin.
      replace (Z.of_nat (length (output s)) <? orig_size)%Z with true
        by (symmetry; apply Z.ltb_lt; lia).
      destruct (Decode (rans s)) as [b1 d1].
      apply (IH lits ms _ fuel k' j'); cbn [flags_in match_ptr rans output];
        try assumption; try lia; try reflexivity.
      * intros pre m' post Heq.
        destruct (Hok (Literal b :: pre) m' post) as (H1 & H2 & H3 & H4 & H5).
        { rewrite Heq. reflexivity. }
        cbn [consumed fold_right token_size] in H5. fold (consumed pre) in H5.
        rewrite length_app. cbn [length].
        split; [exact H1|]. split; [exact H2|]. split; [exact H3|]. split; [exact H4|].
        lia.
      * rewrite length_app. cbn [length]. lia.
Qed.

End RoundTripShape.

(** X21.  The round trip never fails in shape.  On every non-empty
    input within the [int] range [Compress] writes an artifact, and
    [Decompress] on that artifact reports no error and writes exactly
    as many bytes as the input has -- whether or not the bytes are
    those of the input: when the entropy coder falls out of step, the
    corruption is silent. *)
Theorem roundtrip_shape (uninit : SymbolStats) (data : list byte) :
  data <> [] -> input_ok data ->
  exists art out,
    Compress data = Some art
    /\ Decompress uninit art = Wrote out None
    /\ length out = length data.
Proof.
  intros Hne Hin.
  pose proof Hin as Hin'. unfold input_ok, INT_MAX in Hin'.
  destruct (Count_spec zero_stats data Hne ltac:(lia))
    as (st & HC & Hmod & HL & HS & Hcum & Hfreq).
  destruct (parse_spec data) as (p & Hp & Hinv).
  pose proof Hinv as (Hpos & Hal & Hcons & Hok & Hlit & Hcnt & Hfl).
  destruct (EncodeAll_spec (rev (literals p)) (mkEnc RANS_L [] st))
    as (e & He & _ & _ & Hlen).
  { exact Hmod. }
  { intros s Hs. cbn [enc_stats]. apply Hfreq. apply Hlit. apply in_rev. exact Hs. }
  { cbn [enc_state]. change RANS_L with 65536%Z. lia. }
  cbn [enc_buffer length Nat.add] in Hlen. rewrite length_rev in Hlen.
  destruct (Compress_parts data st p e Hne Hin HC Hp Hinv He Hlen) as (Hart & HR & HF & HM).
  cbv zeta in Hart, HR, HF, HM.
  set (R := GetOutput (Enc_Flush e)) in *.
  set (F := BitWriter.GetData
              (BitWriter.Flush (BitWriter.WriteAll (is_match p) BitWriter.init))) in *.
  set (Mt := flat_map pack_match (matches p)) in *.
  set (Mod := GetModelData (Enc_Flush e)) in *.
  destruct (open_container_layout uninit (Z.of_nat (length data)) R F Mt Mod
              ltac:(lia) HR HF HM (length_GetModelData (Enc_Flush e)))
    as (H24 & Hmagic & Hopen).
  destruct (flushed (is_match p)) as (HlenB & _ & Hbits). fold F in HlenB, Hbits.
  destruct (emit_loop_shape (Z.of_nat (length data)) Mt F (is_match p) Hbits HlenB
              (is_match p) (literals p) (matches p)
              (mkEmit (Dec_Init Mod (Dec_new uninit R)) (BitReader.init F) [] 0)
              (emit_fuel (Z.of_nat (length data)) Mt) 0 0)
    as (s' & Hloop & Hout); cbn [flags_in match_ptr rans output length Nat.add];
    try reflexivity; try assumption; try lia.
  - intros pre m post Heq.
    destruct (Hok pre m post Heq) as (Hd1 & Hd & H3 & H255 & Hdp & _).
    split; [lia|]. split; [lia|]. split; [exact Hd1|]. split; [lia|exact Hdp].
  - unfold tokens in Hcons. rewrite Hcons. reflexivity.
  - unfold emit_fuel. rewrite Nat2Z.id. lia.
  - eexists. exists (output s'). split; [exact Hart|]. split; [|lia].
    rewrite (Decompress_open uninit _ H24 Hmagic), Hopen, Hloop. reflexivity.
Qed.

(** ** compressor.cpp: the emit loop cannot be kept running *)

Lemma header_field_nonneg (k : nat) (file : list byte) : (0 <= header_field k file)%Z.
Proof.
  unfold header_field, rd32.
  pose proof (byte_to_Z_range (nth 0 (firstn 4 (skipn (4 * k) file)) x00)).
  pose proof (byte_to_Z_range (nth 1 (firstn 4 (skipn (4 * k) file)) x00)).
  pose proof (byte_to_Z_range (nth 2 (firstn 4 (skipn (4 * k) file)) x00)).
  pose proof (byte_to_Z_range (nth 3 (firstn 4 (skipn (4 * k) file)) x00)).
  lia.
Qed.

Lemma open_container_match_region (uninit : SymbolStats) (file : list byte)
      (orig_size : Z) (match_data : list byte) (s0 : Emit) :
  open_container uninit file = (orig_size, match_data, s0) ->
  length match_data = Z.to_nat (header_field 4 file).
Proof.
  unfold open_container.
  destruct (read_region (Z.to_nat (header_field 2 file)) (skipn 24 file))
    as [rans_data rest1].
  destruct (read_region (Z.to_nat (header_field 3 file)) rest1) as [flags_data rest2].
  pose proof (length_read_region (Z.to_nat (header_field 4 file)) rest2) as Hl.
  destruct (read_region (Z.to_nat (header_field 4 file)) rest2) as [md rest3].
  destruct (read_region (Z.to_nat (header_field 5 file)) rest3) as [model_data rest4].
  intros H. injection H as _ <- _. exact Hl.
Qed.

(** X22.  No container keeps the emit loop running.  Whatever the
    bytes of the container, the loop of [Decompress] runs for at most
    [orig_size + match_size] rounds: a round emits a byte or uses up a
    match record, and a flag that asks for a record past the end of
    the match region ends the loop. *)
Theorem emit_rounds_bounded (uninit : SymbolStats) (file : list byte)
        (orig_size : Z) (match_data : list byte) (s0 s : Emit) (n : nat) :
  open_container uninit file = (orig_size, match_data, s0) ->
  emit_run n orig_size match_data s0 = Some s ->
  (Z.of_nat n <= header_field 1 file + header_field 4 file)%Z.
Proof.
  intros Hopen Hrun.
  destruct (open_container_start _ _ _ _ _ Hopen) as (Hout & Hmp & Horig).
  pose proof (open_container_match_region _ _ _ _ _ Hopen) as Hmd.
  destruct (emit_run_rounds orig_size match_data n s0 s Hrun) as (Hr & _).
  unfold rounds_left in Hr. rewrite Hout, Hmp in Hr. cbn [length] in Hr.
  pose proof (header_field_nonneg 1 file). pose proof (header_field_nonneg 4 file).
  rewrite Hmd, Horig in Hr. lia.
Qed.

(** ** The further properties on concrete inputs *)

Lemma fields_roundtrip_witness :
  fst (ReadFields [3; 16; 1]
         (BitReader.init
            (BitWriter.GetData
               (BitWriter.Flush
                  (WriteFields [(5%Z, 3); (43981%Z, 16); (1%Z, 1)] BitWriter.init)))))
  = [5; 43981; 1]%Z.
Proof.
  refine (eq_trans (fields_roundtrip [(5%Z, 3); (43981%Z, 16); (1%Z, 1)] _) _).
  - intros f [<-|[<-|[<-|[]]]]; cbn [snd]; lia.
  - vm_compute. reflexivity.
Defined.

Lemma model_handover_witness :
  dec_stats (Dec_Init (GetModelData demo_encoder) (Dec_new zero_stats []))
  = enc_stats demo_encoder.
Proof.
  refine (proj1 (model_handover demo_encoder (Dec_new zero_stats []) _)).
  vm_compute. reflexivity.
Defined.

Lemma state_handover_witness :
  dec_state (Dec_new zero_stats (GetOutput (Enc_Flush late_encoder)))
  = enc_state late_encoder.
Proof.
  refine (proj1 (state_handover zero_stats late_encoder _)).
  split; [apply Z.leb_le|apply Z.ltb_lt]; vm_compute; reflexivity.
Defined.

Lemma decode_symbol_in_model_witness :
  (1 <= nth (byte_to_nat (fst (Decode demo_decoder))) (freqs (dec_stats demo_decoder)) 0)%Z.
Proof.
  refine (proj2 (decode_symbol_in_model demo_decoder _)).
  vm_compute. reflexivity.
Defined.

Lemma encode_zero_frequency_witness : Encode "Z"%byte demo_encoder = None.
Proof.
  refine (proj1 (encode_zero_frequency "Z"%byte demo_encoder _ _)).
  - vm_compute. reflexivity.
  - apply Z.leb_le. vm_compute. reflexivity.
Defined.

Lemma last_symbol_decoded_first_witness :
  let e' := match Encode "A"%byte late_encoder with
            | Some e => e
            | None => late_encoder
            end in
  fst (Decode (Dec_Init (GetModelData (Enc_Flush e'))
                 (Dec_new zero_stats (GetOutput (Enc_Flush e'))))) = "A"%byte.
Proof.
  cbv zeta.
  apply (last_symbol_decoded_first zero_stats late_encoder).
  - vm_compute. reflexivity.
  - split; [apply Z.leb_le|apply Z.ltb_lt]; vm_compute; reflexivity.
  - vm_compute. reflexivity.
Defined.


Lemma match_is_repeat_witness :
  nth (3 - Match.distance
             (FindLongestMatch ["A"; "B"; "C"; "A"; "B"; "C"]%byte 3 WINDOW) + 2)
      ["A"; "B"; "C"; "A"; "B"; "C"]%byte x00
  = nth (3 + 2) ["A"; "B"; "C"; "A"; "B"; "C"]%byte x00.
Proof.
  apply (match_is_repeat ["A"; "B"; "C"; "A"; "B"; "C"]%byte 3 WINDOW).
  - unfold input_ok. apply Z.leb_le. vm_compute. reflexivity.
  - apply Nat.leb_le. vm_compute. reflexivity.
  - apply Nat.ltb_lt. vm_compute. reflexivity.
Defined.

Lemma match_is_longest_witness :
  3 <= Match.length (FindLongestMatch run_of_X 6 WINDOW)
  /\ (Match.length (FindLongestMatch run_of_X 6 WINDOW) = 3 ->
      6 - 3 <= Match.distance (FindLongestMatch run_of_X 6 WINDOW)).
Proof.
  apply (match_is_longest run_of_X 6 WINDOW 3 3).
  - unfold input_ok. apply Z.leb_le. vm_compute. reflexivity.
  - apply Nat.leb_le. vm_compute. reflexivity.
  - apply Nat.leb_le. vm_compute. reflexivity.
  - apply Nat.leb_le. vm_compute. reflexivity.
  - lia.
  - lia.
  - apply Nat.leb_le. vm_compute. reflexivity.
  - intros k Hk. destruct k as [|[|[|k]]]; [reflexivity|reflexivity|reflexivity|lia].
Defined.

Lemma parse_lossless_witness :
  exists p, parse run_of_X = Some p /\ replay (tokens p) [] = Some run_of_X.
Proof.
  apply (parse_lossless run_of_X).
  unfold input_ok. apply Z.leb_le. vm_compute. reflexivity.
Defined.

Lemma bad_read_iff_zero_distance_witness :
  emit_step ["000"; "000"; "003"]%byte (loop_after 3 zero_distance_artifact) = BadRead.
Proof.
  refine (proj2 (bad_read_iff_zero_distance ["000"; "000"; "003"]%byte
                   (loop_after 3 zero_distance_artifact) _) _).
  - apply Z.leb_le. vm_compute. reflexivity.
  - split; [vm_compute; reflexivity|].
    split; [apply Nat.leb_le; vm_compute; reflexivity|].
    split; [vm_compute; reflexivity|].
    apply Z.leb_le. vm_compute. reflexivity.
Defined.

Lemma match_round_copies_witness :
  exists s',
    emit_step ["001"; "000"; "003"]%byte (loop_after 3 overlap_artifact) = Continue s'
    /\ length (output s') = length (output (loop_after 3 overlap_artifact)) + 3
    /\ firstn (length (output (loop_after 3 overlap_artifact))) (output s')
       = output (loop_after 3 overlap_artifact)
    /\ (forall k, k < 3 ->
          nth (length (output (loop_after 3 overlap_artifact)) + k) (output s') x00
          = nth (length (output (loop_after 3 overlap_artifact)) + k - 1) (output s') x00)
    /\ match_ptr s' = match_ptr (loop_after 3 overlap_artifact) + 3
    /\ rans s' = rans (loop_after 3 overlap_artifact).
Proof.
  apply (match_round_copies ["001"; "000"; "003"]%byte (loop_after 3 overlap_artifact)).
  - apply Z.leb_le. vm_compute. reflexivity.
  - vm_compute. reflexivity.
  - apply Nat.leb_le. vm_compute. reflexivity.
  - split; apply Z.leb_le; vm_compute; reflexivity.
Defined.

Lemma Decompress_output_length_witness :
  (Z.of_nat (length ["A"; "B"; "C"; "A"; "B"; "C"]%byte)
   < header_field 1 underflow_artifact)%Z.
Proof.
  apply (Decompress_output_length zero_stats underflow_artifact
           ["A"; "B"; "C"; "A"; "B"; "C"]%byte (Some MatchUnderflow)).
  - apply Z.leb_le. vm_compute. reflexivity.
  - vm_compute. reflexivity.
Defined.

Lemma roundtrip_when_in_sync_witness :
  exists art,
    Compress run_of_X = Some art /\ Decompress zero_stats art = Wrote run_of_X None.
Proof.
  apply (roundtrip_when_in_sync zero_stats run_of_X).
  - discriminate.
  - unfold input_ok. apply Z.leb_le. vm_compute. reflexivity.
  - vm_compute. reflexivity.
Defined.

Lemma absent_symbols_zero_witness :
  nth (byte_to_nat "Z"%byte) (freqs (enc_stats demo_encoder)) 0%Z = 0%Z.
Proof.
  apply (absent_symbols_zero zero_stats (enc_stats demo_encoder) ABCDEF "Z"%byte).
  - vm_compute. reflexivity.
  - intros [H|[H|[H|[H|[H|[H|[]]]]]]]; discriminate H.
  - discriminate.
Defined.

Lemma artifact_size_witness :
  exists art,
    Compress ABCDEF = Some art
    /\ 541 <= length art
    /\ length art <= 541 + 2 * length ABCDEF + length ABCDEF / 8.
Proof.
  apply (artifact_size ABCDEF).
  - discriminate.
  - unfold input_ok. apply Z.leb_le. vm_compute. reflexivity.
Defined.

Lemma decode_undoes_encode_iff_witness :
  length (enc_buffer high_encoder) < ptr (snd (Decode demo_decoder)).
Proof.
  refine (proj2 (decode_undoes_encode_iff high_encoder late_encoder "F"%byte
                   demo_decoder _ _ _ _) _).
  - vm_compute. reflexivity.
  - split; [apply Z.leb_le|apply Z.ltb_lt]; vm_compute; reflexivity.
  - vm_compute. reflexivity.
  - unfold positioned. repeat split; vm_compute; reflexivity.
  - vm_compute. reflexivity.
Defined.

Lemma Decompress_ignores_uninitialised_witness :
  Decompress zero_stats underflow_artifact
  = Decompress (enc_stats demo_encoder) underflow_artifact.
Proof.
  apply (Decompress_ignores_uninitialised zero_stats (enc_stats demo_encoder)
           underflow_artifact).
  apply Z.leb_le. vm_compute. reflexivity.
Defined.

Lemma roundtrip_shape_witness :
  exists art out,
    Compress ABCDEF = Some art
    /\ Decompress zero_stats art = Wrote out None
    /\ length out = length ABCDEF.
Proof.
  apply (roundtrip_shape zero_stats ABCDEF).
  - discriminate.
  - unfold input_ok. apply Z.leb_le. vm_compute. reflexivity.
Defined.

Lemma emit_rounds_bounded_witness :
  (Z.of_nat 4 <= header_field 1 underflow_artifact + header_field 4 underflow_artifact)%Z.
Proof.
  apply (emit_rounds_bounded zero_stats underflow_artifact
           9%Z ["003"; "000"; "003"]%byte
           (loop_start underflow_artifact) (loop_after 4 underflow_artifact) 4).
  - vm_compute. reflexivity.
  - vm_compute. reflexivity.
Defined.
